(** * Spectral detection engine of the ESP32 dual-rate fire alarm detector

    A shallow embedding of [Final_code.ino]: the peak estimator
    [majorPeakParabolaDbWithMag], the gated median + EMA filters
    [update_short_peak_filter] / [update_long_peak_filter], the history voting
    detector [detectFrequency], the long-window accumulator and the producer
    loop [loop2], and the single-slot metrics queue read by [handleMetrics].

    Numbers are modelled as the firmware has them:
    - [double] is IEEE-754 binary64, Rocq's primitive [float], with its
      operations and comparisons ([float] variables of the sketch are binary32
      values, all of which are binary64 values; the narrowing conversion is
      [float_of_double]);
    - [unsigned int] / [uint32_t] / [unsigned long] are [N] with the wrap-around
      modulo [2^32] written out;
    - [int], [int32_t] and [uint16_t] values are [Z];
    - C arrays are lists updated by index.

    The C library functions [log10] and [pow] and the ArduinoFFT transform are
    not part of the sketch: they are parameters of the model. *)

From Stdlib Require Import ZArith NArith Lia List Bool Floats Uint63 String.
From Stdlib Require Import Reals Lra.
From stdpp Require Import base list.
From Equations Require Import Equations.

Open Scope Z_scope.

(** ** Numeric model *)

Definition double : Type := float.
Bind Scope float_scope with double.

#[global] Instance float_inhabited : Inhabited float := populate 0%float.

(** [(double)z] for an integer [z] of at most 63 bits. *)
Definition double_of_Z (z : Z) : double :=
  if z <? 0 then (- PrimFloat.of_uint63 (Uint63.of_Z (- z)))%float
  else PrimFloat.of_uint63 (Uint63.of_Z z).

(** [(float)x]: round a binary64 value to binary32 (24-bit significand,
    round to nearest even); the result is again represented as a binary64. *)
Definition float_of_double (x : double) : double :=
  match Prim2SF x with
  | S754_finite s m e => SF2Prim (binary_round 24 128 s m e)
  | _ => x
  end.

(** Unsigned 32-bit arithmetic. *)
Definition UINT_MOD : N := (2 ^ 32)%N.
Definition wrap32 (n : N) : N := (n mod UINT_MOD)%N.
Definition usub32 (a b : N) : N := wrap32 (a + UINT_MOD - wrap32 b).

(** ** Build-time configuration *)

Definition SAMPLES : Z := 1024.
Definition LONG_SAMPLES : Z := 4096.
Definition BLOCK_SIZE : Z := SAMPLES.
Definition SAMPLE_RATE : double := 22627%float.

Definition MAG_THRESHOLD_SHORT : double := 1%float.
Definition MAG_THRESHOLD_LONG : double := 1%float.

Definition SHORT_MEDIAN_N : Z := 5.
(** [0.4f] widened to double: 13421773 * 2^-25. *)
Definition EMA_ALPHA_SHORT : double := 0x1.99999ap-2%float.

Definition LONG_MEDIAN_N : Z := 3.
Definition EMA_ALPHA_LONG : double := 0.25%float.

(** ** PeakEstimator: [majorPeakParabolaDbWithMag] *)

Section PeakEstimator.

(** libm's [log10] and [pow]. *)
Variable log10 : double -> double.
Variable pow : double -> double -> double.

(** [sqrt((double)vReal[i] * vReal[i] + (double)vImag[i] * vImag[i])] *)
Definition bin_mag (vReal vImag : list double) (i : Z) : double :=
  let re := vReal !!! Z.to_nat i in
  let im := vImag !!! Z.to_nat i in
  PrimFloat.sqrt (re * re + im * im)%float.

(** One iteration of the maximum search; the accumulator is
    [(maxY, IndexOfMaxY)]. *)
Definition scan_step (vReal vImag : list double) (acc : double * Z) (i : Z)
  : double * Z :=
  let mag := bin_mag vReal vImag i in
  if (fst acc <? mag)%float then (mag, i) else acc.

(** [for (i = 1; i < half - 1; i++)], started from [maxY = 0.0],
    [IndexOfMaxY = 0]. *)
Definition scan_max (vReal vImag : list double) (half : Z) : double * Z :=
  fold_left (scan_step vReal vImag) (seqZ 1 (half - 1 - 1)) (0%float, 0).

(** The uninterpolated result: bin-center frequency and a magnitude. *)
Definition raw_bin (IndexOfMaxY samples : Z) (samplingFrequency mag : double)
  : double * double :=
  ((double_of_Z IndexOfMaxY * samplingFrequency / double_of_Z samples)%float,
   mag).

(** [denom] and [delta] of the interpolation; [1e-12] is the double
    [0x1.19799812dea11p-40]. *)
Definition peak_denom (db1 db db2 : double) : double :=
  (2 * (db1 + db2 - 2 * db))%float.

Definition peak_delta (db1 db db2 : double) : double :=
  let denom := peak_denom db1 db db2 in
  if (0x1.19799812dea11p-40 <? PrimFloat.abs denom)%float
  then ((db1 - db2) / denom)%float
  else 0%float.

(** The parabolic interpolation in the log10 domain around [IndexOfMaxY]. *)
Definition parabola_db (IndexOfMaxY samples : Z) (samplingFrequency : double)
  (m1 m m2 : double) : double * double :=
  let db1 := log10 m1 in
  let db := log10 m in
  let db2 := log10 m2 in
  let delta := peak_delta db1 db db2 in
  let preciseIndex := (double_of_Z IndexOfMaxY + delta)%float in
  let precise_db := (db + ((db1 - db2) * delta / 2))%float in
  let precise_m := pow 10%float precise_db in
  ((preciseIndex * samplingFrequency / double_of_Z samples)%float, precise_m).

(** Returns [(frequency, *outPeakMag)]. *)
Definition majorPeakParabolaDbWithMag (vReal vImag : list double)
  (samples : Z) (samplingFrequency : double) : double * double :=
  let half := Z.shiftr samples 1 in
  let '(maxY, IndexOfMaxY) := scan_max vReal vImag half in
  if (IndexOfMaxY <? 1) || (half - 1 <=? IndexOfMaxY) then
    raw_bin IndexOfMaxY samples samplingFrequency maxY
  else
    let m1 := bin_mag vReal vImag (IndexOfMaxY - 1) in
    let m := maxY in
    let m2 := bin_mag vReal vImag (IndexOfMaxY + 1) in
    if (m1 <=? 0)%float || (m <=? 0)%float || (m2 <=? 0)%float then
      raw_bin IndexOfMaxY samples samplingFrequency m
    else
      parabola_db IndexOfMaxY samples samplingFrequency m1 m m2.

End PeakEstimator.

(** ** AdaptivePeakFilter: [median_of_copy], [update_*_peak_filter] *)

(** The four globals of one filter: [*_peak_buf], [*_buf_count],
    [*_buf_idx], [*_ema]. *)
Record peak_filter : Type := PeakFilter {
  peak_buf : list double;
  buf_count : Z;
  buf_idx : Z;
  ema : double
}.

(** The inner [while (j >= 0 && tmp[j] > key)] loop of the insertion sort,
    followed by [tmp[j + 1] = key]; [k] is [j + 1]. *)
Fixpoint sort_shift (key : double) (k : nat) (tmp : list double)
  : list double :=
  match k with
  | O => <[O := key]> tmp
  | S j =>
      if (key <? tmp !!! j)%float
      then sort_shift key j (<[S j := tmp !!! j]> tmp)
      else <[S j := key]> tmp
  end.

(** [for (i = 1; i < n; ++i) { key = tmp[i]; j = i - 1; ... }] *)
Definition insertion_sort (tmp : list double) (n : nat) : list double :=
  fold_left (fun t i => sort_shift (t !!! i) i t) (seq 1 (n - 1)) tmp.

(** [tmp] has 21 slots; only the first [n] are copied, sorted and read. The
    clamp compares [n] with [(int)sizeof(tmp) / sizeof(tmp[0])], an unsigned
    21, so a negative [n] is clamped as well. *)
Definition median_of_copy (buffer : list double) (n : Z) : double :=
  let n := if (21 <? n) || (n <? 0) then 21 else n in
  let tmp := take (Z.to_nat n) buffer in
  let tmp := insertion_sort tmp (Z.to_nat n) in
  tmp !!! Z.to_nat (Z.quot n 2).

(** The body shared by [update_short_peak_filter] and
    [update_long_peak_filter], which differ only in their constants. *)
Definition update_peak_filter (MEDIAN_N : Z) (ALPHA THRESHOLD : double)
  (f : peak_filter) (newVal mag : double) : peak_filter * double :=
  if (mag <? THRESHOLD)%float then
    let e := (ema f * (1 - ALPHA) + ema f * ALPHA)%float in
    (PeakFilter (peak_buf f) (buf_count f) (buf_idx f) e, e)
  else
    let buf := <[Z.to_nat (buf_idx f) := newVal]> (peak_buf f) in
    let idx := Z.rem (buf_idx f + 1) MEDIAN_N in
    let count :=
      if buf_count f <? MEDIAN_N then buf_count f + 1 else buf_count f in
    let median := median_of_copy buf count in
    let e0 :=
      if (count =? 1) && (ema f =? 0)%float then median else ema f in
    let e := (ALPHA * median + (1 - ALPHA) * e0)%float in
    (PeakFilter buf count idx e, e).

Definition update_short_peak_filter :=
  update_peak_filter SHORT_MEDIAN_N EMA_ALPHA_SHORT MAG_THRESHOLD_SHORT.

Definition update_long_peak_filter :=
  update_peak_filter LONG_MEDIAN_N EMA_ALPHA_LONG MAG_THRESHOLD_LONG.

(** The zero-initialised globals of a filter with [n] median slots. *)
Definition filter_init (n : Z) : peak_filter :=
  PeakFilter (replicate (Z.to_nat n) 0%float) 0 0 0%float.

Definition short_filter_init : peak_filter := filter_init SHORT_MEDIAN_N.

Definition long_filter_init : peak_filter := filter_init LONG_MEDIAN_N.

(** ** HistoryVotingDetector: [countSetBits], [detectFrequency] *)

Open Scope N_scope.

(** [while (n) { count += n & 1; n >>= 1; }] *)
Equations countSetBits_loop (n count : N) : N by wf (N.to_nat n) lt :=
  countSetBits_loop n count with N.eq_dec n 0 := {
    | left _ => count
    | right _ =>
        countSetBits_loop (N.shiftr n 1) (wrap32 (count + N.land n 1)) }.
Next Obligation.
  assert (N.shiftr n 1 < n); [|lia].
  rewrite N.shiftr_div_pow2. apply N.div_lt; lia.
Qed.

Definition countSetBits (n : N) : N := countSetBits_loop n 0.

Definition freq_match (peak_freq target_freq tol : double) : bool :=
  (PrimFloat.abs (peak_freq - target_freq) <=? tol)%float.

(** Returns [( *mem after the call, result)]. *)
Definition detectFrequency (mem minMatch : N)
  (peak_freq target_freq tol : double) (history_mask : N) : N * bool :=
  let mem1 := wrap32 (N.shiftl mem 1) in
  let mem2 := N.land mem1 history_mask in
  let mem3 :=
    if freq_match peak_freq target_freq tol then N.lor mem2 1 else mem2 in
  (mem3, minMatch <=? countSetBits mem3).

(** The two call sites of [loop2]. *)
Definition detect_short (mem : N) (smoothed : double) : N * bool :=
  detectFrequency mem 15 smoothed 3100%float 11%float 0xFFFFFFFF.

Definition detect_long (mem : N) (smoothed : double) : N * bool :=
  detectFrequency mem 8 smoothed 3100%float 3%float 0xFFFF.

Close Scope N_scope.

(** ** MetricsChannel: the FreeRTOS queue of length 1 and [handleMetrics] *)

Record Metrics : Type := mkMetrics {
  peakHzShort : double;
  peakHzLong : double;
  fireAlarmDetected : bool;
  fireShortDetected : bool;
  fireLongDetected : bool
}.

(** The queue functions belong to FreeRTOS, not to the sketch. A queue made
    by [xQueueCreate(1, sizeof(Metrics))] is modelled by the items it holds,
    oldest first; at most one. *)
Definition queue : Type := list Metrics.

Definition xQueueCreate : queue := [].

(** Modelled from the spec: [xQueueOverwrite] is FreeRTOS code, absent from
    the sketch. "[publish(snapshot)] always replaces the current slot
    content, never blocks, never queues" (which is also what FreeRTOS
    documents for a queue of length 1). *)
Definition xQueueOverwrite (q : queue) (item : Metrics) : queue := [item].

(** Modelled from the spec: [xQueuePeek] is FreeRTOS code, absent from the
    sketch. "[peekLatest()] returns the most recent snapshot without
    removing it; returns no data" on an empty slot (FreeRTOS: with a zero
    timeout, a copy of the front item and [pdTRUE], or [pdFALSE]). *)
Definition xQueuePeek (q : queue) : option Metrics := head q.

Inductive json_value : Type :=
| JFloat (x : double)
| JBool (b : bool).

(** [server.send(code, content_type, body)]; the body is the JSON document
    before serialisation, or [{}]. *)
Record http_response : Type := mkResponse {
  status_code : Z;
  content_type : string;
  body : list (string * json_value)
}.

(** The global [metricsQueue]: [NULL] until [setup] has created the queue. *)
Definition QueueHandle_t : Type := option queue.

(** [if (metricsQueue != NULL && xQueuePeek(metricsQueue, &metrics, 0))];
    returns the response sent and the queue handle after the call. *)
Definition handleMetrics (metricsQueue : QueueHandle_t)
  : http_response * QueueHandle_t :=
  match metricsQueue with
  | None => (mkResponse 204 "application/json" [], None)
  | Some q =>
      match xQueuePeek q with
      | Some metrics =>
          (mkResponse 200 "application/json"
             [("peakHzShort"%string, JFloat (peakHzShort metrics));
              ("peakHzLong"%string, JFloat (peakHzLong metrics));
              ("fireAlarmDetected"%string, JBool (fireAlarmDetected metrics));
              ("fireShortDetected"%string, JBool (fireShortDetected metrics));
              ("fireLongDetected"%string, JBool (fireLongDetected metrics))],
           Some q)
      | None => (mkResponse 204 "application/json" [], Some q)
      end
  end.

(** ** ProducerOrchestrator: [loop2] *)

(** [vReal[i] = (integer[i] >> 16) / 10.0; vImag[i] = 0.0;] *)
Definition integerToFloat (integer : list Z) (samples : Z)
  : list double * list double :=
  (map (fun x => float_of_double (double_of_Z (Z.shiftr x 16) / 10)%float)
       (take (Z.to_nat samples) integer),
   replicate (Z.to_nat samples) 0%float).

(** The globals of the sketch that [loop2] reads and writes, the [metrics]
    local of [loop2], and the queue behind the handle [metricsQueue], which
    [setup] creates before it starts the tasks. *)
Record state : Type := mkState {
  long_buffer : list Z;
  long_idx : N;
  short_filter : peak_filter;
  long_filter : peak_filter;
  fireAlarm : N;
  fireAlarmLong : N;
  last : N;
  metrics : Metrics;
  metricsQueue : queue
}.

(** What one iteration of [while (1)] observes from outside: the two readings
    of [micros()], and the outcome of [i2s_read]: whether it returned
    [ESP_OK], [num_bytes_read], and the contents of [samples] after the
    call. *)
Record loop_input : Type := mkInput {
  micros_check : N;
  micros_start : N;
  err_ok : bool;
  num_bytes_read : N;
  samples : list Z
}.

(** The state when [loop2] enters its loop: zero-initialised globals,
    [metrics = {0, 0, false, false, false}], [last = micros()], and the empty
    queue made by [setup]. *)
Definition loop2_init (now : N) : state :=
  mkState (replicate (Z.to_nat LONG_SAMPLES) 0) 0%N
    short_filter_init long_filter_init 0%N 0%N now
    (mkMetrics 0%float 0%float false false false) xQueueCreate.

(** [if (long_idx < LONG_SAMPLES) long_buffer[long_idx++] = samples[i];] *)
Definition accumulate_step (acc : list Z * N) (s : Z) : list Z * N :=
  let '(buf, idx) := acc in
  if (Z.of_N idx <? LONG_SAMPLES)
  then (<[N.to_nat idx := s]> buf, wrap32 (idx + 1))
  else (buf, idx).

(** [for (int i = 0; i < BLOCK_SIZE; i++)] over the [samples] array. *)
Definition accumulate (buf : list Z) (idx : N) (block : list Z) : list Z * N :=
  fold_left accumulate_step (take (Z.to_nat BLOCK_SIZE) block) (buf, idx).

(** The samples of one block that find the long buffer full and are not
    stored: the iterations whose [if] fails. *)
Fixpoint dropped_samples (idx : N) (block : list Z) : nat :=
  match block with
  | [] => O
  | _ :: rest =>
      if (Z.of_N idx <? LONG_SAMPLES)
      then dropped_samples (wrap32 (idx + 1)) rest
      else S (dropped_samples idx rest)
  end.

Section Producer.

Variable log10 : double -> double.
Variable pow : double -> double -> double.
(** ArduinoFFT: [windowing(FFT_WIN_TYP_HANN, FFT_FORWARD)] on the real array
    and [compute(FFT_FORWARD)] on the pair of arrays. *)
Variable fft_windowing : list double -> list double.
Variable fft_compute : list double * list double -> list double * list double.

(** Transform of one window and its peak estimate. *)
Definition window_peak (integer : list Z) (n : Z) : double * double :=
  let '(vReal, vImag) := integerToFloat integer n in
  let '(vReal, vImag) := fft_compute (fft_windowing vReal, vImag) in
  majorPeakParabolaDbWithMag log10 pow vReal vImag n SAMPLE_RATE.

(** Short window processing. *)
Definition short_window (st : state) (block : list Z) : state :=
  let '(peak_freq_raw, peakMagShort) := window_peak block SAMPLES in
  let '(f, peak_freq_short_smoothed) :=
    update_short_peak_filter (short_filter st) peak_freq_raw peakMagShort in
  let '(mem, fire_short_det) :=
    detect_short (fireAlarm st) peak_freq_short_smoothed in
  let m := metrics st in
  mkState (long_buffer st) (long_idx st) f (long_filter st) mem
    (fireAlarmLong st) (last st)
    (mkMetrics (float_of_double peak_freq_short_smoothed) (peakHzLong m)
       (fireAlarmDetected m) fire_short_det (fireLongDetected m))
    (metricsQueue st).

(** The body of [if (long_idx >= LONG_SAMPLES)]. *)
Definition long_window (st : state) : state :=
  let '(long_peak_freq_raw, peakMagLong) :=
    window_peak (long_buffer st) LONG_SAMPLES in
  let '(f, long_peak_freq_smoothed) :=
    update_long_peak_filter (long_filter st) long_peak_freq_raw peakMagLong in
  let '(mem, fire_long_det) :=
    detect_long (fireAlarmLong st) long_peak_freq_smoothed in
  let m := metrics st in
  mkState (long_buffer st) 0%N (short_filter st) f (fireAlarm st) mem
    (last st)
    (mkMetrics (peakHzShort m) (float_of_double long_peak_freq_smoothed)
       (fireAlarmDetected m) (fireShortDetected m) fire_long_det)
    (metricsQueue st).

Definition long_ready (st : state) : bool :=
  LONG_SAMPLES <=? Z.of_N (long_idx st).

(** [metrics.fireAlarmDetected = ...;] and
    [xQueueOverwrite(metricsQueue, &metrics);] *)
Definition publish (st : state) : state :=
  let m := metrics st in
  let m' :=
    mkMetrics (peakHzShort m) (peakHzLong m)
      (fireShortDetected m || fireLongDetected m)
      (fireShortDetected m) (fireLongDetected m) in
  mkState (long_buffer st) (long_idx st) (short_filter st) (long_filter st)
    (fireAlarm st) (fireAlarmLong st) (last st) m'
    (xQueueOverwrite (metricsQueue st) m').

Definition store_block (st : state) (block : list Z) : state :=
  let '(buf, idx) := accumulate (long_buffer st) (long_idx st) block in
  mkState buf idx (short_filter st) (long_filter st) (fireAlarm st)
    (fireAlarmLong st) (last st) (metrics st) (metricsQueue st).

Definition set_last (st : state) (now : N) : state :=
  mkState (long_buffer st) (long_idx st) (short_filter st) (long_filter st)
    (fireAlarm st) (fireAlarmLong st) now (metrics st) (metricsQueue st).

(** The pacing test [micros() - last < 45200] on [unsigned long]. *)
Definition not_due (st : state) (inp : loop_input) : bool :=
  (usub32 (micros_check inp) (last st) <? 45200)%N.

(** [err != ESP_OK || num_bytes_read == 0] *)
Definition read_failed (inp : loop_input) : bool :=
  negb (err_ok inp) || (num_bytes_read inp =? 0)%N.

(** The part of an iteration after a successful read. *)
Definition process_block (st : state) (block : list Z) : state :=
  let st := store_block st block in
  let st := short_window st block in
  let st := if long_ready st then long_window st else st in
  publish st.

(** One iteration of [while (1)]. The sketch has no [throw]; the [catch]
    clause is not modelled. Serial output is not modelled. *)
Definition loop2_iter (st : state) (inp : loop_input) : state :=
  if not_due st inp then st
  else
    let st := set_last st (micros_start inp) in
    if read_failed inp then st
    else process_block st (samples inp).

Definition loop2_run (st : state) (inputs : list loop_input) : state :=
  fold_left loop2_iter inputs st.

(** An iteration that reads a block and processes it. *)
Definition delivers (st : state) (inp : loop_input) : bool :=
  negb (not_due st inp) && negb (read_failed inp).

(** An iteration in which the long-window pipeline runs. *)
Definition long_window_runs (st : state) (inp : loop_input) : bool :=
  delivers st inp &&
  long_ready
    (short_window (store_block (set_last st (micros_start inp)) (samples inp))
       (samples inp)).

(** Blocks processed, and long-window computations made, along a run. *)
Fixpoint blocks_delivered (st : state) (inputs : list loop_input) : nat :=
  match inputs with
  | [] => O
  | inp :: rest =>
      ((if delivers st inp then 1 else 0)
       + blocks_delivered (loop2_iter st inp) rest)%nat
  end.

Fixpoint long_computations (st : state) (inputs : list loop_input) : nat :=
  match inputs with
  | [] => O
  | inp :: rest =>
      ((if long_window_runs st inp then 1 else 0)
       + long_computations (loop2_iter st inp) rest)%nat
  end.

End Producer.

(** ** Stand-ins for the external functions

    Used to run the model on concrete inputs. [log10_tab] and [pow_tab] agree
    with libm on the arguments they tabulate (newlib's [log10] is exact on
    powers of ten, and [pow(10, n)] is exact for these small integers [n]);
    elsewhere they return NaN. The transform stand-in leaves its arrays as
    they are. *)

Definition log10_tab (x : double) : double :=
  if (x =? 1)%float then 0%float
  else if (x =? 10)%float then 1%float
  else if (x =? 100)%float then 2%float
  else nan.

Definition pow_tab (b e : double) : double :=
  if (b =? 10)%float then
    if (e =? 0)%float then 1%float
    else if (e =? 1)%float then 10%float
    else if (e =? 2)%float then 100%float
    else nan
  else nan.

Definition fft_windowing_id (vReal : list double) : list double := vReal.

Definition fft_compute_id (v : list double * list double)
  : list double * list double := v.

(** ** Concrete inputs *)

(** A frame of 16 bins whose largest magnitude is 100 at [k], between
    magnitudes 1 at [k - 1] and 10 at [k + 1]. *)
Definition peak_frame (k : nat) : list double :=
  <[Nat.pred k := 1%float]> (<[k := 100%float]> (<[S k := 10%float]>
    (replicate 16 0%float))).

(** ** Reference notions for the history register *)

(** Number of set bits of a binary number. *)
Fixpoint pos_popcount (p : positive) : N :=
  match p with
  | xH => 1
  | xO q => pos_popcount q
  | xI q => 1 + pos_popcount q
  end%N.

Definition popcount (n : N) : N :=
  match n with
  | N0 => 0%N
  | Npos p => pos_popcount p
  end.

(** A register as the list of its bits, newest vote (bit 0) first. *)
Fixpoint from_bits (l : list bool) : N :=
  match l with
  | [] => 0
  | b :: r => N.b2n b + 2 * from_bits r
  end%N.

Fixpoint to_bits (k : nat) (n : N) : list bool :=
  match k with
  | O => []
  | S j => N.odd n :: to_bits j (N.div2 n)
  end.

Fixpoint count_true (l : list bool) : N :=
  match l with
  | [] => 0
  | b :: r => N.b2n b + count_true r
  end%N.

(** A detector fed a sequence of smoothed frequencies, oldest first: the
    register and the result of the last call. *)
Definition detect_run (detect : N -> double -> N * bool) (mem : N)
  (freqs : list double) : N * bool :=
  fold_left (fun acc f => detect (fst acc) f) freqs (mem, false).

(** Matching observations among the last [W] of a sequence. *)
Definition window_matches (W : nat) (target tol : double)
  (freqs : list double) : N :=
  count_true
    (map (fun f => freq_match f target tol) (drop (length freqs - W) freqs)).

(** Thirty-two observations for the short-window detector, oldest first:
    four misses, then fourteen times a miss followed by a hit at 3100 Hz. *)
Definition fourteen_hits : list double :=
  replicate 4 0%float
  ++ concat (replicate 14 [0%float; 3100%float]).

(** ** Reference notions for the filters *)

(** The gated recomputation [ema * (1 - ALPHA) + ema * ALPHA] and the EMA
    update [ALPHA * median + (1 - ALPHA) * ema], in double arithmetic. *)
Definition gate_value (ALPHA e : double) : double :=
  (e * (1 - ALPHA) + e * ALPHA)%float.

Definition blend (ALPHA median e : double) : double :=
  (ALPHA * median + (1 - ALPHA) * e)%float.

(** The smoothed outputs for a constant input [v] once the EMA has been set
    to [v]: call [k] (from 0) returns [ema_steady ALPHA v k]. *)
Fixpoint ema_steady (ALPHA v : double) (k : nat) : double :=
  match k with
  | O => blend ALPHA v v
  | S j => blend ALPHA v (ema_steady ALPHA v j)
  end.

(** A filter fed a sequence of [(rawFreq, rawMag)] calls: the state after
    each call and the value the call returned. *)
Fixpoint filter_trace
  (update : peak_filter -> double -> double -> peak_filter * double)
  (f : peak_filter) (calls : list (double * double))
  : list (peak_filter * double) :=
  match calls with
  | [] => []
  | c :: rest =>
      let r := update f (fst c) (snd c) in
      r :: filter_trace update (fst r) rest
  end.

(** A filter of [n] slots whose filled slots all hold [v]. While the buffer
    is not full the write index is the fill count. *)
Definition filled_with (n : Z) (v : double) (f : peak_filter) : Prop :=
  length (peak_buf f) = Z.to_nat n
  /\ 0 <= buf_count f <= n
  /\ 0 <= buf_idx f < n
  /\ (buf_count f < n -> buf_idx f = buf_count f)
  /\ forall i : nat,
       (i < Z.to_nat (buf_count f))%nat -> peak_buf f !! i = Some v.

(** The frame of the symmetric-peak test: 1024 bins, magnitude 100 at bin
    140 between magnitudes 10 at bins 139 and 141. *)
Definition symmetric_frame : list double :=
  <[139%nat := 10%float]> (<[140%nat := 100%float]> (<[141%nat := 10%float]>
    (replicate 1024 0%float))).

(** ** Reference notions for the producer loop *)

(** The [samples] array has [BLOCK_SIZE] entries. *)
Definition block_ok (inp : loop_input) : Prop :=
  length (samples inp) = Z.to_nat BLOCK_SIZE.

(** The queue holds the last snapshot written, which is the [metrics] local;
    before the first write, [metrics] is as initialised. *)
Definition snapshot_inv (st : state) : Prop :=
  match metricsQueue st with
  | [] => metrics st = mkMetrics 0%float 0%float false false false
  | m :: rest =>
      rest = [] /\ m = metrics st
      /\ fireAlarmDetected m = fireShortDetected m || fireLongDetected m
  end.

(** Inputs for concrete runs: iteration [k] is due at [50000 * k] us and
    reads a full block of the constant sample [x]; a failed read; an
    iteration that comes too early. *)
Definition good_input (k : N) (x : Z) : loop_input :=
  mkInput (50000 * k) (50000 * k) true 4096
    (replicate (Z.to_nat BLOCK_SIZE) x).

Definition failed_input (k : N) : loop_input :=
  mkInput (50000 * k) (50000 * k) false 0
    (replicate (Z.to_nat BLOCK_SIZE) 0).

Definition early_input (now : N) : loop_input :=
  mkInput now now true 4096 (replicate (Z.to_nat BLOCK_SIZE) 7).


(** ** Reference notions for the further properties *)

(** No element of the list is followed by a smaller one. *)
Fixpoint ascending (l : list double) : bool :=
  match l with
  | a :: r =>
      match r with
      | b :: _ => negb (b <? a)%float && ascending r
      | [] => true
      end
  | [] => true
  end.

(** Number of entries of a list that pass a test. *)
Fixpoint count_where (P : double -> bool) (l : list double) : nat :=
  match l with
  | [] => O
  | x :: r => ((if P x then 1 else 0) + count_where P r)%nat
  end.

(** The state of a filter after a sequence of [(rawFreq, rawMag)] calls. *)
Definition filter_run
  (update : peak_filter -> double -> double -> peak_filter * double)
  (f : peak_filter) (calls : list (double * double)) : peak_filter :=
  fold_left (fun f c => fst (update f (fst c) (snd c))) calls f.

(** The frequencies of the calls that pass the magnitude gate, oldest
    first. *)
Definition accepted (THRESHOLD : double) (calls : list (double * double))
  : list double :=
  map fst (List.filter (fun c => negb (snd c <? THRESHOLD)%float) calls).

(** The buffer of a filter with [MEDIAN_N] slots whose accepted calls so far
    were [acc]: fill count and write index follow the number of accepted
    calls, each of the last [MEDIAN_N] accepted samples sits in the slot of
    its number modulo [MEDIAN_N], and the filled slots hold those samples. *)
Definition ring_inv (MEDIAN_N : Z) (f : peak_filter) (acc : list double)
  : Prop :=
  let n := Z.to_nat MEDIAN_N in
  length (peak_buf f) = n
  /\ buf_count f = Z.of_nat (Nat.min (length acc) n)
  /\ buf_idx f = Z.of_nat (length acc mod n)
  /\ (forall j : nat,
        (length acc - n <= j < length acc)%nat ->
        peak_buf f !! (j mod n)%nat = acc !! j)
  /\ Permutation (take (Nat.min (length acc) n) (peak_buf f))
       (drop (length acc - n) acc).

(** The snapshot that the filters and history registers of a state stand
    for: the narrowed EMAs and the votes of the two registers. *)
Definition metrics_of_state (st : state) : Metrics :=
  mkMetrics
    (float_of_double (ema (short_filter st)))
    (float_of_double (ema (long_filter st)))
    ((15 <=? countSetBits (fireAlarm st))%N
     || (8 <=? countSetBits (fireAlarmLong st))%N)
    (15 <=? countSetBits (fireAlarm st))%N
    (8 <=? countSetBits (fireAlarmLong st))%N.

(** The blocks processed along a run, oldest first. *)
Fixpoint delivered_blocks
  (iter : state -> loop_input -> state) (st : state)
  (inputs : list loop_input) : list (list Z) :=
  match inputs with
  | [] => []
  | inp :: rest =>
      (if delivers st inp then [samples inp] else [])
      ++ delivered_blocks iter (iter st inp) rest
  end.

(** Block [s] (from 0) of the long buffer. *)
Definition buffer_slot (buf : list Z) (s : nat) : list Z :=
  take (Z.to_nat BLOCK_SIZE) (drop (Z.to_nat BLOCK_SIZE * s) buf).

(** The [metrics] local agrees with the state, and the history registers
    are in range. *)
Definition mirror_inv (st : state) : Prop :=
  metrics st = metrics_of_state st
  /\ (fireAlarm st < 2 ^ 32)%N /\ (fireAlarmLong st < 2 ^ 16)%N.

(** The long buffer after the blocks [D] have been processed: the index is
    block-aligned, and each of the last four blocks sits in the slot of its
    number modulo 4. *)
Definition slots_inv (st : state) (D : list (list Z)) : Prop :=
  length (long_buffer st) = (Z.to_nat BLOCK_SIZE * 4)%nat
  /\ Z.of_N (long_idx st) = BLOCK_SIZE * Z.of_nat (length D mod 4)
  /\ forall j : nat,
       (length D - 4 <= j < length D)%nat ->
       D !! j = Some (buffer_slot (long_buffer st) (j mod 4)).

(** The smoothed frequencies handed to the two detectors along a run, oldest
    first: one for every processed block, and one for every iteration in
    which the long-window pipeline runs. *)
Fixpoint short_observations
  (iter : state -> loop_input -> state) (st : state)
  (inputs : list loop_input) : list double :=
  match inputs with
  | [] => []
  | inp :: rest =>
      (if delivers st inp then [ema (short_filter (iter st inp))] else [])
      ++ short_observations iter (iter st inp) rest
  end.

Fixpoint long_observations
  (iter : state -> loop_input -> state)
  (runs : state -> loop_input -> bool) (st : state)
  (inputs : list loop_input) : list double :=
  match inputs with
  | [] => []
  | inp :: rest =>
      (if runs st inp then [ema (long_filter (iter st inp))] else [])
      ++ long_observations iter runs (iter st inp) rest
  end.

(** Transform stand-ins for concrete runs, which report a fixed spectrum
    whatever samples they are given: a tone in bin 140 (magnitude 100
    between two bins of magnitude 10), and no signal at all. *)
Definition tone_spectrum : list double :=
  <[139%nat := 10%float]> (<[140%nat := 100%float]> (<[141%nat := 10%float]>
    (replicate 142 0%float))).

Definition fft_compute_tone (_ : list double * list double)
  : list double * list double := (tone_spectrum, []).

Definition fft_compute_silent (_ : list double * list double)
  : list double * list double := ([], []).

(** [n] due iterations, 50 ms apart, each reading a full block. *)
Definition due_inputs (n : nat) : list loop_input :=
  map (fun k : nat => good_input (N.of_nat k) 0) (seq 1 n).

(** All entries of [l] pass [p], and there are at least [n] of them. *)
Definition all_and_count (p : double -> bool) (n : nat) (l : list double)
  : bool :=
  forallb p l && (n <=? length l)%nat.

(** The value [integerToFloat] stores for a sample whose upper half-word is
    [t], and the facts checked of it: it is finite, between -3277 and 3277,
    and zero exactly for [t = 0]. *)
Definition half_word_value (t : Z) : double :=
  float_of_double (double_of_Z t / 10)%float.

Definition half_word_ok (t : Z) : bool :=
  let v := half_word_value t in
  is_finite v && (-3277 <=? v)%float && (v <=? 3277)%float
  && Bool.eqb (v =? 0)%float (t =? 0).

(** [half_word_ok] on the [n] values from [t] on. *)
Fixpoint range_ok (n : nat) (t : Z) : bool :=
  match n with
  | O => true
  | S n => half_word_ok t && range_ok n (t + 1)
  end.


(** ** Real values of doubles, for the tolerance of the smoothed output *)

(** Powers of two as reals. *)
Definition pow2 (e : Z) : R := powerRZ 2 e.

(** The magnitude and the value of a finite double; 0 for the others. *)
Definition Fmag (x : double) : R :=
  match Prim2SF x with
  | S754_finite _ m e => IZR (Zpos m) * pow2 e
  | _ => 0
  end.

Definition F2R (x : double) : R :=
  match Prim2SF x with
  | S754_finite s m e => (if s then -1 else 1) * (IZR (Zpos m) * pow2 e)
  | _ => 0
  end.

(** A normal double of sign [s] and exponent [e]: a 53-bit mantissa. *)
Definition normal (s : bool) (x : double) (e : Z) : Prop :=
  exists m : positive,
    Prim2SF x = S754_finite s m e /\ 2 ^ 52 <= Zpos m < 2 ^ 53.

(** The record after [k] right shifts of [M]: quotient, round bit and
    sticky bit. *)
Definition shifted (M : Z) (k : nat) (mrs : shr_record) : Prop :=
  0 <= shr_m mrs
  /\ exists t : Z,
       2 * M = shr_m mrs * 2 ^ (Z.of_nat k + 1)
               + Z.b2z (shr_r mrs) * 2 ^ Z.of_nat k + t
       /\ 0 <= t < 2 ^ Z.of_nat k
       /\ (shr_s mrs = true <-> 0 < t).

(** Half a unit in the last place, relative: [2 ^ -53]. *)
Definition half_ulp : R := (/ 9007199254740992)%R.

(** The tolerance of the smoothed output, relative: [2 ^ -49]. *)
Definition tolerance : R := (/ 562949953421312)%R.

(** A normal double of either sign with a magnitude from [2 ^ -948] up to,
    not including, [2 ^ 953]. *)
Definition normal_in_range (x : double) : bool :=
  match Prim2SF x with
  | S754_finite _ m e =>
      (Zpos (digits2_pos m) =? 53) && (-1000 <=? e) && (e <=? 900)
  | _ => false
  end.

(** [o] is finite and within the relative [tolerance] of [v]. *)
Definition within_tolerance (v o : double) : Prop :=
  is_finite o = true
  /\ (Rabs (F2R o - F2R v) <= tolerance * Rabs (F2R v))%R.

(** ** A frame and libm values for the magnitude of a symmetric peak *)

(** The frame of the symmetric-peak test with magnitude 3000 at bin 140,
    between magnitudes 10 at bins 139 and 141. *)
Definition symmetric_frame_3000 : list double :=
  <[139%nat := 10%float]> (<[140%nat := 3000%float]> (<[141%nat := 10%float]>
    (replicate 1024 0%float))).

(** [log10_tab] and [pow_tab] with the correctly rounded values of
    [log10(3000)], which is 3.4771212547196626, and of
    [pow(10, 3.4771212547196626)], which is 3000.0000000000014: ten to the
    double nearest [log10(3000)] lies 2.5 units in the last place above
    3000. *)
Definition log10_tab_3000 (x : double) : double :=
  if (x =? 3000)%float then 0x1.bd124f2c9fac0p+1%float else log10_tab x.

Definition pow_tab_3000 (b e : double) : double :=
  if (b =? 10)%float && (e =? 0x1.bd124f2c9fac0p+1)%float
  then 0x1.7700000000003p+11%float
  else pow_tab b e.

(** * Properties *)

(** ** Facts on binary64 arithmetic *)

Lemma SFcompare_refl (x : spec_float) :
  SFcompare x x = None \/ SFcompare x x = Some Eq.
Proof.
  destruct x as [s|s| |s m e]; simpl; auto.
  - destruct s; auto.
  - rewrite Z.compare_refl, Pos.compare_cont_refl. destruct s; auto.
Qed.

Lemma ltb_irrefl (x : float) : (x <? x)%float = false.
Proof.
  rewrite FloatAxioms.ltb_spec. unfold SFltb.
  destruct (SFcompare_refl (Prim2SF x)) as [-> | ->]; reflexivity.
Qed.

(** The literal [1e-12] of the sketch is the double used by [peak_delta]. *)
Example denom_guard_literal : 0x1.19799812dea11p-40%float = 1e-12%float.
Proof. reflexivity. Qed.

Example EMA_ALPHA_SHORT_value :
  EMA_ALPHA_SHORT
  = (PrimFloat.of_uint63 13421773 / PrimFloat.of_uint63 33554432)%float
  /\ EMA_ALPHA_SHORT = float_of_double 0.4%float.
Proof. split; reflexivity. Qed.

Lemma is_finite_SF (x : float) :
  is_finite x = true ->
  match Prim2SF x with
  | S754_zero _ | S754_finite _ _ _ => True
  | _ => False
  end.
Proof.
  unfold is_finite, is_nan, is_infinity.
  rewrite !FloatAxioms.eqb_spec, FloatAxioms.abs_spec.
  change (Prim2SF infinity) with (S754_infinity false).
  destruct (Prim2SF x) as [s|[]| |s m e]; cbn; easy.
Qed.

(** [d - d] is [+0] for a finite [d]. *)
Lemma sub_diag_finite (d : float) :
  is_finite d = true -> (d - d)%float = 0%float.
Proof.
  intros H. apply is_finite_SF in H. apply Prim2SF_inj.
  rewrite FloatAxioms.sub_spec. change (Prim2SF 0) with (S754_zero false).
  destruct (Prim2SF d) as [s|s| |s m e]; try contradiction.
  - destruct s; reflexivity.
  - unfold SF64sub, SFsub. rewrite Z.sub_diag. reflexivity.
Qed.

Lemma SF_zero_cases (x : float) (s : bool) :
  Prim2SF x = S754_zero s -> x = 0%float \/ x = (-0)%float.
Proof.
  intros H. destruct s; [right|left]; apply Prim2SF_inj; rewrite H;
    reflexivity.
Qed.

(** [0 / y] is a zero when [|y|] exceeds a positive bound. *)
Lemma zero_div_guarded (y : float) :
  (0x1.19799812dea11p-40 <? abs y)%float = true ->
  (0 / y = 0 \/ 0 / y = -0)%float.
Proof.
  rewrite FloatAxioms.ltb_spec, FloatAxioms.abs_spec. intros H.
  assert (E : exists s, Prim2SF (0 / y) = S754_zero s).
  { rewrite FloatAxioms.div_spec. change (Prim2SF 0) with (S754_zero false).
    remember (Prim2SF 0x1.19799812dea11p-40) as c eqn:Ec.
    vm_compute in Ec. subst c.
    destruct (Prim2SF y) as [s|s| |s m e]; cbn in H; try discriminate;
      cbn; eauto. }
  destruct E as [s E]. exact (SF_zero_cases _ s E).
Qed.

Lemma add_neg_zero_r (x : float) : (x + -0)%float = x.
Proof.
  apply Prim2SF_inj. rewrite FloatAxioms.add_spec.
  change (Prim2SF (-0)) with (S754_zero true).
  destruct (Prim2SF x) as [[]|[]| |s m e]; reflexivity.
Qed.

Lemma add_zero_r (x : float) :
  Prim2SF x <> S754_zero true -> (x + 0)%float = x.
Proof.
  intros H. apply Prim2SF_inj. rewrite FloatAxioms.add_spec.
  change (Prim2SF 0) with (S754_zero false).
  destruct (Prim2SF x) as [[]|[]| |s m e]; try reflexivity. now destruct H.
Qed.

Lemma binary_round_aux_not_neg_zero (mx ex : Z) (lx : location) :
  binary_round_aux prec emax false mx ex lx <> S754_zero true.
Proof.
  unfold binary_round_aux.
  destruct (shr_fexp prec emax mx ex lx) as [mrs e'].
  destruct (shr_fexp prec emax _ e' loc_Exact) as [mrs'' e''].
  destruct (shr_m mrs'') as [|m|m]; try discriminate.
  destruct (Z.leb e'' (emax - prec)); discriminate.
Qed.

(** The conversion of a non-negative integer is never [-0]. *)
Lemma double_of_Z_not_neg_zero (z : Z) :
  0 <= z -> Prim2SF (double_of_Z z) <> S754_zero true.
Proof.
  intros Hz. unfold double_of_Z. replace (z <? 0) with false by lia.
  rewrite FloatAxioms.of_uint63_spec. unfold binary_normalize.
  pose proof (Uint63.to_Z_bounded (Uint63.of_Z z)) as Hb.
  destruct (Uint63.to_Z (Uint63.of_Z z)) as [|m|m]; try discriminate;
    [|lia].
  unfold binary_round.
  destruct (shl_align m 0 (fexp prec emax (Z.pos (digits2_pos m) + 0)))
    as [mz ez].
  apply binary_round_aux_not_neg_zero.
Qed.

(** Order facts against zero. *)
Lemma ltb_zero_trans (a b : float) :
  a = 0%float \/ (0 <? a)%float = true ->
  (a <? b)%float = true -> (0 <? b)%float = true.
Proof.
  intros [-> | Ha] Hab; [exact Hab|].
  rewrite FloatAxioms.ltb_spec in *.
  change (Prim2SF 0) with (S754_zero false) in *.
  destruct (Prim2SF a) as [[]|[]| |[] ma ea],
    (Prim2SF b) as [[]|[]| |[] mb eb]; cbn in *;
    try discriminate; reflexivity.
Qed.

Lemma pos_not_leb_zero (a : float) :
  (0 <? a)%float = true -> (a <=? 0)%float = false.
Proof.
  rewrite FloatAxioms.ltb_spec, FloatAxioms.leb_spec.
  change (Prim2SF 0) with (S754_zero false).
  destruct (Prim2SF a) as [[]|[]| |[] ma ea]; cbn; try discriminate;
    reflexivity.
Qed.

(** ** PeakEstimator *)

Section PeakEstimatorFacts.

Context (log10 : double -> double) (pow : double -> double -> double).

Lemma scan_fold_index (vReal vImag : list double) (l : list Z)
  (acc : double * Z) :
  let r := fold_left (scan_step vReal vImag) l acc in
  snd r = snd acc \/ In (snd r) l.
Proof.
  revert acc. induction l as [|i l IH]; intros acc; simpl; [now left|].
  destruct (IH (scan_step vReal vImag acc i)) as [H|H]; [|now right; right].
  rewrite H. unfold scan_step.
  destruct (fst acc <? bin_mag vReal vImag i)%float; simpl; auto.
Qed.

(** The search leaves [IndexOfMaxY] at 0 or at a bin of the scan range. *)
Lemma scan_max_index (vReal vImag : list double) (half : Z) :
  let idx := snd (scan_max vReal vImag half) in
  idx = 0 \/ 1 <= idx <= half - 2.
Proof.
  destruct (scan_fold_index vReal vImag (seqZ 1 (half - 1 - 1)) (0%float, 0))
    as [H|H]; [now left|right].
  apply list_elem_of_In, elem_of_seqZ in H. unfold scan_max. lia.
Qed.

(** The two guards of the sketch, with the dead range test removed. *)
Lemma majorPeak_cases (vReal vImag : list double) (samples : Z)
  (samplingFrequency : double) :
  majorPeakParabolaDbWithMag log10 pow vReal vImag samples samplingFrequency
  = if (snd (scan_max vReal vImag (Z.shiftr samples 1)) =? 0)
       || (bin_mag vReal vImag
             (snd (scan_max vReal vImag (Z.shiftr samples 1)) - 1) <=? 0)%float
       || (fst (scan_max vReal vImag (Z.shiftr samples 1)) <=? 0)%float
       || (bin_mag vReal vImag
             (snd (scan_max vReal vImag (Z.shiftr samples 1)) + 1) <=? 0)%float
    then raw_bin (snd (scan_max vReal vImag (Z.shiftr samples 1))) samples
           samplingFrequency (fst (scan_max vReal vImag (Z.shiftr samples 1)))
    else parabola_db log10 pow
           (snd (scan_max vReal vImag (Z.shiftr samples 1))) samples
           samplingFrequency
           (bin_mag vReal vImag
              (snd (scan_max vReal vImag (Z.shiftr samples 1)) - 1))
           (fst (scan_max vReal vImag (Z.shiftr samples 1)))
           (bin_mag vReal vImag
              (snd (scan_max vReal vImag (Z.shiftr samples 1)) + 1)).
Proof.
  pose proof (scan_max_index vReal vImag (Z.shiftr samples 1)) as Hidx.
  unfold majorPeakParabolaDbWithMag.
  destruct (scan_max vReal vImag (Z.shiftr samples 1)) as [maxY idx].
  simpl in *.
  destruct Hidx as [-> | Hidx]; [reflexivity|].
  replace (idx <? 1) with false by lia.
  replace (Z.shiftr samples 1 - 1 <=? idx) with false by lia.
  replace (idx =? 0) with false by lia.
  simpl.
  destruct (bin_mag vReal vImag (idx - 1) <=? 0)%float,
    (maxY <=? 0)%float, (bin_mag vReal vImag (idx + 1) <=? 0)%float;
    reflexivity.
Qed.

(** With the libm values of [log10] at 1, 10 and 100, the peak of
    [peak_frame k] is placed at [k + 1/6], also when [k] is the first or the
    last bin of the scan range 1..6. *)
Lemma boundary_interpolated (k : Z) (f : double) :
  log10 1%float = 0%float -> log10 10%float = 1%float ->
  log10 100%float = 2%float ->
  scan_max (peak_frame (Z.to_nat k)) (replicate 16 0%float) (Z.shiftr 16 1)
  = (100%float, k) ->
  bin_mag (peak_frame (Z.to_nat k)) (replicate 16 0%float) (k - 1) = 1%float ->
  bin_mag (peak_frame (Z.to_nat k)) (replicate 16 0%float) (k + 1) = 10%float ->
  (k =? 0) = false ->
  (double_of_Z k + 0x1.5555555555555p-3)%float = f ->
  fst (majorPeakParabolaDbWithMag log10 pow (peak_frame (Z.to_nat k))
         (replicate 16 0%float) 16 16%float)
  = (f * 16 / 16)%float.
Proof.
  intros H1 H10 H100 Hscan Hm1 Hm2 Hk Hf.
  rewrite majorPeak_cases, Hscan. cbv [fst snd]. rewrite Hm1, Hm2, Hk.
  change ((false || (1 <=? 0)%float || (100 <=? 0)%float || (10 <=? 0)%float))
    with false.
  cbv iota. unfold parabola_db, peak_delta, peak_denom. cbv [fst].
  rewrite H1, H10, H100.
  change (0x1.19799812dea11p-40 <? abs (2 * (0 + 1 - 2 * 2)))%float with true.
  cbv iota.
  change ((0 - 1) / (2 * (0 + 1 - 2 * 2)))%float
    with 0x1.5555555555555p-3%float.
  rewrite Hf. reflexivity.
Qed.

(** C1, as the sketch has it: the only results without interpolation are
    those where [IndexOfMaxY] stayed 0 (no scanned bin has a magnitude above
    0) or where one of the three magnitudes around the maximum is not
    positive. A maximum at bin 1 or at bin [N/2 - 2] is interpolated like any
    other, from bins 0 and 2, or [N/2 - 3] and [N/2 - 1]. *)
Theorem majorPeak_interpolates_unless_degenerate
  (vReal vImag : list double) (samples : Z) (samplingFrequency : double) :
  let half := Z.shiftr samples 1 in
  let maxY := fst (scan_max vReal vImag half) in
  let IndexOfMaxY := snd (scan_max vReal vImag half) in
  let m1 := bin_mag vReal vImag (IndexOfMaxY - 1) in
  let m2 := bin_mag vReal vImag (IndexOfMaxY + 1) in
  (IndexOfMaxY = 0 \/ 1 <= IndexOfMaxY <= half - 2) /\
  majorPeakParabolaDbWithMag log10 pow vReal vImag samples samplingFrequency
  = if (IndexOfMaxY =? 0)
       || (m1 <=? 0)%float || (maxY <=? 0)%float || (m2 <=? 0)%float
    then raw_bin IndexOfMaxY samples samplingFrequency maxY
    else parabola_db log10 pow IndexOfMaxY samples samplingFrequency
           m1 maxY m2.
Proof.
  intros half maxY IndexOfMaxY m1 m2. split.
  - apply scan_max_index.
  - apply majorPeak_cases.
Qed.

Lemma scan_fold_positive (vReal vImag : list double) (l : list Z)
  (acc : double * Z) :
  (fst acc = 0%float \/ (0 <? fst acc)%float = true) ->
  (snd acc <> 0 -> (0 <? fst acc)%float = true) ->
  let r := fold_left (scan_step vReal vImag) l acc in
  (fst r = 0%float \/ (0 <? fst r)%float = true)
  /\ (snd r <> 0 -> (0 <? fst r)%float = true).
Proof.
  revert acc. induction l as [|i l IH]; intros acc HJ HK; [now split|].
  cbn [fold_left]. apply IH; unfold scan_step;
    destruct (fst acc <? bin_mag vReal vImag i)%float eqn:E; cbn [fst snd];
    auto; try intros _; try right; eapply ltb_zero_trans; eauto.
Qed.

(** A maximum found by the search has a positive magnitude. *)
Lemma scan_max_positive (vReal vImag : list double) (half : Z) :
  snd (scan_max vReal vImag half) <> 0 ->
  (0 <? fst (scan_max vReal vImag half))%float = true.
Proof.
  apply scan_fold_positive; cbn; [now left|congruence].
Qed.

(** With equal logs on both sides, [delta] is a zero. *)
Lemma peak_delta_symmetric (d db : double) :
  is_finite d = true ->
  peak_delta d db d = 0%float \/ peak_delta d db d = (-0)%float.
Proof.
  intros Hd. unfold peak_delta. rewrite (sub_diag_finite d Hd).
  destruct (0x1.19799812dea11p-40 <? abs (peak_denom d db d))%float eqn:E.
  - apply zero_div_guarded. exact E.
  - now left.
Qed.

(** C9: when the maximum is at a bin of the scan range whose two neighbours
    have one and the same positive magnitude, [delta] is zero and the
    returned frequency is that bin's centre frequency
    [IndexOfMaxY * samplingFrequency / N] ([140 * 22627 / 1024] for the peak
    at bin 140 of a 1024-point frame). The returned magnitude is
    [pow(10, log10(m))] for the centre magnitude [m]: it is [m] where that
    round trip through libm is exact. The libm facts used: [log10] of the
    neighbour magnitude is finite and [log10] of the centre magnitude is not
    [-0]. *)
Theorem symmetric_peak_at_bin_centre
  (vReal vImag : list double) (samples : Z) (samplingFrequency : double) :
  let half := Z.shiftr samples 1 in
  let maxY := fst (scan_max vReal vImag half) in
  let IndexOfMaxY := snd (scan_max vReal vImag half) in
  let m1 := bin_mag vReal vImag (IndexOfMaxY - 1) in
  let m2 := bin_mag vReal vImag (IndexOfMaxY + 1) in
  IndexOfMaxY <> 0 ->
  m1 = m2 -> (0 <? m1)%float = true ->
  is_finite (log10 m1) = true ->
  Prim2SF (log10 maxY) <> S754_zero true ->
  1 <= IndexOfMaxY <= half - 2
  /\ (peak_delta (log10 m1) (log10 maxY) (log10 m2) =? 0)%float = true
  /\ majorPeakParabolaDbWithMag log10 pow vReal vImag samples
       samplingFrequency
     = ((double_of_Z IndexOfMaxY * samplingFrequency
         / double_of_Z samples)%float, pow 10 (log10 maxY))
  /\ (pow 10 (log10 maxY) = maxY ->
      snd (majorPeakParabolaDbWithMag log10 pow vReal vImag samples
             samplingFrequency) = maxY).
Proof.
  intros half maxY IndexOfMaxY m1 m2 Hidx Hm Hpos Hfin Hnz.
  assert (Hrange : 1 <= IndexOfMaxY <= half - 2).
  { destruct (scan_max_index vReal vImag half) as [H|H];
      [contradiction|exact H]. }
  assert (Hmax : (0 <? maxY)%float = true)
    by (apply scan_max_positive; exact Hidx).
  assert (Hdelta := peak_delta_symmetric (log10 m1) (log10 maxY) Hfin).
  rewrite <- Hm. split; [exact Hrange|]. split.
  { destruct Hdelta as [-> | ->]; reflexivity. }
  assert (Hres : majorPeakParabolaDbWithMag log10 pow vReal vImag samples
                   samplingFrequency
                 = ((double_of_Z IndexOfMaxY * samplingFrequency
                     / double_of_Z samples)%float, pow 10 (log10 maxY)));
    [|split; [exact Hres|intros Hrt; rewrite Hres; exact Hrt]].
  rewrite majorPeak_cases. fold half. fold maxY. fold IndexOfMaxY.
  fold m1. fold m2. rewrite <- Hm.
  replace (IndexOfMaxY =? 0) with false by lia.
  rewrite (pos_not_leb_zero m1 Hpos), (pos_not_leb_zero maxY Hmax).
  cbn [orb]. unfold parabola_db, raw_bin.
  rewrite (sub_diag_finite (log10 m1) Hfin).
  assert (Hn : Prim2SF (double_of_Z IndexOfMaxY) <> S754_zero true)
    by (apply double_of_Z_not_neg_zero; lia).
  destruct Hdelta as [-> | ->].
  - change (0 * 0 / 2)%float with 0%float.
    rewrite (add_zero_r _ Hn), (add_zero_r _ Hnz). reflexivity.
  - change (0 * -0 / 2)%float with (-0)%float.
    rewrite !add_neg_zero_r. reflexivity.
Qed.

End PeakEstimatorFacts.

(** C1 as stated fails: the maximum of [peak_frame 1] over the scan range
    1..6 is at bin 1, the lowest permitted index, and that of [peak_frame 6]
    at bin 6, the highest; the returned frequencies are those of the
    interpolated indices [1 + 1/6] and [6 + 1/6], not the bin centres
    [1 * 16 / 16] and [6 * 16 / 16]. Only [log10] at 1, 10 and 100 is
    used, where [log10_tab] is libm's. *)
Lemma boundary_peak_is_interpolated :
  (snd (scan_max (peak_frame 1) (replicate 16 0%float) (Z.shiftr 16 1)) = 1 /\
   majorPeakParabolaDbWithMag log10_tab pow_tab (peak_frame 1)
     (replicate 16 0%float) 16 16%float
   <> raw_bin 1 16 16%float 100%float) /\
  (snd (scan_max (peak_frame 6) (replicate 16 0%float) (Z.shiftr 16 1)) = 6 /\
   majorPeakParabolaDbWithMag log10_tab pow_tab (peak_frame 6)
     (replicate 16 0%float) 16 16%float
   <> raw_bin 6 16 16%float 100%float).
Proof.
  split; (split; [reflexivity|]); intros H; apply (f_equal fst) in H.
  - pose proof (boundary_interpolated log10_tab pow_tab 1
                  0x1.2aaaaaaaaaaabp+0%float eq_refl eq_refl eq_refl eq_refl
                  eq_refl eq_refl eq_refl eq_refl) as E.
    change (Z.to_nat 1) with 1%nat in E. rewrite E in H.
    apply (f_equal Prim2SF) in H. vm_compute in H. discriminate H.
  - pose proof (boundary_interpolated log10_tab pow_tab 6
                  0x1.8aaaaaaaaaaabp+2%float eq_refl eq_refl eq_refl eq_refl
                  eq_refl eq_refl eq_refl eq_refl) as E.
    change (Z.to_nat 6) with 6%nat in E. rewrite E in H.
    apply (f_equal Prim2SF) in H. vm_compute in H. discriminate H.
Qed.

(** C9 on the frame of the test: N = 1024, sample rate 22627 Hz, magnitude
    100 at bin 140 between two magnitudes 10. The result is
    [140 * 22627 / 1024 = 3093.53515625] Hz and magnitude 100. *)
Lemma symmetric_peak_at_bin_centre_witness :
  majorPeakParabolaDbWithMag log10_tab pow_tab symmetric_frame
    (replicate 1024 0%float) SAMPLES SAMPLE_RATE
  = (3093.53515625%float, 100%float).
Proof.
  refine (proj1 (proj2 (proj2 (symmetric_peak_at_bin_centre log10_tab
    pow_tab symmetric_frame (replicate 1024 0%float) SAMPLES SAMPLE_RATE
    _ _ _ _ _)))).
  - vm_compute. discriminate.
  - vm_compute. reflexivity.
  - vm_compute. reflexivity.
  - vm_compute. reflexivity.
  - vm_compute. discriminate.
Defined.

(** C9 as stated fails in the magnitude: for the centre magnitude 3000
    between two magnitudes 10 at bins 139 and 141, [delta] is zero and the
    frequency is the bin centre 3093.53515625 Hz, but the returned magnitude
    is [pow(10, log10(3000))], which is 3000.0000000000014 with the correctly
    rounded [log10] and [pow]. *)
Lemma symmetric_peak_magnitude_moves :
  bin_mag symmetric_frame_3000 (replicate 1024 0%float) 139 = 10%float
  /\ bin_mag symmetric_frame_3000 (replicate 1024 0%float) 140 = 3000%float
  /\ bin_mag symmetric_frame_3000 (replicate 1024 0%float) 141 = 10%float
  /\ scan_max symmetric_frame_3000 (replicate 1024 0%float)
       (Z.shiftr SAMPLES 1) = (3000%float, 140)
  /\ majorPeakParabolaDbWithMag log10_tab_3000 pow_tab_3000
       symmetric_frame_3000 (replicate 1024 0%float) SAMPLES SAMPLE_RATE
     = (3093.53515625%float, 0x1.7700000000003p+11%float)
  /\ (0x1.7700000000003p+11 =? 3000)%float = false.
Proof. vm_compute. repeat split; reflexivity. Qed.

(** ** HistoryVotingDetector *)

Section DetectorFacts.

Open Scope N_scope.

Lemma popcount_step (n : N) :
  n <> 0 -> popcount n = N.land n 1 + popcount (N.shiftr n 1).
Proof.
  destruct n as [|[p|p|]]; intros H; try easy; simpl; lia.
Qed.

Lemma pos_popcount_size (p : positive) :
  pos_popcount p <= Npos (Pos.size p).
Proof. induction p; simpl; lia. Qed.

Lemma popcount_bound (n : N) : n < 2 ^ 32 -> popcount n <= 32.
Proof.
  intros H. destruct n as [|p]; simpl; [lia|].
  pose proof (pos_popcount_size p) as Hs.
  pose proof (N.size_le (Npos p)) as Hp.
  assert (Hlt : 2 ^ N.size (Npos p) < 2 ^ 33).
  { eapply N.le_lt_trans; [exact Hp|].
    change (2 ^ 33) with (2 * 2 ^ 32). rewrite N.succ_double_spec. lia. }
  apply N.pow_lt_mono_r_iff in Hlt; [|lia]. cbn [N.size] in Hlt. lia.
Qed.

Lemma countSetBits_loop_popcount (n count : N) :
  count + popcount n < 2 ^ 32 ->
  countSetBits_loop n count = count + popcount n.
Proof.
  funelim (countSetBits_loop n count); intros Hb.
  - subst. simpl. lia.
  - rewrite (popcount_step n) in Hb |- * by assumption.
    rewrite H.
    + unfold wrap32, UINT_MOD. rewrite N.mod_small; lia.
    + unfold wrap32, UINT_MOD. rewrite N.mod_small; lia.
Qed.

(** [countSetBits] counts the set bits of a 32-bit value. *)
Lemma countSetBits_popcount (n : N) :
  n < 2 ^ 32 -> countSetBits n = popcount n.
Proof.
  intros H. unfold countSetBits.
  rewrite countSetBits_loop_popcount; pose proof (popcount_bound n H); lia.
Qed.

Lemma lor_even_bit (y : N) (b : bool) :
  (if b then N.lor (2 * y) 1 else 2 * y) = N.b2n b + 2 * y.
Proof. destruct b, y; simpl; reflexivity. Qed.

Lemma mod_pow2_mod_pow2 (a n m : N) :
  n <= m -> (a mod 2 ^ m) mod 2 ^ n = a mod 2 ^ n.
Proof.
  intros H. replace m with (n + (m - n)) by lia.
  rewrite N.pow_add_r, N.Div0.mod_mul_r.
  rewrite (N.mul_comm (2 ^ n)), N.Div0.mod_add. apply N.Div0.mod_mod.
Qed.

(** One call: the register is shifted by one place, cut to [W = w + 1] bits,
    and its lowest bit is the vote. *)
Lemma detect_register (mem minMatch : N) (peak target tol : double) (w : N) :
  w < 32 ->
  fst (detectFrequency mem minMatch peak target tol (N.ones (N.succ w)))
  = N.b2n (freq_match peak target tol) + 2 * (mem mod 2 ^ w).
Proof.
  intros Hw. unfold detectFrequency. cbv [fst].
  rewrite N.land_ones. unfold wrap32, UINT_MOD.
  rewrite mod_pow2_mod_pow2 by lia.
  rewrite N.shiftl_mul_pow2, N.pow_1_r, N.pow_succ_r', (N.mul_comm mem 2).
  rewrite N.Div0.mul_mod_distr_l. apply lor_even_bit.
Qed.

Lemma land_ones_bound (a : N) : N.land a (N.ones 32) = a -> a < 2 ^ 32.
Proof.
  intros H. rewrite <- H, N.land_ones. apply N.mod_lt. lia.
Qed.

Lemma detect_register_bound (mem minMatch : N) (peak target tol : double)
  (mask : N) :
  fst (detectFrequency mem minMatch peak target tol mask) < 2 ^ 32.
Proof.
  unfold detectFrequency. cbv [fst]. unfold wrap32, UINT_MOD.
  rewrite <- (N.land_ones _ 32).
  set (m2 := N.land (N.land (N.shiftl mem 1) (N.ones 32)) mask).
  assert (Hm2 : N.land m2 (N.ones 32) = m2).
  { subst m2. apply N.bits_inj. intros i. rewrite !N.land_spec.
    destruct (N.testbit (N.shiftl mem 1) i), (N.testbit (N.ones 32) i),
      (N.testbit mask i); reflexivity. }
  apply land_ones_bound.
  destruct (freq_match peak target tol); [|exact Hm2].
  rewrite N.land_lor_distr_l, Hm2. reflexivity.
Qed.

Lemma detect_fired (mem minMatch : N) (peak target tol : double) (mask : N) :
  snd (detectFrequency mem minMatch peak target tol mask)
  = (minMatch <=? popcount
       (fst (detectFrequency mem minMatch peak target tol mask))).
Proof.
  rewrite <- countSetBits_popcount by apply detect_register_bound.
  reflexivity.
Qed.

Lemma from_bits_to_bits (k : nat) (n : N) :
  from_bits (to_bits k n) = n mod 2 ^ N.of_nat k.
Proof.
  revert n. induction k as [|k IH]; intros n.
  - simpl. now rewrite N.mod_1_r.
  - cbn [to_bits from_bits]. rewrite IH, Nat2N.inj_succ, N.pow_succ_r'.
    rewrite (N.div2_odd n) at 3.
    rewrite N.Div0.add_mul_mod_distr_l by (destruct (N.odd n); simpl; lia).
    lia.
Qed.

Lemma length_to_bits (k : nat) (n : N) : length (to_bits k n) = k.
Proof. revert n. induction k; intros n; simpl; auto. Qed.

Lemma from_bits_mod (w : nat) (l : list bool) :
  from_bits l mod 2 ^ N.of_nat w = from_bits (take w l).
Proof.
  revert l. induction w as [|w IH]; intros l.
  - simpl. rewrite N.mod_1_r. now destruct l.
  - destruct l as [|b r]; [reflexivity|].
    cbn [take from_bits]. rewrite <- IH, Nat2N.inj_succ, N.pow_succ_r'.
    rewrite (N.add_comm (N.b2n b)).
    rewrite N.Div0.add_mul_mod_distr_l by (destruct b; simpl; lia).
    lia.
Qed.

Lemma popcount_from_bits (l : list bool) :
  popcount (from_bits l) = count_true l.
Proof.
  induction l as [|b r IH]; [reflexivity|].
  cbn [from_bits count_true]. rewrite <- IH.
  destruct b, (from_bits r); reflexivity.
Qed.

Lemma count_true_app (l k : list bool) :
  count_true (l ++ k) = count_true l + count_true k.
Proof. induction l; simpl; lia. Qed.

Lemma count_true_rev (l : list bool) : count_true (rev l) = count_true l.
Proof.
  induction l as [|b r IH]; [reflexivity|].
  simpl. rewrite count_true_app, IH. simpl. lia.
Qed.

(** The short-window detector on a register given by its 32 bits. *)
Lemma detect_short_bits (l : list bool) (f : double) :
  length l = 32%nat ->
  detect_short (from_bits l) f
  = (from_bits (freq_match f 3100 11 :: take 31 l),
     15 <=? count_true (freq_match f 3100 11 :: take 31 l)).
Proof.
  intros Hl. rewrite <- popcount_from_bits.
  rewrite (surjective_pairing (detect_short (from_bits l) f)).
  unfold detect_short. rewrite detect_fired.
  change 0xFFFFFFFF with (N.ones (N.succ 31)).
  rewrite detect_register by lia.
  change 31 with (N.of_nat 31). rewrite from_bits_mod. reflexivity.
Qed.

Lemma take_window_cons (x l : list bool) (b : bool) :
  take 32 (x ++ b :: take 31 l) = take 32 (x ++ b :: l).
Proof.
  rewrite !take_app. f_equal.
  destruct (32 - length x)%nat as [|m] eqn:E; [reflexivity|].
  cbn [take]. f_equal. rewrite take_take. f_equal. lia.
Qed.

Lemma detect_run_bits (freqs : list double) (l : list bool) (r : bool) :
  length l = 32%nat ->
  let L := take 32 (rev (map (fun f => freq_match f 3100 11) freqs) ++ l) in
  fold_left (fun acc f => detect_short (fst acc) f) freqs (from_bits l, r)
  = (from_bits L, match freqs with [] => r | _ => 15 <=? count_true L end).
Proof.
  revert l r. induction freqs as [|f fs IH]; intros l r Hl L.
  - subst L. simpl. rewrite take_ge by lia. reflexivity.
  - cbn [fold_left fst]. rewrite detect_short_bits by assumption.
    rewrite IH by (cbn [length]; rewrite length_take; lia).
    assert (E : take 32 (rev (map (fun f => freq_match f 3100 11) fs)
                         ++ freq_match f 3100 11 :: take 31 l) = L).
    { subst L. cbn [map rev]. rewrite <- app_assoc. apply take_window_cons. }
    rewrite E. destruct fs as [|f' fs']; [|reflexivity].
    rewrite <- E. cbn [map rev app take]. rewrite take_take. reflexivity.
Qed.

(** After at least 32 observations the short-window register holds exactly
    the last 32 votes. *)
Lemma detect_short_window (mem : N) (freqs : list double) :
  mem < 2 ^ 32 -> (32 <= length freqs)%nat ->
  snd (detect_run detect_short mem freqs)
  = (15 <=? window_matches 32 3100 11 freqs).
Proof.
  intros Hmem Hlen. unfold detect_run.
  rewrite <- (N.mod_small mem (2 ^ N.of_nat 32)) by exact Hmem.
  rewrite <- from_bits_to_bits.
  rewrite detect_run_bits by apply length_to_bits.
  destruct freqs as [|f fs]; [simpl in Hlen; lia|].
  cbv [snd]. f_equal. unfold window_matches.
  rewrite take_app_le by (rewrite length_rev, length_map; exact Hlen).
  rewrite firstn_rev, count_true_rev, length_map, skipn_map. reflexivity.
Qed.

(** C2: one call shifts the register left by one, cuts it to [W = w + 1]
    bits and sets bit 0 iff [|smoothedFreq - F| <= tol]; the result is
    [popcount >= M]. For the short window ([W] = 32, [M] = 15), after at
    least 32 observations the result is true iff at least 15 of the last 32
    observations matched: 14 matches give false, 15 give true. *)
Theorem detectFrequency_sliding_vote :
  (forall (mem minMatch : N) (peak target tol : double) (w : N),
     w < 32 ->
     let r :=
       detectFrequency mem minMatch peak target tol (N.ones (N.succ w)) in
     fst r = N.b2n (freq_match peak target tol) + 2 * (mem mod 2 ^ w)
     /\ fst r < 2 ^ N.succ w
     /\ N.testbit (fst r) 0 = freq_match peak target tol
     /\ (forall i, i < w -> N.testbit (fst r) (N.succ i) = N.testbit mem i)
     /\ snd r = (minMatch <=? popcount (fst r)))
  /\
  (forall (mem : N) (freqs : list double),
     mem < 2 ^ 32 -> (32 <= length freqs)%nat ->
     let fired := snd (detect_run detect_short mem freqs) in
     fired = (15 <=? window_matches 32 3100 11 freqs)
     /\ (window_matches 32 3100 11 freqs = 14 -> fired = false)
     /\ (15 <= window_matches 32 3100 11 freqs -> fired = true)).
Proof.
  split.
  - intros mem minMatch peak target tol w Hw r.
    assert (E : fst r
                = 2 * (mem mod 2 ^ w) + N.b2n (freq_match peak target tol)).
    { subst r. rewrite detect_register by exact Hw. lia. }
    repeat split.
    + rewrite E. lia.
    + rewrite E, N.pow_succ_r'.
      pose proof (N.mod_upper_bound mem (2 ^ w)) as Hb.
      assert (2 ^ w <> 0) by (apply N.pow_nonzero; lia).
      destruct (freq_match peak target tol); simpl; lia.
    + rewrite E. apply N.testbit_0_r.
    + intros i Hi. rewrite E, N.testbit_succ_r.
      apply N.mod_pow2_bits_low. exact Hi.
    + subst r. apply detect_fired.
  - intros mem freqs Hmem Hlen fired.
    assert (E : fired = (15 <=? window_matches 32 3100 11 freqs)).
    { subst fired. apply detect_short_window; assumption. }
    repeat split.
    + exact E.
    + intros H. rewrite E, H. reflexivity.
    + intros H. rewrite E. apply N.leb_le. exact H.
Qed.

End DetectorFacts.

(** C2 on a concrete run: [fourteen_hits] leaves the detector off, and one
    more hit turns it on. *)
Lemma detectFrequency_sliding_vote_witness :
  snd (detect_run detect_short 0 fourteen_hits) = false /\
  snd (detect_run detect_short 0 (fourteen_hits ++ [3100%float])) = true.
Proof.
  destruct detectFrequency_sliding_vote as [_ H]. split.
  - apply (H 0%N fourteen_hits); [reflexivity|vm_compute; lia|reflexivity].
  - apply (H 0%N (fourteen_hits ++ [3100%float]));
      [reflexivity|vm_compute; lia|vm_compute; discriminate].
Defined.

(** ** AdaptivePeakFilter *)

Section FilterFacts.

Context (MEDIAN_N : Z) (ALPHA THRESHOLD : double).

Local Abbreviation update := (update_peak_filter MEDIAN_N ALPHA THRESHOLD).

Lemma update_gated (f : peak_filter) (newVal mag : double) :
  (mag <? THRESHOLD)%float = true ->
  update f newVal mag
  = (PeakFilter (peak_buf f) (buf_count f) (buf_idx f)
       (gate_value ALPHA (ema f)),
     gate_value ALPHA (ema f)).
Proof. intros H. unfold update_peak_filter. rewrite H. reflexivity. Qed.

Lemma gated_trace (calls : list (double * double)) (f : peak_filter) :
  Forall (fun c => (snd c <? THRESHOLD)%float = true) calls ->
  filter_trace update f calls
  = map (fun k =>
           (PeakFilter (peak_buf f) (buf_count f) (buf_idx f)
              (Nat.iter (S k) (gate_value ALPHA) (ema f)),
            Nat.iter (S k) (gate_value ALPHA) (ema f)))
        (seq 0 (length calls)).
Proof.
  intros H. revert f. induction H as [|c calls Hc _ IH]; intros f.
  - reflexivity.
  - cbn [filter_trace length seq map]. rewrite update_gated by exact Hc.
    f_equal. rewrite IH. cbn [fst peak_buf buf_count buf_idx ema].
    rewrite <- seq_shift, map_map. apply map_ext. intros k.
    rewrite <- !Nat.iter_succ_r. reflexivity.
Qed.

(** C3, as the sketch has it: calls below the gate, however many in a row,
    leave the median buffer, its write index and its fill count as they
    were; each call replaces the EMA by [ema * (1 - ALPHA) + ema * ALPHA]
    computed in double arithmetic and returns that value. When that
    computation gives back [ema] the EMA does not move at all. *)
Theorem gated_calls_keep_median_buffer
  (f : peak_filter) (calls : list (double * double)) :
  Forall (fun c => (snd c <? THRESHOLD)%float = true) calls ->
  Forall (fun r =>
            peak_buf (fst r) = peak_buf f
            /\ buf_count (fst r) = buf_count f
            /\ buf_idx (fst r) = buf_idx f
            /\ snd r = ema (fst r))
         (filter_trace update f calls)
  /\ map snd (filter_trace update f calls)
     = map (fun k => Nat.iter (S k) (gate_value ALPHA) (ema f))
           (seq 0 (length calls))
  /\ (gate_value ALPHA (ema f) = ema f ->
      Forall (fun r => fst r = f /\ snd r = ema f)
             (filter_trace update f calls)).
Proof.
  intros H. rewrite (gated_trace calls f H). repeat split.
  - apply Forall_forall. intros r Hr. apply list_elem_of_In, in_map_iff in Hr.
    destruct Hr as [k [<- _]]. cbn. auto.
  - rewrite map_map. reflexivity.
  - intros Hfix. apply Forall_forall. intros r Hr.
    apply list_elem_of_In, in_map_iff in Hr. destruct Hr as [k [<- _]].
    assert (E : forall n, Nat.iter n (gate_value ALPHA) (ema f) = ema f).
    { induction n as [|n IHn]; [reflexivity|].
      rewrite Nat.iter_succ, IHn. exact Hfix. }
    rewrite E. cbn [fst snd]. split; [destruct f|]; reflexivity.
Qed.

End FilterFacts.

(** C3 on the long filter after one accepted sample at 3100 Hz: two gated
    calls leave the whole state, EMA included, as it was. *)
Lemma gated_calls_keep_median_buffer_witness :
  let f := fst (update_long_peak_filter long_filter_init 3100 2) in
  Forall (fun r => fst r = f /\ snd r = 3100%float)
    (filter_trace update_long_peak_filter f
       [(3200%float, 0.5%float); (0%float, 0%float)]).
Proof.
  intros f.
  refine (proj2 (proj2 (gated_calls_keep_median_buffer LONG_MEDIAN_N
    EMA_ALPHA_LONG MAG_THRESHOLD_LONG f
    [(3200%float, 0.5%float); (0%float, 0%float)] _)) _).
  - repeat constructor.
  - reflexivity.
Defined.

(** C3 as stated fails on the short filter: after accepted samples at 3500 Hz
    and 4096.4 Hz the EMA is 0x1.d351eb8c93333p+11; a call below the gate
    returns 0x1.d351eb8c93334p+11 and leaves that in the EMA. *)
Lemma gated_call_moves_ema :
  let f :=
    fst (update_short_peak_filter
           (fst (update_short_peak_filter short_filter_init 3500 2))
           0x1.0006666666666p+12 2) in
  (0.5 <? MAG_THRESHOLD_SHORT)%float = true /\
  ema f = 0x1.d351eb8c93333p+11%float /\
  update_short_peak_filter f 3500 0.5
  = (PeakFilter (peak_buf f) (buf_count f) (buf_idx f)
       0x1.d351eb8c93334p+11, 0x1.d351eb8c93334p+11%float) /\
  (ema (fst (update_short_peak_filter f 3500 0.5)) =? ema f)%float = false.
Proof. vm_compute. repeat split; reflexivity. Qed.

(** ** Rounding of binary64 products and sums *)

Lemma digits2_bounds (p : positive) :
  2 ^ (Zpos (digits2_pos p) - 1) <= Zpos p < 2 ^ Zpos (digits2_pos p).
Proof.
  induction p as [p IH|p IH|]; cbn [digits2_pos].
  - rewrite Pos2Z.inj_succ.
    replace (Z.succ (Zpos (digits2_pos p)) - 1)
      with (Z.succ (Zpos (digits2_pos p) - 1)) by lia.
    rewrite !Z.pow_succ_r by lia. lia.
  - rewrite Pos2Z.inj_succ.
    replace (Z.succ (Zpos (digits2_pos p)) - 1)
      with (Z.succ (Zpos (digits2_pos p) - 1)) by lia.
    rewrite !Z.pow_succ_r by lia. lia.
  - cbn. lia.
Qed.

Lemma digits2_unique (p : positive) (d : Z) :
  2 ^ (d - 1) <= Zpos p < 2 ^ d -> Zpos (digits2_pos p) = d.
Proof.
  intros [H1 H2]. destruct (digits2_bounds p) as [B1 B2].
  assert (0 < d).
  { destruct (Z.le_gt_cases d 0) as [Hd|Hd]; [|lia].
    assert (2 ^ d <= 2 ^ 0) by (apply Z.pow_le_mono_r; lia).
    change (2 ^ 0) with 1 in *. lia. }
  assert (d - 1 < Zpos (digits2_pos p)).
  { apply (Z.pow_lt_mono_r_iff 2); lia. }
  assert (Zpos (digits2_pos p) - 1 < d).
  { apply (Z.pow_lt_mono_r_iff 2); lia. }
  lia.
Qed.

Lemma iter_pos_nat {A : Type} (f : A -> A) (p : positive) (x : A) :
  SpecFloat.iter_pos f p x = Nat.iter (Pos.to_nat p) f x.
Proof.
  revert x. induction p as [p IH|p IH|]; intros x; cbn [SpecFloat.iter_pos].
  - rewrite !IH, Pos2Nat.inj_xI.
    replace (S (2 * Pos.to_nat p)) with (Pos.to_nat p + S (Pos.to_nat p))%nat
      by lia.
    rewrite Nat.iter_add, Nat.iter_succ_r. reflexivity.
  - rewrite !IH, Pos2Nat.inj_xO.
    replace (2 * Pos.to_nat p)%nat with (Pos.to_nat p + Pos.to_nat p)%nat
      by lia.
    rewrite Nat.iter_add. reflexivity.
  - reflexivity.
Qed.

Lemma shr_1_nonneg (m : Z) (r s : bool) :
  0 <= m ->
  shr_1 (Build_shr_record m r s)
  = Build_shr_record (Z.div2 m) (Z.odd m) (r || s).
Proof.
  intros Hm. destruct m as [|[p|p|]|p]; try lia; reflexivity.
Qed.

Lemma shifted_0 (M : Z) :
  0 <= M -> shifted M 0 (Build_shr_record M false false).
Proof.
  intros H. split; [exact H|]. exists 0. cbn. split; [lia|].
  split; [lia|]. split; [discriminate|lia].
Qed.

Lemma shifted_step (M : Z) (k : nat) (mrs : shr_record) :
  shifted M k mrs -> shifted M (S k) (shr_1 mrs).
Proof.
  destruct mrs as [m r s]. intros (Hm & t & E & Ht & Hs).
  cbn [shr_m shr_r shr_s] in *.
  rewrite shr_1_nonneg by exact Hm. unfold shifted. cbn [shr_m shr_r shr_s].
  pose proof (Z.div2_odd m) as Hdm.
  assert (0 <= Z.div2 m) by (apply Z.div2_nonneg; exact Hm).
  split; [assumption|].
  exists (Z.b2z r * 2 ^ Z.of_nat k + t).
  rewrite Nat2Z.inj_succ.
  replace (Z.succ (Z.of_nat k) + 1) with (Z.succ (Z.succ (Z.of_nat k)))
    by lia.
  replace (Z.of_nat k + 1) with (Z.succ (Z.of_nat k)) in E by lia.
  rewrite !Z.pow_succ_r in * by lia.
  set (P := 2 ^ Z.of_nat k) in *.
  assert (0 < P) by (apply Z.pow_pos_nonneg; lia).
  split; [|split].
  - rewrite E.
    replace (m * (2 * P))
      with ((2 * Z.div2 m + Z.b2z (Z.odd m)) * (2 * P))
      by (rewrite <- Hdm; reflexivity).
    ring.
  - destruct r; cbn [Z.b2z]; lia.
  - destruct r, s; cbn [Z.b2z orb]; split; intros Hx;
      try reflexivity; try lia.
Qed.

Lemma shifted_iter (M : Z) (k : nat) :
  0 <= M -> shifted M k (Nat.iter k shr_1 (Build_shr_record M false false)).
Proof.
  intros H. induction k as [|k IH]; [apply shifted_0, H|].
  rewrite Nat.iter_succ. apply shifted_step, IH.
Qed.

(** Round to nearest even of the shifted mantissa is within half a unit. *)
Lemma round_nearest_even_near (M : Z) (k : nat) (mrs : shr_record) :
  shifted M k mrs ->
  let m1 := round_nearest_even (shr_m mrs) (loc_of_shr_record mrs) in
  shr_m mrs <= m1 <= shr_m mrs + 1
  /\ - 2 ^ Z.of_nat k <= 2 * m1 * 2 ^ Z.of_nat k - 2 * M <= 2 ^ Z.of_nat k
  /\ shr_m mrs * 2 ^ Z.of_nat k <= M < (shr_m mrs + 1) * 2 ^ Z.of_nat k.
Proof.
  destruct mrs as [m r s]. intros (Hm & t & E & Ht & Hs).
  cbn [shr_m shr_r shr_s] in *. cbv zeta.
  replace (Z.of_nat k + 1) with (Z.succ (Z.of_nat k)) in E by lia.
  rewrite Z.pow_succ_r in E by lia.
  set (P := 2 ^ Z.of_nat k) in *.
  assert (0 < P) by (apply Z.pow_pos_nonneg; lia).
  destruct r, s; cbn [loc_of_shr_record round_nearest_even Z.b2z] in *.
  - assert (0 < t) by (apply Hs; reflexivity). lia.
  - assert (t = 0).
    { destruct (Z.eq_dec t 0) as [|Hne]; [assumption|].
      assert (false = true) by (apply Hs; lia). discriminate. }
    destruct (Z.even m); lia.
  - assert (0 < t) by (apply Hs; reflexivity). lia.
  - assert (t = 0).
    { destruct (Z.eq_dec t 0) as [|Hne]; [assumption|].
      assert (false = true) by (apply Hs; lia). discriminate. }
    lia.
Qed.

Lemma fexp64 (e : Z) : SpecFloat.fexp prec emax e = Z.max (e - 53) (-1074).
Proof. reflexivity. Qed.

Lemma shr_shifted (M E n : Z) :
  0 <= M -> 0 <= n ->
  exists mrs : shr_record,
    SpecFloat.shr (Build_shr_record M false false) E n = (mrs, E + n)
    /\ shifted M (Z.to_nat n) mrs.
Proof.
  intros HM Hn. destruct n as [|p|p]; [| |lia].
  - exists (Build_shr_record M false false). cbn [SpecFloat.shr].
    rewrite Z.add_0_r. split; [reflexivity|]. apply shifted_0, HM.
  - exists (SpecFloat.iter_pos shr_1 p (Build_shr_record M false false)).
    split; [reflexivity|].
    rewrite iter_pos_nat. change (Z.to_nat (Zpos p)) with (Pos.to_nat p).
    apply shifted_iter, HM.
Qed.

(** Rounding a mantissa of at least 53 bits, away from the subnormal and
    overflow ranges: the result is normal, and within half a unit of the
    last place kept. *)
Lemma binary_round_aux_near (sx : bool) (mx : positive) (E : Z) :
  let n := Zpos (digits2_pos mx) - 53 in
  0 <= n -> -1074 <= E + n -> E + n + 1 <= 971 ->
  exists (m' : positive) (e' m1 : Z),
    binary_round_aux prec emax sx (Zpos mx) E loc_Exact
    = S754_finite sx m' e'
    /\ 2 ^ 52 <= Zpos m' < 2 ^ 53
    /\ ((e' = E + n /\ m1 = Zpos m') \/ (e' = E + n + 1 /\ m1 = 2 * Zpos m'))
    /\ - 2 ^ n <= 2 * m1 * 2 ^ n - 2 * Zpos mx <= 2 ^ n.
Proof.
  intros n Hn Hlo Hhi.
  destruct (digits2_bounds mx) as [D1 D2].
  replace (Zpos (digits2_pos mx)) with (n + 53) in D1, D2 by (subst n; lia).
  replace (n + 53 - 1) with (n + 52) in D1 by lia.
  rewrite Z.pow_add_r in D1, D2 by lia.
  unfold binary_round_aux, shr_fexp. cbn [Zdigits2 shr_record_of_loc].
  rewrite fexp64.
  replace (Z.max (Zpos (digits2_pos mx) + E - 53) (-1074) - E) with n
    by (subst n; lia).
  destruct (shr_shifted (Zpos mx) E n ltac:(lia) Hn) as (mrs & -> & Hsh).
  destruct (round_nearest_even_near _ _ _ Hsh) as (Hq & Hnear & Hfloor).
  rewrite Z2Nat.id in Hnear, Hfloor by exact Hn.
  set (q := shr_m mrs) in *.
  set (m1 := round_nearest_even q (loc_of_shr_record mrs)) in *.
  set (P := 2 ^ n) in *.
  assert (HP : 0 < P) by (apply Z.pow_pos_nonneg; lia).
  assert (Hq53 : q < 2 ^ 53) by nia.
  assert (Hq52 : 2 ^ 52 <= q) by nia.
  destruct m1 as [|p1|p1] eqn:Em1; [lia| |lia].
  destruct (Z.eq_dec (Zpos p1) (2 ^ 53)) as [Etop|Hne].
  - (* the rounded mantissa needs 54 bits *)
    assert (Ep : p1 = (2 ^ 53)%positive) by (apply Pos2Z.inj; exact Etop).
    subst p1. cbn [Zdigits2 digits2_pos]. rewrite fexp64.
    replace (Z.max (Zpos (digits2_pos (2 ^ 53)) + (E + n) - 53) (-1074)
             - (E + n)) with 1
      by (change (Zpos (digits2_pos (2 ^ 53))) with 54; lia).
    cbn [shr_record_of_loc SpecFloat.shr SpecFloat.iter_pos].
    change (shr_1 (Build_shr_record (Zpos (2 ^ 53)) false false))
      with (Build_shr_record (Zpos (2 ^ 52)) false false).
    cbn [shr_m].
    replace (E + n + 1 <=? emax - prec) with true
      by (symmetry; apply Z.leb_le; unfold emax, prec; lia).
    exists (2 ^ 52)%positive, (E + n + 1), (Zpos (2 ^ 53)).
    split; [reflexivity|]. split; [split; [reflexivity|reflexivity]|].
    split; [right; split; reflexivity|exact Hnear].
  - assert (Hd : Zpos (digits2_pos p1) = 53).
    { apply digits2_unique. change (53 - 1) with 52. lia. }
    cbn [Zdigits2]. rewrite fexp64, Hd.
    replace (Z.max (53 + (E + n) - 53) (-1074) - (E + n)) with 0 by lia.
    cbn [shr_record_of_loc SpecFloat.shr shr_m].
    replace (E + n <=? emax - prec) with true
      by (symmetry; apply Z.leb_le; unfold emax, prec; lia).
    exists p1, (E + n), (Zpos p1).
    split; [reflexivity|]. split; [lia|].
    split; [left; split; reflexivity|exact Hnear].
Qed.

(** ** Real values *)

Lemma pow2_add (a b : Z) : pow2 (a + b) = (pow2 a * pow2 b)%R.
Proof. unfold pow2. apply powerRZ_add. lra. Qed.

Lemma pow2_pos (e : Z) : (0 < pow2 e)%R.
Proof. unfold pow2. apply powerRZ_lt. lra. Qed.

Lemma pow2_IZR (n : Z) : 0 <= n -> pow2 n = IZR (2 ^ n).
Proof.
  intros Hn. unfold pow2.
  rewrite <- (Z2Nat.id n) at 1 2 by exact Hn.
  rewrite <- pow_powerRZ, <- pow_IZR. reflexivity.
Qed.

Lemma pow2_lt (a b : Z) : (pow2 a < pow2 b)%R -> a < b.
Proof.
  intros H. destruct (Z.lt_ge_cases a b) as [Hlt|Hge]; [exact Hlt|].
  exfalso.
  replace a with (b + (a - b)) in H by lia.
  rewrite pow2_add, (pow2_IZR (a - b)) in H by lia.
  assert (1 <= 2 ^ (a - b)) by (apply Z.lt_pred_le, Z.pow_pos_nonneg; lia).
  assert (1 <= IZR (2 ^ (a - b)))%R by (apply IZR_le; assumption).
  pose proof (pow2_pos b). nra.
Qed.

Lemma pow2_1 : pow2 1 = 2%R.
Proof. rewrite (pow2_IZR 1) by lia. reflexivity. Qed.

Lemma round_real (sx : bool) (mx : positive) (E : Z) :
  let n := Zpos (digits2_pos mx) - 53 in
  let X := (IZR (Zpos mx) * pow2 E)%R in
  0 <= n -> -1074 <= E + n -> E + n + 1 <= 971 ->
  exists (m' : positive) (e' : Z),
    binary_round_aux prec emax sx (Zpos mx) E loc_Exact
    = S754_finite sx m' e'
    /\ 2 ^ 52 <= Zpos m' < 2 ^ 53
    /\ E + n <= e' <= E + n + 1
    /\ (X * (1 - half_ulp) <= IZR (Zpos m') * pow2 e' <= X * (1 + half_ulp))%R.
Proof.
  intros n X Hn Hlo Hhi.
  destruct (binary_round_aux_near sx mx E Hn Hlo Hhi)
    as (m' & e' & m1 & Hr & Hm' & Hcase & Hnear).
  fold n in Hcase, Hnear.
  exists m', e'. split; [exact Hr|]. split; [exact Hm'|].
  split; [destruct Hcase as [[-> _]|[-> _]]; lia|].
  assert (Hval : (IZR (Zpos m') * pow2 e' = IZR m1 * pow2 E * pow2 n)%R).
  { destruct Hcase as [[-> ->]|[-> ->]].
    - rewrite pow2_add. ring.
    - rewrite mult_IZR, !pow2_add, pow2_1. ring. }
  destruct (digits2_bounds mx) as [D1 _].
  replace (Zpos (digits2_pos mx) - 1) with (n + 52) in D1 by (subst n; lia).
  rewrite Z.pow_add_r in D1 by lia.
  destruct Hnear as [N1 N2].
  apply IZR_le in D1, N1, N2.
  rewrite mult_IZR in D1.
  rewrite minus_IZR, !mult_IZR in N1, N2. rewrite opp_IZR in N1.
  rewrite <- (pow2_IZR n) in D1, N1, N2 by exact Hn.
  rewrite Hval. subst X.
  set (a := IZR m1) in *. set (M := IZR (Zpos mx)) in *.
  set (p := pow2 n) in *. set (q := pow2 E).
  assert (Hq : (0 < q)%R) by apply pow2_pos.
  assert (Hp : (0 < p)%R) by apply pow2_pos.
  change (IZR (2 ^ 52)) with 4503599627370496%R in D1.
  change (IZR 2) with 2%R in N1, N2.
  unfold half_ulp.
  assert (S1 : (- (p * q) <= 2 * (a * q * p) - 2 * (M * q))%R) by nra.
  assert (S2 : (2 * (a * q * p) - 2 * (M * q) <= p * q)%R) by nra.
  assert (S3 : (p * q * 4503599627370496 <= M * q)%R) by nra.
  set (S := (p * q)%R) in *. set (T := (M * q)%R) in *.
  set (W := (a * q * p)%R) in *.
  lra.
Qed.

(** ** Products and sums of normal doubles *)

Lemma Fmag_normal (x : double) (s : bool) (m : positive) (e : Z) :
  Prim2SF x = S754_finite s m e -> Fmag x = (IZR (Zpos m) * pow2 e)%R.
Proof. intros H. unfold Fmag. rewrite H. reflexivity. Qed.

Lemma F2R_normal (x : double) (s : bool) (e : Z) :
  normal s x e -> F2R x = ((if s then -1 else 1) * Fmag x)%R.
Proof. intros (m & H & _). unfold F2R, Fmag. rewrite H. reflexivity. Qed.

Lemma Fmag_pos (x : double) (s : bool) (e : Z) :
  normal s x e -> (0 < Fmag x)%R.
Proof.
  intros (m & E & _). rewrite (Fmag_normal _ _ _ _ E).
  apply Rmult_lt_0_compat; [apply IZR_lt; lia|apply pow2_pos].
Qed.

Lemma normal_is_finite (x : double) (s : bool) (e : Z) :
  normal s x e -> is_finite x = true.
Proof.
  intros (m & E & _). unfold is_finite, is_nan, is_infinity.
  rewrite !FloatAxioms.eqb_spec, FloatAxioms.abs_spec, E.
  change (Prim2SF infinity) with (S754_infinity false).
  unfold SFeqb. cbn [SFabs SFcompare].
  rewrite Z.compare_refl, Pos.compare_cont_refl. destruct s; reflexivity.
Qed.

Lemma mul_model (x y : double) (sx sy : bool) (ex ey : Z) :
  normal sx x ex -> normal sy y ey ->
  -1126 <= ex + ey <= 917 ->
  exists e' : Z,
    normal (xorb sx sy) (x * y)%float e'
    /\ ex + ey + 52 <= e' <= ex + ey + 54
    /\ (Fmag x * Fmag y * (1 - half_ulp) <= Fmag (x * y)%float
        <= Fmag x * Fmag y * (1 + half_ulp))%R.
Proof.
  intros (mx & Ex & Hx) (my & Ey & Hy) HE.
  assert (HM : 2 ^ 104 <= Zpos (mx * my) < 2 ^ 106).
  { rewrite Pos2Z.inj_mul.
    change (2 ^ 104) with (2 ^ 52 * 2 ^ 52).
    change (2 ^ 106) with (2 ^ 53 * 2 ^ 53).
    split.
    - apply Z.mul_le_mono_nonneg; lia.
    - apply Z.mul_lt_mono_nonneg; lia. }
  destruct (digits2_bounds (mx * my)) as [D1 D2].
  assert (Hd : 105 <= Zpos (digits2_pos (mx * my)) <= 106).
  { split.
    - assert (104 < Zpos (digits2_pos (mx * my)))
        by (apply (Z.pow_lt_mono_r_iff 2); lia). lia.
    - assert (Zpos (digits2_pos (mx * my)) - 1 < 106)
        by (apply (Z.pow_lt_mono_r_iff 2); lia). lia. }
  destruct (round_real (xorb sx sy) (mx * my) (ex + ey))
    as (m' & e' & Hr & Hm' & He' & HR); [lia|lia|lia|].
  assert (Ez : Prim2SF (x * y)%float = S754_finite (xorb sx sy) m' e')
    by (rewrite FloatAxioms.mul_spec, Ex, Ey; exact Hr).
  exists e'. split; [|split; [lia|]].
  - exists m'. split; [exact Ez|exact Hm'].
  - rewrite (Fmag_normal _ _ _ _ Ex), (Fmag_normal _ _ _ _ Ey),
      (Fmag_normal _ _ _ _ Ez).
    rewrite Pos2Z.inj_mul, mult_IZR, pow2_add in HR.
    replace (IZR (Zpos mx) * pow2 ex * (IZR (Zpos my) * pow2 ey))%R
      with (IZR (Zpos mx) * IZR (Zpos my) * (pow2 ex * pow2 ey))%R by ring.
    exact HR.
Qed.

Lemma pos_iter_xO (m d : positive) :
  Zpos (Pos.iter xO m d) = Zpos m * 2 ^ Zpos d.
Proof.
  induction d as [|d IH] using Pos.peano_ind.
  - cbn [Pos.iter]. change (2 ^ 1) with 2. lia.
  - rewrite Pos.iter_succ, Pos2Z.inj_succ, Z.pow_succ_r by lia.
    change (Zpos (Pos.iter xO m d)~0) with (2 * Zpos (Pos.iter xO m d)).
    rewrite IH. ring.
Qed.

Lemma shl_align_fst (mx : positive) (ex ez : Z) :
  ez <= ex -> Zpos (fst (shl_align mx ex ez)) = Zpos mx * 2 ^ (ex - ez).
Proof.
  intros H. unfold shl_align.
  destruct (ez - ex) as [|d|d] eqn:E; [|lia|]; cbn [fst].
  - replace (ex - ez) with 0 by lia. change (2 ^ 0) with 1. lia.
  - rewrite pos_iter_xO. f_equal. f_equal. lia.
Qed.

Lemma shl_align_id (mx : positive) (ex ex' : Z) :
  ex <= ex' -> shl_align mx ex ex' = (mx, ex).
Proof.
  intros H. unfold shl_align. destruct (ex' - ex) eqn:E; [reflexivity..|lia].
Qed.

(** The sum of two normal doubles of the same sign. *)
Lemma add_model (x y : double) (s : bool) (ex ey : Z) :
  normal s x ex -> normal s y ey ->
  -1074 <= ex <= 968 -> -1074 <= ey <= 968 ->
  exists e' : Z,
    normal s (x + y)%float e'
    /\ Z.max ex ey <= e' <= Z.max ex ey + 2
    /\ ((Fmag x + Fmag y) * (1 - half_ulp) <= Fmag (x + y)%float
        <= (Fmag x + Fmag y) * (1 + half_ulp))%R.
Proof.
  intros (mx & Ex & Hx) (my & Ey & Hy) Hex Hey.
  set (ez := Z.min ex ey).
  set (a := fst (shl_align mx ex ez)). set (b := fst (shl_align my ey ez)).
  assert (Ha : Zpos a = Zpos mx * 2 ^ (ex - ez))
    by (apply shl_align_fst; subst ez; lia).
  assert (Hb : Zpos b = Zpos my * 2 ^ (ey - ez))
    by (apply shl_align_fst; subst ez; lia).
  set (k := Z.max ex ey - ez).
  assert (Hk : 0 <= k) by (subst k ez; lia).
  assert (HM : 2 ^ (52 + k) <= Zpos (a + b) < 2 ^ (54 + k)).
  { rewrite Pos2Z.inj_add, Ha, Hb, !Z.pow_add_r by lia.
    change (2 ^ 54) with (2 * 2 ^ 53).
    assert (P0 : 0 < 2 ^ k) by (apply Z.pow_pos_nonneg; lia).
    destruct (Z.le_ge_cases ex ey) as [Hle|Hge].
    - replace (ex - ez) with 0 by (subst ez; lia).
      replace (ey - ez) with k by (subst k ez; lia).
      change (2 ^ 0) with 1. nia.
    - replace (ey - ez) with 0 by (subst ez; lia).
      replace (ex - ez) with k by (subst k ez; lia).
      change (2 ^ 0) with 1. nia. }
  destruct (digits2_bounds (a + b)) as [D1 D2].
  assert (Hd : 53 + k <= Zpos (digits2_pos (a + b)) <= 54 + k).
  { split.
    - assert (52 + k < Zpos (digits2_pos (a + b)))
        by (apply (Z.pow_lt_mono_r_iff 2); lia). lia.
    - assert (Zpos (digits2_pos (a + b)) - 1 < 54 + k)
        by (apply (Z.pow_lt_mono_r_iff 2); lia). lia. }
  assert (Hez : -1074 <= ez /\ ez + k <= 968) by (subst k ez; lia).
  destruct (round_real s (a + b) ez) as (m' & e' & Hr & Hm' & He' & HR);
    [lia|lia|lia|].
  assert (Ez : Prim2SF (x + y)%float = S754_finite s m' e').
  { rewrite FloatAxioms.add_spec, Ex, Ey. unfold SF64add, SFadd.
    fold ez. fold a b.
    assert (Esum : binary_normalize prec emax
                     (cond_Zopp s (Zpos a) + cond_Zopp s (Zpos b)) ez false
                   = binary_round prec emax s (a + b) ez)
      by (destruct s; reflexivity).
    rewrite Esum. unfold binary_round.
    rewrite shl_align_id; [exact Hr|]. rewrite fexp64. lia. }
  exists e'. split; [|split; [subst k; lia|]].
  - exists m'. split; [exact Ez|exact Hm'].
  - rewrite (Fmag_normal _ _ _ _ Ex), (Fmag_normal _ _ _ _ Ey),
      (Fmag_normal _ _ _ _ Ez).
    rewrite Pos2Z.inj_add, plus_IZR, Ha, Hb, !mult_IZR in HR.
    rewrite <- !pow2_IZR in HR by (subst ez; lia).
    replace ((IZR (Zpos mx) * pow2 (ex - ez) + IZR (Zpos my) * pow2 (ey - ez))
             * pow2 ez)%R
      with (IZR (Zpos mx) * pow2 ex + IZR (Zpos my) * pow2 ey)%R in HR.
    + exact HR.
    + replace ex with ((ex - ez) + ez) at 1 by lia.
      replace ey with ((ey - ez) + ez) at 1 by lia.
      rewrite !pow2_add. ring.
Qed.

(** Two normal doubles with magnitudes within a factor 2 have exponents at
    most 1 apart. *)
Lemma exponent_near (x y : double) (sx sy : bool) (ex ey : Z) :
  normal sx x ex -> normal sy y ey ->
  (Fmag x <= 2 * Fmag y)%R -> ex <= ey + 1.
Proof.
  intros (mx & Ex & Hx) (my & Ey & Hy) H.
  rewrite (Fmag_normal _ _ _ _ Ex), (Fmag_normal _ _ _ _ Ey) in H.
  assert (H1 : (pow2 (ex + 52) <= IZR (Zpos mx) * pow2 ex)%R).
  { rewrite pow2_add, (pow2_IZR 52) by lia.
    pose proof (pow2_pos ex). assert (IZR (2 ^ 52) <= IZR (Zpos mx))%R
      by (apply IZR_le; lia). nra. }
  assert (H2 : (2 * (IZR (Zpos my) * pow2 ey) < pow2 (ey + 54))%R).
  { rewrite pow2_add, (pow2_IZR 54) by lia.
    pose proof (pow2_pos ey).
    assert (IZR (Zpos my) < IZR (2 ^ 53))%R by (apply IZR_lt; lia).
    change (IZR (2 ^ 54)) with (2 * IZR (2 ^ 53))%R. nra. }
  assert (ex + 52 < ey + 54) by (apply pow2_lt; lra). lia.
Qed.

(** ** The blend of a value with an EMA near it *)

Lemma blend_real (A C V Re a b o : R) :
  (0 < V)%R -> (1 / 4 <= A)%R -> (0 <= C)%R -> (A + C = 1)%R ->
  (V * (1 - tolerance) <= Re <= V * (1 + tolerance))%R ->
  (A * V * (1 - half_ulp) <= a <= A * V * (1 + half_ulp))%R ->
  (C * Re * (1 - half_ulp) <= b <= C * Re * (1 + half_ulp))%R ->
  ((a + b) * (1 - half_ulp) <= o <= (a + b) * (1 + half_ulp))%R ->
  (V * (1 - tolerance) <= o <= V * (1 + tolerance))%R.
Proof.
  unfold tolerance, half_ulp. intros HV HA HC Hsum HRe Ha Hb Ho.
  set (AV := (A * V)%R) in *. set (CR := (C * Re)%R) in *.
  set (CV := (C * V)%R).
  assert (E1 : (AV + CV = V)%R) by (subst AV CV; nra).
  assert (E2 : (0 <= CV)%R) by (subst CV; nra).
  assert (E3 : (CV <= 3 / 4 * V)%R) by (subst CV; nra).
  assert (E4 : (CV * (1 - / 562949953421312) <= CR)%R)
    by (subst CV CR; nra).
  assert (E5 : (CR <= CV * (1 + / 562949953421312))%R)
    by (subst CV CR; nra).
  clearbody AV CR CV. lra.
Qed.

Section BlendNear.

Context (ALPHA C : double) (ea ec : Z).
Hypothesis HA : normal false ALPHA ea.
Hypothesis HC : normal false C ec.
Hypothesis HC_def : (1 - ALPHA)%float = C.
Hypothesis Hea : -56 <= ea <= -52.
Hypothesis Hec : -56 <= ec <= -52.
Hypothesis Hsum : (Fmag ALPHA + Fmag C = 1)%R.
Hypothesis Hquarter : (1 / 4 <= Fmag ALPHA)%R.

Lemma blend_near (s : bool) (v e : double) (ev ee : Z) :
  normal s v ev -> -1000 <= ev <= 900 -> normal s e ee ->
  (Fmag v * (1 - tolerance) <= Fmag e <= Fmag v * (1 + tolerance))%R ->
  exists eo : Z,
    normal s (blend ALPHA v e) eo
    /\ (Fmag v * (1 - tolerance) <= Fmag (blend ALPHA v e)
        <= Fmag v * (1 + tolerance))%R.
Proof.
  intros Hv Hev He HRe.
  pose proof (Fmag_pos v s ev Hv) as HV.
  pose proof (Fmag_pos C false ec HC) as HCpos.
  assert (Hee : ev - 1 <= ee <= ev + 1).
  { unfold tolerance in HRe. split.
    - assert (ev <= ee + 1); [|lia].
      apply (exponent_near v e s s); [assumption..|lra].
    - apply (exponent_near e v s s); [assumption..|lra]. }
  destruct (mul_model ALPHA v false s ea ev HA Hv ltac:(lia))
    as (e1 & Ha1 & He1 & HRa).
  destruct (mul_model C e false s ec ee HC He ltac:(lia))
    as (e2 & Hb1 & He2 & HRb).
  cbn [xorb] in Ha1, Hb1.
  destruct (add_model _ _ s e1 e2 Ha1 Hb1 ltac:(lia) ltac:(lia))
    as (eo & Ho1 & _ & HRo).
  unfold blend. rewrite HC_def.
  exists eo. split; [exact Ho1|].
  apply (blend_real (Fmag ALPHA) (Fmag C) (Fmag v) (Fmag e)
           (Fmag (ALPHA * v)%float) (Fmag (C * e)%float)); try assumption.
  lra.
Qed.

Lemma ema_steady_near (s : bool) (v : double) (ev : Z) (k : nat) :
  normal s v ev -> -1000 <= ev <= 900 ->
  exists eo : Z,
    normal s (ema_steady ALPHA v k) eo
    /\ (Fmag v * (1 - tolerance) <= Fmag (ema_steady ALPHA v k)
        <= Fmag v * (1 + tolerance))%R.
Proof.
  intros Hv Hev. pose proof (Fmag_pos v s ev Hv) as HV.
  induction k as [|k (eo & Hk & HR)]; cbn [ema_steady].
  - apply (blend_near s v v ev ev); try assumption.
    unfold tolerance. lra.
  - apply (blend_near s v _ ev eo); assumption.
Qed.

Lemma ema_steady_tolerance (v : double) (k : nat) :
  normal_in_range v = true ->
  within_tolerance v (ema_steady ALPHA v k).
Proof.
  unfold normal_in_range. intros H.
  destruct (Prim2SF v) as [| | |s m e] eqn:Ev; try discriminate.
  apply andb_true_iff in H. destruct H as [H H3].
  apply andb_true_iff in H. destruct H as [H1 H2].
  apply Z.eqb_eq in H1. apply Z.leb_le in H2, H3.
  assert (Hv : normal s v e).
  { exists m. split; [exact Ev|].
    pose proof (digits2_bounds m) as Hb. rewrite H1 in Hb. exact Hb. }
  destruct (ema_steady_near s v e k Hv ltac:(lia)) as (eo & Ho & HR).
  split; [exact (normal_is_finite _ _ _ Ho)|].
  rewrite (F2R_normal _ _ _ Ho), (F2R_normal _ _ _ Hv).
  pose proof (Fmag_pos v s e Hv) as HV.
  unfold tolerance in *.
  destruct s.
  - replace (-1 * Fmag (ema_steady ALPHA v k) - -1 * Fmag v)%R
      with (- (Fmag (ema_steady ALPHA v k) - Fmag v))%R by ring.
    rewrite Rabs_Ropp.
    replace (-1 * Fmag v)%R with (- Fmag v)%R by ring.
    rewrite Rabs_Ropp, (Rabs_pos_eq (Fmag v)) by lra.
    apply Rabs_le. lra.
  - rewrite !Rmult_1_l, (Rabs_pos_eq (Fmag v)) by lra.
    apply Rabs_le. lra.
Qed.

End BlendNear.

Lemma pow2_neg (n : Z) : 0 <= n -> pow2 (- n) = (/ IZR (2 ^ n))%R.
Proof.
  intros Hn.
  assert (H : (pow2 (- n) * pow2 n = 1)%R).
  { rewrite <- pow2_add. replace (- n + n) with 0 by lia. reflexivity. }
  rewrite (pow2_IZR n Hn) in H.
  assert (0 < IZR (2 ^ n))%R
    by (apply IZR_lt, Z.pow_pos_nonneg; lia).
  apply (Rmult_eq_reg_r (IZR (2 ^ n))); [|lra].
  rewrite H. field. lra.
Qed.

Lemma pow2_Zneg (p : positive) : pow2 (Zneg p) = (/ IZR (2 ^ Zpos p))%R.
Proof. apply (pow2_neg (Zpos p)). lia. Qed.

Lemma normal_intro (x : double) (s : bool) (m : positive) (e : Z) :
  Prim2SF x = S754_finite s m e ->
  (2 ^ 52 <=? Zpos m) && (Zpos m <? 2 ^ 53) = true ->
  normal s x e.
Proof.
  intros E H. exists m. split; [exact E|].
  apply andb_true_iff in H. destruct H as [H1 H2].
  apply Z.leb_le in H1. apply Z.ltb_lt in H2. lia.
Qed.

(** The constants of the two filters: [0.4f] is 13421773 / 2^25 and
    [1 - 0.4f] is 20132659 / 2^25, exactly. *)
Lemma short_alpha_tolerance (v : double) (k : nat) :
  normal_in_range v = true ->
  within_tolerance v (ema_steady EMA_ALPHA_SHORT v k).
Proof.
  apply (ema_steady_tolerance EMA_ALPHA_SHORT 0x1.333333p-1 (-54) (-53)).
  - apply (normal_intro _ _ 7205759511166976); reflexivity.
  - apply (normal_intro _ _ 5404319499157504); reflexivity.
  - reflexivity.
  - lia.
  - lia.
  - rewrite (Fmag_normal _ false 7205759511166976 (-54)) by reflexivity.
    rewrite (Fmag_normal _ false 5404319499157504 (-53)) by reflexivity.
    rewrite !pow2_Zneg.
    change (IZR (2 ^ 54)) with 18014398509481984%R.
    change (IZR (2 ^ 53)) with 9007199254740992%R. lra.
  - rewrite (Fmag_normal _ false 7205759511166976 (-54)) by reflexivity.
    rewrite pow2_Zneg.
    change (IZR (2 ^ 54)) with 18014398509481984%R. lra.
Qed.

Lemma long_alpha_tolerance (v : double) (k : nat) :
  normal_in_range v = true ->
  within_tolerance v (ema_steady EMA_ALPHA_LONG v k).
Proof.
  apply (ema_steady_tolerance EMA_ALPHA_LONG 0.75 (-54) (-53)).
  - apply (normal_intro _ _ 4503599627370496); reflexivity.
  - apply (normal_intro _ _ 6755399441055744); reflexivity.
  - reflexivity.
  - lia.
  - lia.
  - rewrite (Fmag_normal _ false 4503599627370496 (-54)) by reflexivity.
    rewrite (Fmag_normal _ false 6755399441055744 (-53)) by reflexivity.
    rewrite !pow2_Zneg.
    change (IZR (2 ^ 54)) with 18014398509481984%R.
    change (IZR (2 ^ 53)) with 9007199254740992%R. lra.
  - rewrite (Fmag_normal _ false 4503599627370496 (-54)) by reflexivity.
    rewrite pow2_Zneg.
    change (IZR (2 ^ 54)) with 18014398509481984%R. lra.
Qed.

Section ConvergenceFacts.

Context (MEDIAN_N : Z) (ALPHA THRESHOLD : double) (v : double).

Local Abbreviation update := (update_peak_filter MEDIAN_N ALPHA THRESHOLD).

Lemma sort_shift_const (n i : nat) :
  (0 < i < n)%nat ->
  sort_shift v i (replicate n v) = replicate n v.
Proof.
  intros Hi. destruct i as [|j]; [lia|]. cbn [sort_shift].
  rewrite lookup_total_replicate_2 by lia. rewrite ltb_irrefl.
  apply list_insert_id, lookup_replicate_2. lia.
Qed.

Lemma insertion_sort_const (n : nat) :
  insertion_sort (replicate n v) n = replicate n v.
Proof.
  unfold insertion_sort.
  assert (H : forall l : list nat,
             Forall (fun i => (0 < i < n)%nat) l ->
             fold_left (fun t i => sort_shift (t !!! i) i t) l (replicate n v)
             = replicate n v).
  { intros l Hl. induction Hl as [|i l Hi _ IH]; [reflexivity|].
    cbn [fold_left]. rewrite lookup_total_replicate_2 by lia.
    rewrite sort_shift_const by exact Hi. exact IH. }
  apply H. apply Forall_forall. intros i Hi.
  apply list_elem_of_In, in_seq in Hi. lia.
Qed.

(** The median of a buffer whose first [c] slots hold [v] is [v]. *)
Lemma median_of_copy_const (b : list double) (c : Z) :
  1 <= c <= 21 -> (Z.to_nat c <= length b)%nat ->
  (forall i : nat, (i < Z.to_nat c)%nat -> b !! i = Some v) ->
  median_of_copy b c = v.
Proof.
  intros Hc Hlen Hb. unfold median_of_copy.
  replace (21 <? c) with false by lia. replace (c <? 0) with false by lia.
  cbn [orb].
  assert (E : take (Z.to_nat c) b = replicate (Z.to_nat c) v).
  { apply list_eq. intros i. destruct (decide (i < Z.to_nat c)%nat) as [Hi|Hi].
    - rewrite lookup_take_lt, lookup_replicate_2 by exact Hi. auto.
    - rewrite lookup_take_ge by lia. symmetry.
      apply lookup_ge_None. rewrite length_replicate. lia. }
  rewrite E, insertion_sort_const.
  apply lookup_total_replicate_2.
  rewrite Z.quot_div_nonneg by lia.
  assert (c / 2 < c) by (apply Z.div_lt; lia).
  assert (0 <= c / 2) by (apply Z.div_pos; lia). lia.
Qed.

Lemma filled_with_init :
  1 <= MEDIAN_N -> filled_with MEDIAN_N v (filter_init MEDIAN_N).
Proof.
  intros H. unfold filled_with, filter_init. cbn.
  rewrite length_replicate. repeat split; try lia.
Qed.

(** One accepted call with value [v] on a buffer already holding [v]. *)
Lemma accept_constant (f : peak_filter) (mag : double) :
  2 <= MEDIAN_N <= 21 -> filled_with MEDIAN_N v f ->
  (mag <? THRESHOLD)%float = false ->
  let r := update f v mag in
  filled_with MEDIAN_N v (fst r)
  /\ 1 <= buf_count (fst r)
  /\ median_of_copy (peak_buf (fst r)) (buf_count (fst r)) = v
  /\ snd r = ema (fst r)
  /\ ema (fst r)
     = blend ALPHA v
         (if (buf_count f =? 0) && (ema f =? 0)%float then v else ema f).
Proof.
  intros HN (Hlen & Hc & Hi & Hci & Hv) Hmag r.
  subst r. unfold update_peak_filter. rewrite Hmag.
  set (buf := <[Z.to_nat (buf_idx f) := v]> (peak_buf f)).
  set (count := if buf_count f <? MEDIAN_N then buf_count f + 1
                else buf_count f).
  assert (Hcount : 1 <= count <= MEDIAN_N /\ buf_count f <= count).
  { subst count. destruct (buf_count f <? MEDIAN_N) eqn:E; lia. }
  assert (Hbuf : forall i : nat,
             (i < Z.to_nat count)%nat -> buf !! i = Some v).
  { intros i Hlt. subst buf.
    destruct (decide (Z.to_nat (buf_idx f) = i)) as [<-|Hne].
    - apply list_lookup_insert_eq. lia.
    - rewrite list_lookup_insert_ne by exact Hne. apply Hv.
      subst count. destruct (buf_count f <? MEDIAN_N) eqn:E; [|lia].
      assert (buf_idx f = buf_count f) by (apply Hci; lia). lia. }
  assert (Hmed : median_of_copy buf count = v).
  { apply median_of_copy_const; [lia| |exact Hbuf].
    subst buf. rewrite length_insert. lia. }
  unfold filled_with. cbn [fst snd peak_buf buf_count buf_idx ema].
  rewrite Hmed. repeat split; try lia.
  - subst buf. rewrite length_insert. exact Hlen.
  - apply Z.rem_bound_pos; lia.
  - apply Z.rem_bound_pos; lia.
  - intros Hlt. subst count.
    destruct (buf_count f <? MEDIAN_N) eqn:E; [|lia].
    rewrite Hci by lia. apply Z.rem_small. lia.
  - exact Hbuf.
  - unfold blend. replace (count =? 1) with (buf_count f =? 0); [reflexivity|].
    subst count. destruct (buf_count f <? MEDIAN_N) eqn:E; lia.
Qed.

Lemma constant_trace (mags : list double) (f : peak_filter) :
  2 <= MEDIAN_N <= 21 -> filled_with MEDIAN_N v f -> 1 <= buf_count f ->
  Forall (fun m => (m <? THRESHOLD)%float = false) mags ->
  let tr := filter_trace update f (map (fun m => (v, m)) mags) in
  Forall (fun r =>
            median_of_copy (peak_buf (fst r)) (buf_count (fst r)) = v
            /\ snd r = ema (fst r)) tr
  /\ map snd tr
     = map (fun k => Nat.iter (S k) (blend ALPHA v) (ema f))
           (seq 0 (length mags)).
Proof.
  intros HN Hf Hc Hm. revert f Hf Hc.
  induction Hm as [|m mags Hmag _ IH]; intros f Hf Hc tr.
  - split; [constructor|reflexivity].
  - subst tr. cbn [map filter_trace fst snd length seq].
    destruct (accept_constant f m HN Hf Hmag) as (Hf' & Hc' & Hmed & Hout & He).
    replace (buf_count f =? 0) with false in He by lia. cbn [andb] in He.
    destruct (IH _ Hf' Hc') as [IH1 IH2]. split.
    + constructor; [split; assumption|exact IH1].
    + f_equal; [rewrite Hout, He; reflexivity|].
      rewrite IH2, He, <- seq_shift, map_map. apply map_ext. intros k.
      rewrite <- !Nat.iter_succ_r. reflexivity.
Qed.

Lemma ema_steady_iter (k : nat) :
  Nat.iter k (blend ALPHA v) (blend ALPHA v v) = ema_steady ALPHA v k.
Proof.
  induction k as [|k IH]; [reflexivity|].
  rewrite Nat.iter_succ, IH. reflexivity.
Qed.

(** From the initial state, accepted calls with one frequency [v] see the
    median [v] at every call; the first call sets the EMA to the median
    before blending, so call [k] returns [ema_steady ALPHA v k]: the blend
    of [v] with itself, then with the previous output, in double arithmetic.
    When that blend of [v] with itself is [v], every call returns [v]. *)
Lemma identical_samples_trace (mags : list double) :
  2 <= MEDIAN_N <= 21 ->
  Forall (fun m => (m <? THRESHOLD)%float = false) mags ->
  let tr :=
    filter_trace update (filter_init MEDIAN_N) (map (fun m => (v, m)) mags) in
  Forall (fun r =>
            median_of_copy (peak_buf (fst r)) (buf_count (fst r)) = v
            /\ snd r = ema (fst r)) tr
  /\ map snd tr = map (ema_steady ALPHA v) (seq 0 (length mags))
  /\ (blend ALPHA v v = v -> Forall (fun r => snd r = v) tr).
Proof.
  intros HN Hm tr.
  assert (Hmain :
    Forall (fun r =>
              median_of_copy (peak_buf (fst r)) (buf_count (fst r)) = v
              /\ snd r = ema (fst r)) tr
    /\ map snd tr = map (ema_steady ALPHA v) (seq 0 (length mags))).
  { subst tr. destruct Hm as [|m mags Hmag Hrest].
    - split; [constructor|reflexivity].
    - cbn [map filter_trace fst snd length seq].
      destruct (accept_constant (filter_init MEDIAN_N) m HN
                  (filled_with_init ltac:(lia)) Hmag)
        as (Hf' & Hc' & Hmed & Hout & He).
      change ((buf_count (filter_init MEDIAN_N) =? 0)
              && (ema (filter_init MEDIAN_N) =? 0)%float) with true in He.
      cbn iota in He.
      destruct (constant_trace mags _ HN Hf' Hc' Hrest) as [T1 T2]. split.
      + constructor; [split; assumption|exact T1].
      + f_equal; [rewrite Hout, He; reflexivity|].
        rewrite T2, He, <- seq_shift, map_map. apply map_ext. intros k.
        rewrite <- ema_steady_iter, <- !Nat.iter_succ_r. reflexivity. }
  destruct Hmain as [H1 H2]. repeat split; [exact H1|exact H2|].
  intros Hfix.
  assert (E : forall k, ema_steady ALPHA v k = v).
  { induction k as [|k IHk]; cbn; [|rewrite IHk]; exact Hfix. }
  apply Forall_forall. intros r Hr.
  apply list_elem_of_In, (in_map snd) in Hr. rewrite H2 in Hr.
  apply in_map_iff in Hr. destruct Hr as [k [<- _]]. apply E.
Qed.

End ConvergenceFacts.

(** A zero is within tolerance of itself. *)
Lemma within_tolerance_refl_zero (v : double) :
  v = 0%float \/ v = (-0)%float -> within_tolerance v v.
Proof.
  intros [-> | ->]; (split; [reflexivity|]);
    unfold Rminus; rewrite Rplus_opp_r, Rabs_R0; unfold F2R;
    cbn [Prim2SF]; rewrite ?Rabs_R0; unfold tolerance.
  - change (Prim2SF 0) with (S754_zero false). cbv iota.
    rewrite Rabs_R0. lra.
  - change (Prim2SF (-0)) with (S754_zero true). cbv iota.
    rewrite Rabs_R0. lra.
Qed.

(** C8: from the initial state, accepted calls with one frequency [v] see
    the median [v] at every call, on the short and on the long filter. The
    first call sets the EMA to the median before blending, so call [k]
    returns [ema_steady ALPHA v k]: the blend of [v] with itself, then with
    the previous output, in double arithmetic. For [v] a zero or a normal
    double of magnitude from [2 ^ -948] to below [2 ^ 953], every output is
    finite and differs from [v] by at most [2 ^ -49] times [|v|]; and
    whenever the blend of [v] with itself is [v], every call returns [v]
    itself. *)
Theorem identical_samples_fixed_point (v : double) (mags : list double) :
  v = 0%float \/ v = (-0)%float \/ normal_in_range v = true ->
  Forall (fun m => (m <? MAG_THRESHOLD_SHORT)%float = false
                   /\ (m <? MAG_THRESHOLD_LONG)%float = false) mags ->
  let calls := map (fun m => (v, m)) mags in
  let short := filter_trace update_short_peak_filter short_filter_init calls in
  let long := filter_trace update_long_peak_filter long_filter_init calls in
  Forall (fun r =>
            median_of_copy (peak_buf (fst r)) (buf_count (fst r)) = v
            /\ snd r = ema (fst r) /\ within_tolerance v (snd r)) short
  /\ map snd short = map (ema_steady EMA_ALPHA_SHORT v) (seq 0 (length mags))
  /\ Forall (fun r =>
               median_of_copy (peak_buf (fst r)) (buf_count (fst r)) = v
               /\ snd r = ema (fst r) /\ within_tolerance v (snd r)) long
  /\ map snd long = map (ema_steady EMA_ALPHA_LONG v) (seq 0 (length mags))
  /\ (blend EMA_ALPHA_SHORT v v = v -> Forall (fun r => snd r = v) short)
  /\ (blend EMA_ALPHA_LONG v v = v -> Forall (fun r => snd r = v) long).
Proof.
  intros Hv Hm calls short long.
  assert (Hms : Forall (fun m => (m <? MAG_THRESHOLD_SHORT)%float = false)
                  mags)
    by (eapply Forall_impl; [exact Hm|]; intros m [H _]; exact H).
  assert (Hml : Forall (fun m => (m <? MAG_THRESHOLD_LONG)%float = false)
                  mags)
    by (eapply Forall_impl; [exact Hm|]; intros m [_ H]; exact H).
  destruct (identical_samples_trace SHORT_MEDIAN_N EMA_ALPHA_SHORT
              MAG_THRESHOLD_SHORT v mags ltac:(unfold SHORT_MEDIAN_N; lia)
              Hms) as (S1 & S2 & S3).
  destruct (identical_samples_trace LONG_MEDIAN_N EMA_ALPHA_LONG
              MAG_THRESHOLD_LONG v mags ltac:(unfold LONG_MEDIAN_N; lia)
              Hml) as (L1 & L2 & L3).
  fold calls in S1, S2, S3, L1, L2, L3.
  change (filter_trace (update_peak_filter SHORT_MEDIAN_N EMA_ALPHA_SHORT
            MAG_THRESHOLD_SHORT) (filter_init SHORT_MEDIAN_N) calls)
    with short in S1, S2, S3.
  change (filter_trace (update_peak_filter LONG_MEDIAN_N EMA_ALPHA_LONG
            MAG_THRESHOLD_LONG) (filter_init LONG_MEDIAN_N) calls)
    with long in L1, L2, L3.
  assert (Tol : forall (ALPHA : double) (tr : list (peak_filter * double)),
            (forall k, within_tolerance v (ema_steady ALPHA v k)) ->
            map snd tr = map (ema_steady ALPHA v) (seq 0 (length mags)) ->
            Forall (fun r =>
                      median_of_copy (peak_buf (fst r)) (buf_count (fst r))
                      = v /\ snd r = ema (fst r)) tr ->
            Forall (fun r =>
                      median_of_copy (peak_buf (fst r)) (buf_count (fst r))
                      = v /\ snd r = ema (fst r)
                      /\ within_tolerance v (snd r)) tr).
  { intros ALPHA tr Hk Hout Hall. apply Forall_forall. intros r Hr.
    destruct (proj1 (Forall_forall _ _) Hall r Hr) as [H1 H2].
    split; [exact H1|]. split; [exact H2|].
    apply list_elem_of_In, (in_map snd) in Hr. rewrite Hout in Hr.
    apply in_map_iff in Hr. destruct Hr as [k [<- _]]. apply Hk. }
  assert (Zero : forall ALPHA : double,
            blend ALPHA v v = v -> within_tolerance v v ->
            forall k, within_tolerance v (ema_steady ALPHA v k)).
  { intros ALPHA Hfix Hw k.
    assert (E : ema_steady ALPHA v k = v)
      by (induction k as [|k IHk]; cbn; [|rewrite IHk]; exact Hfix).
    rewrite E. exact Hw. }
  assert (Ks : forall k, within_tolerance v (ema_steady EMA_ALPHA_SHORT v k)).
  { destruct Hv as [Hz|[Hz|Hn]].
    - apply Zero; [subst v; reflexivity|].
      apply within_tolerance_refl_zero. auto.
    - apply Zero; [subst v; reflexivity|].
      apply within_tolerance_refl_zero. auto.
    - intros k. apply short_alpha_tolerance, Hn. }
  assert (Kl : forall k, within_tolerance v (ema_steady EMA_ALPHA_LONG v k)).
  { destruct Hv as [Hz|[Hz|Hn]].
    - apply Zero; [subst v; reflexivity|].
      apply within_tolerance_refl_zero. auto.
    - apply Zero; [subst v; reflexivity|].
      apply within_tolerance_refl_zero. auto.
    - intros k. apply long_alpha_tolerance, Hn. }
  split; [exact (Tol _ _ Ks S2 S1)|]. split; [exact S2|].
  split; [exact (Tol _ _ Kl L2 L1)|]. split; [exact L2|].
  split; [exact S3|exact L3].
Qed.

(** C8 on the short filter: seven accepted samples at the double nearest
    3413.4 Hz, more than the five median slots. *)
Lemma identical_samples_fixed_point_witness :
  Forall (fun r =>
            median_of_copy (peak_buf (fst r)) (buf_count (fst r))
            = 0x1.aaacccccccccdp+11%float
            /\ snd r = ema (fst r)
            /\ within_tolerance 0x1.aaacccccccccdp+11 (snd r))
    (filter_trace update_short_peak_filter short_filter_init
       (map (fun m => (0x1.aaacccccccccdp+11%float, m))
            [2; 1; 2; 5; 2; 2; 9]%float)).
Proof.
  refine (proj1 (identical_samples_fixed_point
                   0x1.aaacccccccccdp+11%float
                   [2; 1; 2; 5; 2; 2; 9]%float _ _)).
  - right. right. reflexivity.
  - repeat constructor.
Defined.

(** The outputs need not be [v] bit for bit: fed the double nearest 3413.4
    with magnitude 2, the short filter returns 0x1.aaacccccccccep+11 at every
    call, one unit in the last place above the value fed. *)
Lemma identical_samples_not_returned :
  (2 <? MAG_THRESHOLD_SHORT)%float = false /\
  map snd
    (filter_trace update_short_peak_filter short_filter_init
       (map (fun m => (0x1.aaacccccccccdp+11%float, m)) [2; 2; 2]%float))
  = [0x1.aaacccccccccep+11; 0x1.aaacccccccccep+11;
     0x1.aaacccccccccep+11]%float /\
  (0x1.aaacccccccccep+11 =? 0x1.aaacccccccccdp+11)%float = false.
Proof. vm_compute. repeat split; reflexivity. Qed.

(** ** WindowAccumulator *)

Lemma wrap32_small (n : N) : (n < 2 ^ 32)%N -> wrap32 n = n.
Proof. intros H. unfold wrap32, UINT_MOD. apply N.mod_small. exact H. Qed.



(** While the block fits, every sample is stored, in order. *)
Lemma accumulate_fold_fits (l : list Z) (buf : list Z) (idx : N) :
  Z.of_N idx + Z.of_nat (length l) <= LONG_SAMPLES ->
  (N.to_nat idx + length l <= length buf)%nat ->
  fold_left accumulate_step l (buf, idx)
  = (take (N.to_nat idx) buf ++ l ++ drop (N.to_nat idx + length l) buf,
     (idx + N.of_nat (length l))%N)
  /\ dropped_samples idx l = O.
Proof.
  revert buf idx. induction l as [|s l IH]; intros buf idx H Hlen.
  - cbn. rewrite Nat.add_0_r, take_drop, N.add_0_r. auto.
  - cbn [fold_left accumulate_step dropped_samples length] in *.
    unfold LONG_SAMPLES in *.
    replace (Z.of_N idx <? 4096) with true by lia.
    rewrite wrap32_small by lia.
    destruct (IH (<[N.to_nat idx := s]> buf) (idx + 1)%N) as [E D];
      [lia|rewrite length_insert; lia|].
    rewrite E, D. split; [|reflexivity]. f_equal; [|lia].
    replace (N.to_nat (idx + 1)) with (S (N.to_nat idx)) by lia.
    rewrite (take_S_r _ _ s) by (apply list_lookup_insert_eq; lia).
    rewrite take_insert_ge by lia.
    rewrite drop_insert_lt by lia.
    rewrite <- app_assoc. cbn [app].
    replace (S (N.to_nat idx) + length l)%nat
      with (N.to_nat idx + S (length l))%nat by lia.
    reflexivity.
Qed.

(** ** ProducerOrchestrator *)

Section ProducerFacts.

Context (log10 : double -> double) (pow : double -> double -> double)
  (fft_windowing : list double -> list double)
  (fft_compute : list double * list double -> list double * list double).

Local Abbreviation short_window' :=
  (short_window log10 pow fft_windowing fft_compute).
Local Abbreviation long_window' :=
  (long_window log10 pow fft_windowing fft_compute).
Local Abbreviation process_block' :=
  (process_block log10 pow fft_windowing fft_compute).
Local Abbreviation loop2_iter' :=
  (loop2_iter log10 pow fft_windowing fft_compute).
Local Abbreviation loop2_run' :=
  (loop2_run log10 pow fft_windowing fft_compute).
Local Abbreviation long_window_runs' :=
  (long_window_runs log10 pow fft_windowing fft_compute).
Local Abbreviation blocks_delivered' :=
  (blocks_delivered log10 pow fft_windowing fft_compute).
Local Abbreviation long_computations' :=
  (long_computations log10 pow fft_windowing fft_compute).

(** What the short-window processing leaves alone. *)
Lemma short_window_frame (st : state) (block : list Z) :
  let st' := short_window' st block in
  long_buffer st' = long_buffer st /\ long_idx st' = long_idx st
  /\ long_filter st' = long_filter st
  /\ fireAlarmLong st' = fireAlarmLong st /\ last st' = last st
  /\ metricsQueue st' = metricsQueue st
  /\ peakHzLong (metrics st') = peakHzLong (metrics st)
  /\ fireLongDetected (metrics st') = fireLongDetected (metrics st).
Proof.
  unfold short_window.
  destruct (window_peak _ _ _ _ _ _) as [a b].
  destruct (update_short_peak_filter _ _ _) as [f s].
  destruct (detect_short _ _) as [m d]. cbn. repeat split.
Qed.

(** What the long-window processing leaves alone; it resets the index. *)
Lemma long_window_frame (st : state) :
  let st' := long_window' st in
  long_buffer st' = long_buffer st /\ long_idx st' = 0%N
  /\ short_filter st' = short_filter st /\ fireAlarm st' = fireAlarm st
  /\ last st' = last st /\ metricsQueue st' = metricsQueue st.
Proof.
  unfold long_window.
  destruct (window_peak _ _ _ _ _ _) as [a b].
  destruct (update_long_peak_filter _ _ _) as [f s].
  destruct (detect_long _ _) as [m d]. cbn. repeat split.
Qed.

Lemma process_block_eq (st : state) (block : list Z) :
  process_block' st block
  = publish
      (if long_ready (short_window' (store_block st block) block)
       then long_window' (short_window' (store_block st block) block)
       else short_window' (store_block st block) block).
Proof. reflexivity. Qed.

Lemma store_block_frame (st : state) (block : list Z) :
  long_buffer (store_block st block)
  = fst (accumulate (long_buffer st) (long_idx st) block)
  /\ long_idx (store_block st block)
     = snd (accumulate (long_buffer st) (long_idx st) block)
  /\ metrics (store_block st block) = metrics st
  /\ metricsQueue (store_block st block) = metricsQueue st.
Proof.
  unfold store_block. destruct (accumulate _ _ _) as [b i]. cbn. auto.
Qed.

Lemma loop2_iter_skip (st : state) (inp : loop_input) :
  delivers st inp = false ->
  loop2_iter' st inp = st
  \/ loop2_iter' st inp = set_last st (micros_start inp).
Proof.
  unfold delivers, loop2_iter. destruct (not_due st inp); [now left|].
  destruct (read_failed inp); [now right|discriminate].
Qed.

Lemma loop2_iter_deliver (st : state) (inp : loop_input) :
  delivers st inp = true ->
  loop2_iter' st inp
  = process_block' (set_last st (micros_start inp)) (samples inp).
Proof.
  unfold delivers, loop2_iter. destruct (not_due st inp); [discriminate|].
  destruct (read_failed inp); [discriminate|reflexivity].
Qed.

(** The long index after a processed block, from a multiple of the block
    size. *)
Lemma process_block_long_idx (st : state) (block : list Z) (j : Z) :
  length block = Z.to_nat BLOCK_SIZE ->
  length (long_buffer st) = Z.to_nat LONG_SAMPLES ->
  Z.of_N (long_idx st) = BLOCK_SIZE * j -> 0 <= j < 4 ->
  long_ready (short_window' (store_block st block) block) = (j =? 3)
  /\ Z.of_N (long_idx (process_block' st block))
     = BLOCK_SIZE * ((j + 1) mod 4)
  /\ length (long_buffer (process_block' st block)) = Z.to_nat LONG_SAMPLES.
Proof.
  intros Hb Hlen Hidx Hj.
  destruct (store_block_frame st block) as (Sb & Si & _ & _).
  unfold accumulate in Sb, Si.
  rewrite take_ge in Sb, Si by lia.
  unfold BLOCK_SIZE, SAMPLES, LONG_SAMPLES in *.
  destruct (accumulate_fold_fits block (long_buffer st) (long_idx st))
    as [E _]; [unfold LONG_SAMPLES; lia|lia|].
  rewrite E in Sb, Si. cbn [fst snd] in Sb, Si.
  set (s1 := store_block st block) in *.
  destruct (short_window_frame s1 block) as (Wb & Wi & _).
  assert (Hready : long_ready (short_window' s1 block) = (j =? 3)).
  { unfold long_ready, LONG_SAMPLES. rewrite Wi, Si.
    destruct (Z.eqb_spec j 3); [apply Z.leb_le|apply Z.leb_gt]; lia. }
  split; [exact Hready|]. rewrite process_block_eq. fold s1. rewrite Hready.
  unfold publish. cbn [long_idx long_buffer].
  destruct (Z.eqb_spec j 3) as [->|Hne].
  - destruct (long_window_frame (short_window' s1 block)) as (Lb & Li & _).
    rewrite Lb, Li, Wb, Sb. split; [reflexivity|].
    rewrite !length_app, length_take, length_drop. lia.
  - rewrite Wb, Wi, Sb, Si. split.
    + rewrite Z.mod_small by lia. lia.
    + rewrite !length_app, length_take, length_drop. lia.
Qed.

(** Along any run the long index is the block size times the number of
    blocks processed modulo 4, and the long-window pipeline has run once per
    four blocks. *)
Lemma run_long_idx (inputs : list loop_input) (st : state) (j : Z) :
  Forall block_ok inputs ->
  length (long_buffer st) = Z.to_nat LONG_SAMPLES ->
  Z.of_N (long_idx st) = BLOCK_SIZE * j -> 0 <= j < 4 ->
  let n := Z.of_nat (blocks_delivered' st inputs) in
  Z.of_N (long_idx (loop2_run' st inputs)) = BLOCK_SIZE * ((j + n) mod 4)
  /\ Z.of_nat (long_computations' st inputs) = (j + n) / 4
  /\ length (long_buffer (loop2_run' st inputs)) = Z.to_nat LONG_SAMPLES.
Proof.
  intros Hok. revert st j.
  induction Hok as [|inp inputs Hinp _ IH]; intros st j Hlen Hidx Hj n.
  - subst n. cbn. rewrite Z.add_0_r, Z.mod_small, Z.div_small by lia. auto.
  - subst n. cbn [blocks_delivered long_computations loop2_run fold_left].
    unfold long_window_runs.
    destruct (delivers st inp) eqn:Hd.
    + rewrite (loop2_iter_deliver st inp Hd).
      destruct (process_block_long_idx (set_last st (micros_start inp))
                  (samples inp) j Hinp Hlen Hidx Hj) as (Hr & Hi & Hl).
      cbn [andb]. rewrite Hr.
      assert (Hj' : 0 <= (j + 1) mod 4 < 4) by (apply Z.mod_pos_bound; lia).
      destruct (IH _ _ Hl Hi Hj') as (I1 & I2 & I3).
      fold (loop2_run' (process_block' (set_last st (micros_start inp))
                          (samples inp)) inputs).
      rewrite I1, I3. rewrite !Nat2Z.inj_add, I2.
      set (n' := Z.of_nat (blocks_delivered' _ inputs)) in *.
      assert (0 <= n') by lia.
      repeat split.
      * f_equal. destruct (Z.eqb_spec j 3); cbn [Z.of_nat];
          Z.div_mod_to_equations; lia.
      * destruct (Z.eqb_spec j 3); cbn [Z.of_nat];
          Z.div_mod_to_equations; lia.
    + cbn [andb Nat.add].
      assert (Hsame : long_idx (loop2_iter' st inp) = long_idx st
                      /\ long_buffer (loop2_iter' st inp) = long_buffer st).
      { destruct (loop2_iter_skip st inp Hd) as [-> | ->]; auto. }
      destruct Hsame as [Hi Hl].
      apply IH; [rewrite Hl|rewrite Hi|]; assumption.
Qed.

Lemma loop2_init_long (now : N) :
  length (long_buffer (loop2_init now)) = Z.to_nat LONG_SAMPLES
  /\ Z.of_N (long_idx (loop2_init now)) = BLOCK_SIZE * 0.
Proof. split; [apply length_replicate|reflexivity]. Qed.

(** The snapshot written at the end of a processed block. *)
Lemma process_block_metrics (st : state) (block : list Z) :
  let st' := process_block' st block in
  metricsQueue st' = [metrics st']
  /\ fireAlarmDetected (metrics st')
     = fireShortDetected (metrics st') || fireLongDetected (metrics st')
  /\ (long_ready (short_window' (store_block st block) block) = false ->
      fireLongDetected (metrics st') = fireLongDetected (metrics st)
      /\ peakHzLong (metrics st') = peakHzLong (metrics st)).
Proof.
  rewrite process_block_eq. unfold publish, xQueueOverwrite.
  cbn [metricsQueue metrics fireAlarmDetected fireShortDetected
         fireLongDetected peakHzLong].
  split; [reflexivity|]. split; [reflexivity|]. intros Hr. rewrite Hr.
  destruct (short_window_frame (store_block st block) block)
    as (_ & _ & _ & _ & _ & _ & Hp & Hf).
  destruct (store_block_frame st block) as (_ & _ & Hm & _).
  rewrite Hp, Hf, Hm. split; reflexivity.
Qed.

Lemma snapshot_inv_iter (st : state) (inp : loop_input) :
  snapshot_inv st -> snapshot_inv (loop2_iter' st inp).
Proof.
  intros H. destruct (delivers st inp) eqn:Hd.
  - rewrite (loop2_iter_deliver st inp Hd).
    destruct (process_block_metrics (set_last st (micros_start inp))
                (samples inp)) as (Hq & Hor & _).
    unfold snapshot_inv. rewrite Hq. auto.
  - destruct (loop2_iter_skip st inp Hd) as [-> | ->]; exact H.
Qed.

Lemma snapshot_inv_run (inputs : list loop_input) (st : state) :
  snapshot_inv st -> snapshot_inv (loop2_run' st inputs).
Proof.
  revert st. induction inputs as [|inp inputs IH]; intros st H; [exact H|].
  apply IH, snapshot_inv_iter, H.
Qed.

Lemma run_without_delivery (inputs : list loop_input) (st : state) :
  blocks_delivered' st inputs = O ->
  metricsQueue (loop2_run' st inputs) = metricsQueue st.
Proof.
  revert st. induction inputs as [|inp inputs IH]; intros st H; [reflexivity|].
  cbn [blocks_delivered] in H. destruct (delivers st inp) eqn:Hd; [lia|].
  cbn [loop2_run fold_left]. fold (loop2_run' (loop2_iter' st inp) inputs).
  rewrite IH by lia.
  destruct (loop2_iter_skip st inp Hd) as [-> | ->]; reflexivity.
Qed.


(** C10: in the loop as written the long index at the start of an iteration
    is 0, 1024, 2048 or 3072, so a block always fits: none of its samples is
    dropped and all are stored in order behind the index. *)
Theorem long_index_block_aligned (now : N) (inputs : list loop_input) :
  Forall block_ok inputs ->
  let st := loop2_run' (loop2_init now) inputs in
  In (long_idx st) [0; 1024; 2048; 3072]%N
  /\ Z.of_N (long_idx st) < LONG_SAMPLES
  /\ forall block : list Z,
       length block = Z.to_nat BLOCK_SIZE ->
       dropped_samples (long_idx st) (take (Z.to_nat BLOCK_SIZE) block) = O
       /\ accumulate (long_buffer st) (long_idx st) block
          = (take (N.to_nat (long_idx st)) (long_buffer st) ++ block
             ++ drop (N.to_nat (long_idx st) + Z.to_nat BLOCK_SIZE)
                  (long_buffer st),
             (long_idx st + 1024)%N).
Proof.
  intros Hok st.
  destruct (loop2_init_long now) as [Hl Hi].
  destruct (run_long_idx inputs (loop2_init now) 0 Hok Hl Hi ltac:(lia))
    as (H1 & _ & H3).
  fold st in H1, H3. cbv zeta in H1.
  set (n := Z.of_nat (blocks_delivered' (loop2_init now) inputs)) in *.
  assert (Hm : 0 <= (0 + n) mod 4 < 4) by (apply Z.mod_pos_bound; lia).
  unfold BLOCK_SIZE, SAMPLES, LONG_SAMPLES in *.
  split; [|split; [lia|]].
  - assert (E : long_idx st = N.of_nat (Z.to_nat (1024 * ((0 + n) mod 4))))
      by lia.
    rewrite E.
    assert (Hc : (0 + n) mod 4 = 0 \/ (0 + n) mod 4 = 1
                 \/ (0 + n) mod 4 = 2 \/ (0 + n) mod 4 = 3) by lia.
    destruct Hc as [-> | [-> | [-> | ->]]]; cbn; auto.
  - intros block Hb. unfold accumulate, BLOCK_SIZE, SAMPLES.
    rewrite !take_ge by lia.
    destruct (accumulate_fold_fits block (long_buffer st) (long_idx st))
      as [E D]; [unfold LONG_SAMPLES; lia|lia|].
    rewrite E, D, Hb. split; [reflexivity|]. f_equal.
Qed.

(** C5: an iteration whose read fails or returns no byte only records its
    start time; both filters, both history registers, the long buffer and
    its index, the [metrics] local and the queue stay as they were. *)
Theorem failed_read_changes_nothing (st : state) (inp : loop_input) :
  not_due st inp = false ->
  err_ok inp = false \/ num_bytes_read inp = 0%N ->
  let st' := loop2_iter' st inp in
  short_filter st' = short_filter st /\ long_filter st' = long_filter st
  /\ fireAlarm st' = fireAlarm st /\ fireAlarmLong st' = fireAlarmLong st
  /\ long_idx st' = long_idx st /\ long_buffer st' = long_buffer st
  /\ metrics st' = metrics st /\ metricsQueue st' = metricsQueue st
  /\ last st' = micros_start inp.
Proof.
  intros Hdue Hfail st'. subst st'. unfold loop2_iter. rewrite Hdue.
  assert (Hr : read_failed inp = true).
  { unfold read_failed. destruct Hfail as [-> | ->]; [reflexivity|].
    apply orb_true_r. }
  rewrite Hr. cbn. repeat split.
Qed.

(** C6: along a run from the initial state every snapshot in the queue has
    [fireAlarmDetected = fireShortDetected || fireLongDetected]; and a
    processed block in which the long window did not complete publishes the
    long-window fields of the snapshot published before it, or [false] and 0
    when there was none. *)
Theorem snapshot_fusion_and_carry (now : N) (inputs : list loop_input) :
  let st := loop2_run' (loop2_init now) inputs in
  (forall m : Metrics,
     xQueuePeek (metricsQueue st) = Some m ->
     fireAlarmDetected m = fireShortDetected m || fireLongDetected m)
  /\
  (forall inp : loop_input,
     delivers st inp = true -> long_window_runs' st inp = false ->
     exists m : Metrics,
       xQueuePeek (metricsQueue (loop2_iter' st inp)) = Some m
       /\ fireAlarmDetected m = fireShortDetected m || fireLongDetected m
       /\ match xQueuePeek (metricsQueue st) with
          | Some prev =>
              fireLongDetected m = fireLongDetected prev
              /\ peakHzLong m = peakHzLong prev
          | None =>
              fireLongDetected m = false /\ peakHzLong m = 0%float
          end).
Proof.
  intros st.
  assert (Hinv : snapshot_inv st)
    by (apply snapshot_inv_run; reflexivity).
  split.
  - intros m Hm. unfold snapshot_inv in Hinv.
    destruct (metricsQueue st) as [|m' rest]; [discriminate|].
    cbn in Hm. injection Hm as ->. apply Hinv.
  - intros inp Hd Hl.
    rewrite (loop2_iter_deliver st inp Hd).
    unfold long_window_runs in Hl. rewrite Hd in Hl. cbn [andb] in Hl.
    destruct (process_block_metrics (set_last st (micros_start inp))
                (samples inp)) as (Hq & Hor & Hcarry).
    destruct (Hcarry Hl) as [Hf Hp]. cbn [set_last metrics] in Hf, Hp.
    eexists. rewrite Hq. split; [reflexivity|]. split; [exact Hor|].
    unfold snapshot_inv in Hinv.
    destruct (metricsQueue st) as [|prev rest]; cbn [xQueuePeek head].
    + rewrite Hf, Hp, Hinv. split; reflexivity.
    + destruct Hinv as (_ & -> & _). split; assumption.
Qed.

(** C7: writing to the queue replaces whatever it held by the one new
    snapshot; reading gives the snapshot at the front and leaves the queue as
    it was, so a second read sees the same; each processed block ends with
    its snapshot in the queue, other iterations leave the queue alone; and
    as long as no block has been processed the queue is empty and
    [handleMetrics] answers 204 with an empty document. *)
Theorem metrics_queue_single_slot :
  (forall (q : queue) (m : Metrics),
     xQueueOverwrite q m = [m]
     /\ xQueuePeek (xQueueOverwrite q m) = Some m)
  /\
  (forall q : queue,
     snd (handleMetrics (Some q)) = Some q
     /\ handleMetrics (snd (handleMetrics (Some q))) = handleMetrics (Some q)
     /\ (xQueuePeek q = None ->
         fst (handleMetrics (Some q))
         = mkResponse 204 "application/json" [])
     /\ (forall m : Metrics,
          xQueuePeek q = Some m ->
          status_code (fst (handleMetrics (Some q))) = 200
          /\ body (fst (handleMetrics (Some q)))
             = [("peakHzShort"%string, JFloat (peakHzShort m));
                ("peakHzLong"%string, JFloat (peakHzLong m));
                ("fireAlarmDetected"%string, JBool (fireAlarmDetected m));
                ("fireShortDetected"%string, JBool (fireShortDetected m));
                ("fireLongDetected"%string, JBool (fireLongDetected m))]))
  /\
  (forall (st : state) (inp : loop_input),
     (delivers st inp = true ->
      metricsQueue (loop2_iter' st inp) = [metrics (loop2_iter' st inp)])
     /\ (delivers st inp = false ->
         metricsQueue (loop2_iter' st inp) = metricsQueue st))
  /\
  (forall (now : N) (inputs : list loop_input),
     blocks_delivered' (loop2_init now) inputs = O ->
     xQueuePeek (metricsQueue (loop2_run' (loop2_init now) inputs)) = None
     /\ status_code
          (fst (handleMetrics
                  (Some (metricsQueue (loop2_run' (loop2_init now) inputs)))))
        = 204).
Proof.
  split; [|split; [|split]].
  - intros q m. split; reflexivity.
  - intros q. unfold handleMetrics.
    destruct (xQueuePeek q) as [m|] eqn:E; cbn [fst snd]; rewrite ?E.
    + split; [reflexivity|]. split; [reflexivity|].
      split; [discriminate|].
      intros m' Hm. injection Hm as ->. split; reflexivity.
    + split; [reflexivity|]. split; [reflexivity|].
      split; [reflexivity|discriminate].
  - intros st inp. split; intros Hd.
    + rewrite (loop2_iter_deliver st inp Hd).
      apply process_block_metrics.
    + destruct (loop2_iter_skip st inp Hd) as [-> | ->]; reflexivity.
  - intros now inputs Hn.
    rewrite (run_without_delivery inputs (loop2_init now) Hn).
    split; reflexivity.
Qed.

End ProducerFacts.

(** ** The theorems of the producer loop on concrete runs

    The runs use the stand-ins [log10_tab], [pow_tab] and the identity
    transform. *)


(** C10 after two processed blocks. *)
Lemma long_index_block_aligned_witness :
  In (long_idx (loop2_run log10_tab pow_tab fft_windowing_id fft_compute_id
                  (loop2_init 0) [good_input 1 65536; good_input 2 0]))
     [0; 1024; 2048; 3072]%N.
Proof.
  refine (proj1 (long_index_block_aligned log10_tab pow_tab fft_windowing_id
    fft_compute_id 0%N [good_input 1 65536; good_input 2 0] _)).
  repeat constructor.
Defined.

(** C5 on a failed read after one processed block. *)
Lemma failed_read_changes_nothing_witness :
  let st :=
    loop2_iter log10_tab pow_tab fft_windowing_id fft_compute_id
      (loop2_init 0) (good_input 1 65536) in
  let st' :=
    loop2_iter log10_tab pow_tab fft_windowing_id fft_compute_id st
      (failed_input 2) in
  short_filter st' = short_filter st /\ long_filter st' = long_filter st
  /\ fireAlarm st' = fireAlarm st /\ fireAlarmLong st' = fireAlarmLong st
  /\ long_idx st' = long_idx st /\ long_buffer st' = long_buffer st
  /\ metrics st' = metrics st /\ metricsQueue st' = metricsQueue st
  /\ last st' = micros_start (failed_input 2).
Proof.
  intros st.
  apply (failed_read_changes_nothing log10_tab pow_tab fft_windowing_id
           fft_compute_id st (failed_input 2)).
  - vm_compute. reflexivity.
  - left. reflexivity.
Defined.

(** C6 on the second processed block of a run. *)
Lemma snapshot_fusion_and_carry_witness :
  let st :=
    loop2_run log10_tab pow_tab fft_windowing_id fft_compute_id
      (loop2_init 0) [good_input 1 65536] in
  exists m : Metrics,
    xQueuePeek
      (metricsQueue
         (loop2_iter log10_tab pow_tab fft_windowing_id fft_compute_id st
            (good_input 2 0))) = Some m
    /\ fireAlarmDetected m = fireShortDetected m || fireLongDetected m
    /\ match xQueuePeek (metricsQueue st) with
       | Some prev =>
           fireLongDetected m = fireLongDetected prev
           /\ peakHzLong m = peakHzLong prev
       | None => fireLongDetected m = false /\ peakHzLong m = 0%float
       end.
Proof.
  intros st.
  refine (proj2 (snapshot_fusion_and_carry log10_tab pow_tab fft_windowing_id
    fft_compute_id 0%N [good_input 1 65536]) (good_input 2 0) _ _).
  - vm_compute. reflexivity.
  - vm_compute. reflexivity.
Defined.

(** C7 before any block has been processed: a failed read and an iteration
    that is not due leave the queue empty. *)
Lemma metrics_queue_single_slot_witness :
  xQueuePeek
    (metricsQueue
       (loop2_run log10_tab pow_tab fft_windowing_id fft_compute_id
          (loop2_init 0) [failed_input 1; early_input 50010])) = None
  /\ status_code
       (fst (handleMetrics
               (Some
                  (metricsQueue
                     (loop2_run log10_tab pow_tab fft_windowing_id
                        fft_compute_id (loop2_init 0)
                        [failed_input 1; early_input 50010]))))) = 204.
Proof.
  refine (proj2 (proj2 (proj2 (metrics_queue_single_slot log10_tab pow_tab
    fft_windowing_id fft_compute_id))) 0%N
    [failed_input 1; early_input 50010] _).
  vm_compute. reflexivity.
Defined.

(** * Further properties *)

(** ** The order of binary64 values *)

Ltac sf_order :=
  repeat match goal with
    | H : context [Z.compare ?a ?b] |- _ => destruct (Z.compare_spec a b)
    | |- context [Z.compare ?a ?b] => destruct (Z.compare_spec a b)
    end;
  rewrite ?Pos.compare_cont_spec in *; cbn in *;
  repeat match goal with
    | H : context [Pos.compare ?a ?b] |- _ => destruct (Pos.compare_spec a b)
    | |- context [Pos.compare ?a ?b] => destruct (Pos.compare_spec a b)
    end;
  cbn in *; try discriminate; try reflexivity; try lia.

Lemma SFltb_trans (a b c : spec_float) :
  SFltb a b = true -> SFltb b c = true -> SFltb a c = true.
Proof.
  unfold SFltb.
  destruct a as [[]|[]| |[] ma ea], b as [[]|[]| |[] mb eb],
    c as [[]|[]| |[] mc ec]; cbn; try discriminate; try reflexivity;
    intros H1 H2; sf_order.
Qed.

Lemma SFltb_asym (a b : spec_float) :
  SFltb a b = true -> SFltb b a = false.
Proof.
  unfold SFltb.
  destruct a as [[]|[]| |[] ma ea], b as [[]|[]| |[] mb eb]; cbn;
    try discriminate; try reflexivity; intros H1; sf_order.
Qed.

(** Of two values that are not NaN, one is below the other or they compare
    equal. *)
Lemma SFltb_total (a b : spec_float) :
  a <> S754_nan -> b <> S754_nan ->
  SFltb a b = false -> SFleb b a = true.
Proof.
  unfold SFltb, SFleb.
  destruct a as [[]|[]| |[] ma ea], b as [[]|[]| |[] mb eb]; cbn;
    try discriminate; try reflexivity; try congruence; intros _ _ H1;
    sf_order.
Qed.

Lemma SFleb_ltb_trans (a b c : spec_float) :
  SFleb a b = true -> SFltb b c = true -> SFltb a c = true.
Proof.
  unfold SFltb, SFleb.
  destruct a as [[]|[]| |[] ma ea], b as [[]|[]| |[] mb eb],
    c as [[]|[]| |[] mc ec]; cbn; try discriminate; try reflexivity;
    intros H1 H2; sf_order.
Qed.

Lemma SFleb_trans (a b c : spec_float) :
  SFleb a b = true -> SFleb b c = true -> SFleb a c = true.
Proof.
  unfold SFleb.
  destruct a as [[]|[]| |[] ma ea], b as [[]|[]| |[] mb eb],
    c as [[]|[]| |[] mc ec]; cbn; try discriminate; try reflexivity;
    intros H1 H2; sf_order.
Qed.

Lemma ltb_trans (a b c : float) :
  (a <? b)%float = true -> (b <? c)%float = true -> (a <? c)%float = true.
Proof. rewrite !FloatAxioms.ltb_spec. apply SFltb_trans. Qed.

Lemma ltb_asym (a b : float) :
  (a <? b)%float = true -> (b <? a)%float = false.
Proof. rewrite !FloatAxioms.ltb_spec. apply SFltb_asym. Qed.

Lemma is_nan_SF (a : float) : is_nan a = false <-> Prim2SF a <> S754_nan.
Proof.
  unfold is_nan. rewrite FloatAxioms.eqb_spec. unfold SFeqb.
  destruct (SFcompare_refl (Prim2SF a)) as [E|E]; rewrite E; cbn;
    destruct (Prim2SF a) as [[]|[]| |[] ma ea]; cbn in *;
    split; intros H; try congruence; try discriminate.
Qed.

Lemma ltb_nan_l (a b : float) : (a <? b)%float = true -> is_nan a = false.
Proof.
  rewrite FloatAxioms.ltb_spec. intros H. apply is_nan_SF. intros E.
  rewrite E in H. discriminate H.
Qed.

Lemma ltb_nan_r (a b : float) : (a <? b)%float = true -> is_nan b = false.
Proof.
  rewrite FloatAxioms.ltb_spec. intros H. apply is_nan_SF. intros E.
  rewrite E in H. unfold SFltb in H.
  destruct (Prim2SF a); discriminate H.
Qed.

Lemma ltb_total (a b : float) :
  is_nan a = false -> is_nan b = false ->
  (a <? b)%float = false -> (b <=? a)%float = true.
Proof.
  rewrite FloatAxioms.ltb_spec, FloatAxioms.leb_spec, !is_nan_SF.
  apply SFltb_total.
Qed.

Lemma leb_ltb_trans (a b c : float) :
  (a <=? b)%float = true -> (b <? c)%float = true -> (a <? c)%float = true.
Proof.
  rewrite !FloatAxioms.ltb_spec, FloatAxioms.leb_spec. apply SFleb_ltb_trans.
Qed.

Lemma leb_trans (a b c : float) :
  (a <=? b)%float = true -> (b <=? c)%float = true -> (a <=? c)%float = true.
Proof. rewrite !FloatAxioms.leb_spec. apply SFleb_trans. Qed.

(** ** PeakEstimator: the maximum search *)

Section ScanFacts.

Context (vReal vImag : list double).

Local Abbreviation mag := (bin_mag vReal vImag).

(** The search after its first [n] bins. *)
Lemma scan_prefix_inv (n : nat) :
  let r :=
    fold_left (scan_step vReal vImag) (seqZ 1 (Z.of_nat n)) (0%float, 0) in
  (forall i, 1 <= i <= Z.of_nat n -> (fst r <? mag i)%float = false)
  /\ is_nan (fst r) = false
  /\ (snd r = 0 -> fst r = 0%float)
  /\ (snd r <> 0 ->
      1 <= snd r <= Z.of_nat n /\ fst r = mag (snd r)
      /\ (0 <? fst r)%float = true
      /\ forall i, 1 <= i < snd r ->
           (mag i <? fst r)%float = true \/ is_nan (mag i) = true).
Proof.
  induction n as [|n IH].
  - cbn. split; [|split; [|split]].
    + intros i Hi. lia.
    + reflexivity.
    + reflexivity.
    + intros H. now destruct H.
  - rewrite seqZ_S, fold_left_app. cbn [fold_left].
    destruct (fold_left (scan_step vReal vImag) (seqZ 1 (Z.of_nat n))
                (0%float, 0)) as [maxY idx].
    cbn [fst snd] in IH. destruct IH as (Ia & Ib & Ic & Id).
    unfold scan_step. cbn [fst].
    destruct (maxY <? mag (1 + Z.of_nat n))%float eqn:E; cbn [fst snd].
    + assert (Hpos : (0 <? mag (1 + Z.of_nat n))%float = true).
      { destruct (Z.eq_dec idx 0) as [Hz|Hz].
        - rewrite <- (Ic Hz). exact E.
        - destruct (Id Hz) as (_ & _ & Hp & _).
          exact (ltb_trans _ _ _ Hp E). }
      split; [|split; [|split]].
      * intros i Hi. destruct (Z.eq_dec i (1 + Z.of_nat n)) as [->|Hne].
        { apply ltb_irrefl. }
        destruct (mag (1 + Z.of_nat n) <? mag i)%float eqn:E2;
          [|reflexivity].
        rewrite <- (Ia i ltac:(lia)). symmetry.
        exact (ltb_trans _ _ _ E E2).
      * exact (ltb_nan_r _ _ E).
      * lia.
      * intros _. repeat split; try lia; try assumption.
        intros i Hi. destruct (is_nan (mag i)) eqn:Hn; [now right|left].
        eapply leb_ltb_trans; [|exact E].
        apply ltb_total; try assumption. apply Ia. lia.
    + split; [|split; [|split]]; try assumption.
      * intros i Hi. destruct (Z.eq_dec i (1 + Z.of_nat n)) as [->|Hne];
          [exact E|apply Ia; lia].
      * intros Hz. destruct (Id Hz) as (H1 & H2 & H3 & H4).
        repeat split; try lia; assumption.
Qed.

Lemma scan_max_prefix (half : Z) :
  scan_max vReal vImag half
  = fold_left (scan_step vReal vImag)
      (seqZ 1 (Z.of_nat (Z.to_nat (half - 2)))) (0%float, 0).
Proof.
  unfold scan_max. f_equal. unfold seqZ. rewrite Nat2Z.id. do 2 f_equal. lia.
Qed.

(** X1: the search returns the first largest magnitude of the scan range
    [1 .. half - 2]. No scanned bin has a magnitude above [maxY]. When
    [IndexOfMaxY] is 0, [maxY] is 0 and no scanned bin has a magnitude above
    0. Otherwise [IndexOfMaxY] is a scanned bin, so that both its neighbours
    are bins of the half spectrum, [maxY] is its magnitude and is positive,
    and every earlier scanned bin has a smaller magnitude or a NaN. *)
Theorem scan_max_first_maximum (half : Z) :
  let maxY := fst (scan_max vReal vImag half) in
  let IndexOfMaxY := snd (scan_max vReal vImag half) in
  (forall i, 1 <= i <= half - 2 -> (maxY <? mag i)%float = false)
  /\ is_nan maxY = false
  /\ (IndexOfMaxY = 0 ->
      maxY = 0%float
      /\ forall i, 1 <= i <= half - 2 -> (0 <? mag i)%float = false)
  /\ (IndexOfMaxY <> 0 ->
      1 <= IndexOfMaxY <= half - 2
      /\ 0 <= IndexOfMaxY - 1 /\ IndexOfMaxY + 1 <= half - 1
      /\ maxY = mag IndexOfMaxY
      /\ (0 <? maxY)%float = true
      /\ forall i, 1 <= i < IndexOfMaxY ->
           (mag i <? maxY)%float = true \/ is_nan (mag i) = true).
Proof.
  intros maxY IndexOfMaxY. subst maxY IndexOfMaxY.
  rewrite scan_max_prefix.
  destruct (scan_prefix_inv (Z.to_nat (half - 2))) as (Ia & Ib & Ic & Id).
  split; [|split; [|split]].
  - intros i Hi. apply Ia. lia.
  - exact Ib.
  - intros Hz. split; [exact (Ic Hz)|].
    intros i Hi. rewrite <- (Ic Hz). apply Ia. lia.
  - intros Hz. destruct (Id Hz) as (H1 & H2 & H3 & H4).
    repeat split; try lia; assumption.
Qed.

End ScanFacts.

(** ** AdaptivePeakFilter: the insertion sort of [median_of_copy] *)

Lemma ascending_app_cons (A B : list double) (x : double) :
  ascending (A ++ x :: B) = true
  <-> ascending A = true /\ ascending (x :: B) = true
      /\ (forall a, list.last A = Some a -> (x <? a)%float = false).
Proof.
  induction A as [|a A IH].
  - cbn [app list.last]. split; [intros H|intros (_ & H & _); exact H].
    repeat split; [exact H|discriminate].
  - destruct A as [|a2 A].
    + cbn [app ascending list.last]. rewrite andb_true_iff, negb_true_iff.
      split.
      * intros [H1 H2]. repeat split; [exact H2|].
        intros a' E. injection E as <-. exact H1.
      * intros (_ & H2 & H3). split; [apply H3; reflexivity|exact H2].
    + change (ascending ((a :: a2 :: A) ++ x :: B))
        with (negb (a2 <? a)%float && ascending ((a2 :: A) ++ x :: B)).
      change (ascending (a :: a2 :: A))
        with (negb (a2 <? a)%float && ascending (a2 :: A)).
      change (list.last (a :: a2 :: A)) with (list.last (a2 :: A)).
      rewrite !andb_true_iff, IH. tauto.
Qed.

Lemma ascending_app (A B : list double) :
  ascending (A ++ B) = true -> ascending A = true /\ ascending B = true.
Proof.
  destruct B as [|x B].
  - rewrite app_nil_r. auto.
  - rewrite ascending_app_cons. tauto.
Qed.

(** The inner loop moves the elements above [key] one place up and puts
    [key] below them, at some place [p]. *)
Lemma sort_shift_spec (key : double) (k : nat) (tmp : list double) :
  (k < length tmp)%nat ->
  exists p : nat,
    (p <= k)%nat
    /\ sort_shift key k tmp
       = take p tmp ++ key :: take (k - p) (drop p tmp) ++ drop (S k) tmp
    /\ Forall (fun x => (key <? x)%float = true) (take (k - p) (drop p tmp))
    /\ (forall y, list.last (take p tmp) = Some y -> (key <? y)%float = false).
Proof.
  revert tmp. induction k as [|k IH]; intros tmp Hk.
  - exists O. cbn [sort_shift]. split; [lia|].
    rewrite insert_take_drop by lia. cbn.
    split; [reflexivity|]. split; [constructor|discriminate].
  - cbn [sort_shift].
    assert (Hj : tmp !! k = Some (tmp !!! k))
      by (apply list_lookup_lookup_total_lt; lia).
    assert (Hs : exists z, tmp !! S k = Some z)
      by (apply lookup_lt_is_Some_2; lia).
    destruct Hs as [z Hz].
    set (y := tmp !!! k) in *.
    destruct (key <? y)%float eqn:E.
    + destruct (IH (<[S k := y]> tmp)) as (p & Hp & Heq & Hall & Hlast);
        [rewrite length_insert; lia|].
      exists p. split; [lia|].
      rewrite take_insert_ge in Heq, Hlast by lia.
      rewrite !drop_insert_ge in Heq by lia.
      rewrite drop_insert_ge in Hall by lia.
      rewrite take_insert_ge in Heq, Hall by lia.
      rewrite Nat.sub_diag, (drop_S _ _ _ Hz) in Heq. cbn [insert
        list_insert] in Heq.
      assert (Ht : take (S k - p) (drop p tmp)
                   = take (k - p) (drop p tmp) ++ [y]).
      { replace (S k - p)%nat with (S (k - p)) by lia.
        apply take_S_r. rewrite lookup_drop.
        replace (p + (k - p))%nat with k by lia. exact Hj. }
      rewrite Ht, Heq, <- !app_assoc. cbn [app].
      split; [reflexivity|]. split; [|exact Hlast].
      apply Forall_app. split; [exact Hall|]. repeat constructor. exact E.
    + exists (S k). split; [lia|].
      rewrite insert_take_drop by lia. rewrite Nat.sub_diag. cbn [take app].
      split; [reflexivity|]. split; [constructor|].
      intros y' Hl. rewrite (take_S_r _ _ y Hj), last_snoc in Hl.
      injection Hl as <-. exact E.
Qed.

(** One round of the outer loop on a sorted prefix of length [i]. *)
Lemma sort_round (t : list double) (i : nat) :
  (i < length t)%nat -> ascending (take i t) = true ->
  let t' := sort_shift (t !!! i) i t in
  length t' = length t
  /\ Permutation (take (S i) t') (take (S i) t)
  /\ drop (S i) t' = drop (S i) t
  /\ ascending (take (S i) t') = true.
Proof.
  intros Hi Hasc t'.
  assert (Hk : t !! i = Some (t !!! i))
    by (apply list_lookup_lookup_total_lt; lia).
  set (key := t !!! i) in *.
  destruct (sort_shift_spec key i t Hi) as (p & Hp & Heq & Hall & Hlast).
  fold t' in Heq.
  set (A := take p t) in *. set (B := take (i - p) (drop p t)) in *.
  assert (HA : length A = p) by (subst A; rewrite length_take; lia).
  assert (HB : length B = (i - p)%nat)
    by (subst B; rewrite length_take, length_drop; lia).
  assert (HAB : take i t = A ++ B).
  { subst A B. rewrite take_take_drop. f_equal. lia. }
  assert (Hlen : length (A ++ key :: B) = S i)
    by (rewrite length_app; cbn [length]; lia).
  assert (Heq' : t' = (A ++ key :: B) ++ drop (S i) t)
    by (rewrite Heq, <- app_assoc; reflexivity).
  assert (Htake : take (S i) t' = A ++ key :: B)
    by (rewrite Heq'; apply take_app_length'; lia).
  assert (Hdrop : drop (S i) t' = drop (S i) t)
    by (rewrite Heq'; apply drop_app_length'; lia).
  split; [|split; [|split]].
  - rewrite Heq', length_app, Hlen, length_drop. lia.
  - rewrite Htake, (take_S_r _ _ key Hk), HAB.
    rewrite <- Permutation_middle. apply Permutation_cons_append.
  - exact Hdrop.
  - rewrite Htake. rewrite HAB in Hasc.
    destruct (ascending_app _ _ Hasc) as [HascA HascB].
    apply ascending_app_cons. split; [exact HascA|]. split; [|exact Hlast].
    destruct B as [|b B']; [reflexivity|].
    change (ascending (key :: b :: B'))
      with (negb (b <? key)%float && ascending (b :: B')).
    rewrite HascB, andb_true_r, negb_true_iff. apply ltb_asym.
    inversion Hall; assumption.
Qed.

Lemma insertion_sort_rounds (tmp : list double) (len a : nat) (t : list double) :
  (1 <= a)%nat -> (a + len <= length tmp)%nat ->
  length t = length tmp -> Permutation (take a t) (take a tmp) ->
  drop a t = drop a tmp -> ascending (take a t) = true ->
  let s := fold_left (fun t i => sort_shift (t !!! i) i t) (seq a len) t in
  length s = length tmp
  /\ Permutation (take (a + len) s) (take (a + len) tmp)
  /\ drop (a + len) s = drop (a + len) tmp
  /\ ascending (take (a + len) s) = true.
Proof.
  revert a t. induction len as [|len IH]; intros a t Ha Hlen Hl Hp Hd Hasc s.
  - subst s. cbn [seq fold_left]. rewrite Nat.add_0_r. auto.
  - subst s. cbn [seq fold_left].
    destruct (sort_round t a ltac:(lia) Hasc) as (R1 & R2 & R3 & R4).
    replace (a + S len)%nat with (S a + len)%nat by lia.
    apply IH; try lia; try assumption.
    + rewrite R2.
      assert (Hk : t !! a = tmp !! a).
      { rewrite <- (Nat.add_0_r a), <- !lookup_drop, Hd. reflexivity. }
      destruct (tmp !! a) as [x|] eqn:Ex.
      * rewrite (take_S_r t a x Hk), (take_S_r tmp a x Ex).
        apply Permutation_app; [exact Hp|reflexivity].
      * apply lookup_ge_None in Ex. lia.
    + rewrite R3. replace (S a) with (a + 1)%nat by lia.
      rewrite <- !drop_drop, Hd. reflexivity.
Qed.

Lemma insertion_sort_sorted_perm_aux (tmp : list double) (n : nat) :
  (n <= length tmp)%nat ->
  length (insertion_sort tmp n) = length tmp
  /\ Permutation (take n (insertion_sort tmp n)) (take n tmp)
  /\ drop n (insertion_sort tmp n) = drop n tmp
  /\ ascending (take n (insertion_sort tmp n)) = true.
Proof.
  intros Hn. unfold insertion_sort.
  destruct n as [|n]; [cbn; auto|].
  replace (S n - 1)%nat with n by lia.
  change (S n) with (1 + n)%nat.
  apply insertion_sort_rounds; try lia; try reflexivity.
  destruct tmp; reflexivity.
Qed.

(** ** AdaptivePeakFilter: [median_of_copy] *)

Lemma count_where_app (P : double -> bool) (l k : list double) :
  count_where P (l ++ k) = (count_where P l + count_where P k)%nat.
Proof. induction l as [|x l IH]; cbn; [reflexivity|]. rewrite IH. lia. Qed.

Lemma count_where_perm (P : double -> bool) (l k : list double) :
  Permutation l k -> count_where P l = count_where P k.
Proof. induction 1; cbn; lia. Qed.

Lemma count_where_all (P : double -> bool) (l : list double) :
  Forall (fun x => P x = true) l -> count_where P l = length l.
Proof. induction 1 as [|x l Hx _ IH]; cbn; [reflexivity|]. rewrite Hx. lia. Qed.

Lemma count_where_le (P : double -> bool) (l : list double) :
  (count_where P l <= length l)%nat.
Proof. induction l as [|x l IH]; cbn; [lia|]. destruct (P x); lia. Qed.

Lemma leb_refl (a : float) : is_nan a = false -> (a <=? a)%float = true.
Proof.
  intros H. apply ltb_total; try assumption. apply ltb_irrefl.
Qed.

(** Without NaN, a list with no descent is sorted: its head is below all the
    rest. *)
Lemma ascending_head_le (a : double) (r : list double) :
  ascending (a :: r) = true ->
  Forall (fun x => is_nan x = false) (a :: r) ->
  Forall (fun x => (a <=? x)%float = true) r.
Proof.
  revert a. induction r as [|b r IH]; intros a Hasc Hn; [constructor|].
  change (ascending (a :: b :: r))
    with (negb (b <? a)%float && ascending (b :: r)) in Hasc.
  apply andb_true_iff in Hasc. destruct Hasc as [H1 H2].
  apply negb_true_iff in H1.
  inversion Hn as [|? ? Ha Hn']; subst.
  inversion Hn' as [|? ? Hb Hn'']; subst.
  assert (Hab : (a <=? b)%float = true) by (apply ltb_total; assumption).
  constructor; [exact Hab|].
  eapply Forall_impl; [apply (IH b H2 Hn')|].
  intros x Hx. cbn in Hx. exact (leb_trans _ _ _ Hab Hx).
Qed.

Lemma ascending_split (L R : list double) (m : double) :
  ascending (L ++ m :: R) = true ->
  Forall (fun x => is_nan x = false) (L ++ m :: R) ->
  Forall (fun x => (x <=? m)%float = true) L
  /\ Forall (fun x => (m <=? x)%float = true) R.
Proof.
  induction L as [|a L IH]; intros Hasc Hn.
  - split; [constructor|]. apply ascending_head_le; assumption.
  - cbn [app] in Hasc, Hn.
    pose proof (ascending_head_le a (L ++ m :: R) Hasc Hn) as Hall.
    assert (Hasc' : ascending (L ++ m :: R) = true).
    { destruct (L ++ m :: R) as [|b r] eqn:E; [reflexivity|].
      change (ascending (a :: b :: r))
        with (negb (b <? a)%float && ascending (b :: r)) in Hasc.
      apply andb_true_iff in Hasc. tauto. }
    inversion Hn as [|? ? Ha Hn']; subst.
    destruct (IH Hasc' Hn') as [I1 I2]. split; [|exact I2].
    constructor; [|exact I1].
    apply Forall_app in Hall. destruct Hall as [_ Hm].
    inversion Hm; assumption.
Qed.

Lemma ascending_tail (a : double) (r : list double) :
  ascending (a :: r) = true -> ascending r = true.
Proof.
  destruct r as [|b r]; [reflexivity|].
  change (ascending (a :: b :: r))
    with (negb (b <? a)%float && ascending (b :: r)).
  rewrite andb_true_iff. tauto.
Qed.

Lemma ascending_sorted (l : list double) (i j : nat) (a b : double) :
  ascending l = true -> Forall (fun x => is_nan x = false) l ->
  (i <= j)%nat -> l !! i = Some a -> l !! j = Some b ->
  (a <=? b)%float = true.
Proof.
  revert i j. induction l as [|x r IH]; intros i j Hasc Hn Hij Hi Hj;
    [discriminate|].
  inversion Hn as [|? ? Hx Hn']; subst.
  destruct i as [|i], j as [|j]; try lia; cbn in Hi, Hj.
  - injection Hi as <-. injection Hj as <-. apply leb_refl. exact Hx.
  - injection Hi as <-.
    pose proof (ascending_head_le x r Hasc Hn) as Hall.
    apply (proj1 (Forall_forall _ _) Hall).
    eapply list_elem_of_lookup_2. exact Hj.
  - apply (IH i j); try assumption; [eapply ascending_tail; eassumption|lia].
Qed.

(** X2: the insertion sort leaves the first [n] entries of [tmp] as a
    permutation of what they were, with no entry followed by a smaller one,
    and does not touch the entries behind them. When none of the first [n]
    entries is a NaN they end up sorted: an entry is at most every later
    one. *)
Theorem insertion_sort_sorted_permutation (tmp : list double) (n : nat) :
  (n <= length tmp)%nat ->
  let s := insertion_sort tmp n in
  length s = length tmp
  /\ Permutation (take n s) (take n tmp)
  /\ drop n s = drop n tmp
  /\ ascending (take n s) = true
  /\ (Forall (fun x => is_nan x = false) (take n tmp) ->
      forall (i j : nat) (a b : double),
        (i <= j < n)%nat -> s !! i = Some a -> s !! j = Some b ->
        (a <=? b)%float = true).
Proof.
  intros Hn s.
  destruct (insertion_sort_sorted_perm_aux tmp n Hn) as (S1 & S2 & S3 & S4).
  fold s in S1, S2, S3, S4.
  split; [exact S1|]. split; [exact S2|]. split; [exact S3|].
  split; [exact S4|].
  intros Hnan i j a b Hij Hi Hj.
  apply (ascending_sorted (take n s) i j); try assumption; try lia.
  - apply Forall_forall. intros x Hx.
    apply (proj1 (Forall_forall _ _) Hnan).
    apply list_elem_of_In, (Permutation_in x S2), list_elem_of_In, Hx.
  - rewrite lookup_take_lt by lia. exact Hi.
  - rewrite lookup_take_lt by lia. exact Hj.
Qed.

(** The entry picked by [median_of_copy] and its rank. *)
Lemma median_of_copy_rank (buffer : list double) (n : Z) :
  1 <= n <= 21 -> (Z.to_nat n <= length buffer)%nat ->
  let m := median_of_copy buffer n in
  let filled := take (Z.to_nat n) buffer in
  In m filled
  /\ (Forall (fun x => is_nan x = false) filled ->
      (Z.to_nat (n / 2) + 1
       <= count_where (fun x => (x <=? m)%float) filled)%nat
      /\ (Z.to_nat n - Z.to_nat (n / 2)
          <= count_where (fun x => (m <=? x)%float) filled)%nat).
Proof.
  intros Hn Hlen m filled. subst m. unfold median_of_copy.
  replace (21 <? n) with false by lia. replace (n <? 0) with false by lia.
  cbn [orb]. fold filled.
  assert (Hfl : length filled = Z.to_nat n)
    by (subst filled; rewrite length_take; lia).
  destruct (insertion_sort_sorted_perm_aux filled (Z.to_nat n) ltac:(lia))
    as (S1 & S2 & _ & S4).
  set (s := insertion_sort filled (Z.to_nat n)) in *.
  rewrite (take_ge filled) in S2 by lia.
  rewrite (take_ge s) in S2, S4 by lia.
  rewrite Z.quot_div_nonneg by lia.
  set (h := Z.to_nat (n / 2)).
  assert (Hh : (h < Z.to_nat n)%nat).
  { subst h. assert (n / 2 < n) by (apply Z.div_lt; lia).
    assert (0 <= n / 2) by (apply Z.div_pos; lia). lia. }
  assert (Hm : s !! h = Some (s !!! h))
    by (apply list_lookup_lookup_total_lt; lia).
  set (m := s !!! h) in *.
  split.
  - apply (Permutation_in m S2), list_elem_of_In.
    eapply list_elem_of_lookup_2. exact Hm.
  - intros Hnan.
    assert (Hs : s = take h s ++ m :: drop (S h) s)
      by (symmetry; apply take_drop_middle; exact Hm).
    assert (Hnan' : Forall (fun x => is_nan x = false) s).
    { apply Forall_forall. intros x Hx.
      apply (proj1 (Forall_forall _ _) Hnan).
      apply list_elem_of_In, (Permutation_in x S2), list_elem_of_In, Hx. }
    rewrite Hs in S4, Hnan'.
    destruct (ascending_split _ _ _ S4 Hnan') as [HL HR].
    assert (Hmm : (m <=? m)%float = true).
    { apply leb_refl. apply Forall_app in Hnan'. destruct Hnan' as [_ H].
      inversion H; assumption. }
    rewrite <- !(count_where_perm _ _ _ S2), Hs, !count_where_app.
    cbn [count_where]. rewrite Hmm.
    assert (C1 : count_where (fun x : double => (x <=? m)%float) (take h s)
                 = length (take h s))
      by (apply count_where_all; exact HL).
    assert (C2 : count_where (fun x : double => (m <=? x)%float)
                   (drop (S h) s) = length (drop (S h) s))
      by (apply count_where_all; exact HR).
    rewrite C1, C2, length_take, length_drop. lia.
Qed.

(** X3: for [1 <= n <= 21] filled entries, [median_of_copy] returns one of
    the first [n] entries of the buffer. When none of them is a NaN it is
    their median: at least [n/2 + 1] of them are at most the result and at
    least [n - n/2] of them are at least the result. *)
Theorem median_of_copy_is_median (buffer : list double) (n : Z) :
  1 <= n <= 21 -> (Z.to_nat n <= length buffer)%nat ->
  let m := median_of_copy buffer n in
  let filled := take (Z.to_nat n) buffer in
  In m filled
  /\ (Forall (fun x => is_nan x = false) filled ->
      (Z.to_nat (n / 2) + 1
       <= count_where (fun x => (x <=? m)%float) filled)%nat
      /\ (Z.to_nat n - Z.to_nat (n / 2)
          <= count_where (fun x => (m <=? x)%float) filled)%nat).
Proof.
  intros Hn Hlen m filled.
  destruct (median_of_copy_rank buffer n Hn Hlen) as [Hin Hrank].
  split; [exact Hin|]. intros Hnan.
  destruct (Hrank Hnan) as [Hlo Hhi]. split; [exact Hlo|exact Hhi].
Qed.

(** X2 and X3 on the buffer [3100.5; 20000; 0.25; 3099; 3101] of the short
    filter: sorted it is [0.25; 3099; 3100.5; 3101; 20000], and the median
    3100.5 is one of its entries. *)
Lemma insertion_sort_sorted_permutation_witness :
  Permutation
    (take 5 (insertion_sort [3100.5; 20000; 0.25; 3099; 3101]%float 5))
    (take 5 [3100.5; 20000; 0.25; 3099; 3101]%float)
  /\ ascending
       (take 5 (insertion_sort [3100.5; 20000; 0.25; 3099; 3101]%float 5))
     = true.
Proof.
  destruct (insertion_sort_sorted_permutation
              [3100.5; 20000; 0.25; 3099; 3101]%float 5)
    as (_ & H2 & _ & H4 & _); [cbn; lia|].
  split; [exact H2|exact H4].
Defined.

Lemma median_of_copy_is_median_witness :
  In (median_of_copy [3100.5; 20000; 0.25; 3099; 3101]%float 5)
     (take (Z.to_nat 5) [3100.5; 20000; 0.25; 3099; 3101]%float).
Proof.
  refine (proj1 (median_of_copy_is_median
                   [3100.5; 20000; 0.25; 3099; 3101]%float 5 _ _)).
  - lia.
  - cbn. lia.
Defined.

(** ** HistoryVotingDetector: both call sites *)

Section DetectorMore.

Open Scope N_scope.

Lemma to_bits_testbit (k : nat) (n : N) :
  to_bits k n = map (fun i => N.testbit n (N.of_nat i)) (seq 0 k).
Proof.
  revert n. induction k as [|k IH]; intros n; [reflexivity|].
  cbn [to_bits seq map]. rewrite IH, <- seq_shift, map_map.
  f_equal; [symmetry; apply N.bit0_odd|].
  apply map_ext. intros i. rewrite N.testbit_div2, Nat2N.inj_succ.
  reflexivity.
Qed.

Lemma popcount_to_bits (n : N) :
  n < 2 ^ 32 -> popcount n = count_true (to_bits 32 n).
Proof.
  intros H. rewrite <- popcount_from_bits, from_bits_to_bits.
  f_equal. symmetry. apply N.mod_small. exact H.
Qed.

Lemma pos_popcount_pos (p : positive) : 1 <= pos_popcount p.
Proof. induction p; cbn; lia. Qed.

(** X4: on a 32-bit value [countSetBits] returns the number of bits 0..31
    that are set; this is at most 32, and 0 only for the value 0. *)
Theorem countSetBits_counts_bits (n : N) :
  n < 2 ^ 32 ->
  countSetBits n
  = count_true (map (fun i => N.testbit n (N.of_nat i)) (seq 0 32))
  /\ countSetBits n <= 32
  /\ (countSetBits n = 0 <-> n = 0).
Proof.
  intros H. rewrite (countSetBits_popcount n H). split; [|split].
  - rewrite <- to_bits_testbit. apply popcount_to_bits. exact H.
  - apply popcount_bound. exact H.
  - destruct n as [|p]; cbn; [tauto|].
    pose proof (pos_popcount_pos p). split; [lia|discriminate].
Qed.

Lemma countSetBits_counts_bits_witness :
  countSetBits 0xF0F0 <= 32 /\ (countSetBits 0 = 0 <-> 0 = 0).
Proof.
  split.
  - refine (proj1 (proj2 (countSetBits_counts_bits 0xF0F0 _))). reflexivity.
  - refine (proj2 (proj2 (countSetBits_counts_bits 0 _))). reflexivity.
Defined.

Lemma count_true_le_length (l : list bool) :
  count_true l <= N.of_nat (length l).
Proof. induction l as [|[] l IH]; cbn [count_true length N.b2n]; lia. Qed.

Lemma count_true_replicate (k : nat) (b : bool) :
  count_true (replicate k b) = N.of_nat k * N.b2n b.
Proof. induction k as [|k IH]; cbn [replicate count_true]; lia. Qed.

Lemma take_window_cons_gen (w : nat) (x l : list bool) (b : bool) :
  take (S w) (x ++ b :: take w l) = take (S w) (x ++ b :: l).
Proof.
  rewrite !take_app. f_equal.
  destruct (S w - length x)%nat as [|m] eqn:E; [reflexivity|].
  cbn [take]. f_equal. rewrite take_take. f_equal. lia.
Qed.

Lemma map_const_replicate (g : double -> bool) (b : bool) (l : list double) :
  Forall (fun f => g f = b) l -> map g l = replicate (length l) b.
Proof.
  induction 1 as [|f l Hf _ IH]; [reflexivity|].
  cbn [map length replicate]. rewrite Hf, IH. reflexivity.
Qed.

Lemma rev_replicate (k : nat) (b : bool) :
  rev (replicate k b) = replicate k b.
Proof.
  induction k as [|k IH]; [reflexivity|].
  cbn [replicate rev]. rewrite IH.
  clear. induction k as [|k IH]; [reflexivity|].
  cbn [replicate app]. rewrite IH. reflexivity.
Qed.

Lemma window_matches_le_length (W : nat) (target tol : double)
  (freqs : list double) :
  window_matches W target tol freqs <= N.of_nat (length freqs).
Proof.
  unfold window_matches.
  eapply N.le_trans; [apply count_true_le_length|].
  rewrite length_map, length_drop. lia.
Qed.

Context (w : nat) (minMatch : N) (target tol : double).
Hypothesis Hw : (w < 32)%nat.

(** A call site with a history of [S w] bits. *)
Local Abbreviation detect :=
  (fun (mem : N) (f : double) =>
     detectFrequency mem minMatch f target tol (N.ones (N.succ (N.of_nat w)))).

Lemma detect_bits (l : list bool) (f : double) :
  detect (from_bits l) f
  = (from_bits (freq_match f target tol :: take w l),
     minMatch <=? count_true (freq_match f target tol :: take w l)).
Proof.
  rewrite <- popcount_from_bits.
  rewrite (surjective_pairing (detectFrequency _ _ _ _ _ _)).
  rewrite detect_fired. rewrite detect_register by lia.
  rewrite from_bits_mod. reflexivity.
Qed.

Lemma detect_run_bits_gen (freqs : list double) (l : list bool) (r : bool) :
  let bs := map (fun f => freq_match f target tol) freqs in
  let L := match freqs with [] => l | _ => take (S w) (rev bs ++ l) end in
  fold_left (fun acc f => detect (fst acc) f) freqs (from_bits l, r)
  = (from_bits L,
     match freqs with [] => r | _ => minMatch <=? count_true L end).
Proof.
  revert l r. induction freqs as [|f fs IH]; intros l r bs L; [reflexivity|].
  cbn [fold_left fst]. rewrite detect_bits. rewrite IH.
  subst bs L. destruct fs as [|f' fs']; [reflexivity|].
  assert (E : take (S w)
                (rev (map (fun f => freq_match f target tol) (f' :: fs'))
                 ++ freq_match f target tol :: take w l)
              = take (S w)
                  (rev (map (fun f => freq_match f target tol)
                          (f :: f' :: fs')) ++ l)).
  { rewrite take_window_cons_gen. f_equal.
    cbn [map rev]. rewrite <- !app_assoc. reflexivity. }
  rewrite E. reflexivity.
Qed.

(** The register and the vote after a run, from any 32-bit register. *)
Lemma detect_run_window (mem : N) (freqs : list double) :
  mem < 2 ^ 32 -> freqs <> [] ->
  let L :=
    take (S w)
      (rev (map (fun f => freq_match f target tol) freqs)
       ++ to_bits 32 mem) in
  detect_run detect mem freqs
  = (from_bits L, minMatch <=? count_true L).
Proof.
  intros Hmem Hne L. unfold detect_run.
  rewrite <- (N.mod_small mem (2 ^ N.of_nat 32)) at 1 by exact Hmem.
  rewrite <- from_bits_to_bits, detect_run_bits_gen.
  destruct freqs; [contradiction|reflexivity].
Qed.

Lemma from_bits_bound (l : list bool) :
  from_bits l < 2 ^ N.of_nat (length l).
Proof.
  induction l as [|b l IH]; [cbn; lia|].
  cbn [from_bits length]. rewrite Nat2N.inj_succ, N.pow_succ_r'.
  destruct b; cbn [N.b2n]; lia.
Qed.

(** After at least [S w] observations the vote counts the matches among the
    last [S w]. *)
Lemma detect_run_vote (mem : N) (freqs : list double) :
  mem < 2 ^ 32 -> (S w <= length freqs)%nat ->
  snd (detect_run detect mem freqs)
  = (minMatch <=? window_matches (S w) target tol freqs)
  /\ fst (detect_run detect mem freqs) < 2 ^ N.of_nat (S w).
Proof.
  intros Hmem Hlen.
  assert (Hne : freqs <> [])
    by (destruct freqs; [cbn in Hlen; lia|discriminate]).
  rewrite (detect_run_window mem freqs Hmem Hne).
  cbn [fst snd]. split.
  - f_equal. unfold window_matches.
    rewrite take_app_le by (rewrite length_rev, length_map; exact Hlen).
    rewrite firstn_rev, count_true_rev, length_map, skipn_map. reflexivity.
  - eapply N.lt_le_trans; [apply from_bits_bound|].
    apply N.pow_le_mono_r; [lia|]. rewrite length_take. lia.
Qed.

(** [k] matches in a row turn the vote on as soon as [k >= minMatch]. *)
Lemma detect_run_hits (mem : N) (before hits : list double) :
  mem < 2 ^ 32 -> minMatch <= N.of_nat (S w) ->
  Forall (fun f => freq_match f target tol = true) hits ->
  minMatch <= N.of_nat (length hits) ->
  hits <> [] ->
  snd (detect_run detect mem (before ++ hits)) = true.
Proof.
  intros Hmem HM Hall Hk Hpos.
  assert (Hne : before ++ hits <> []).
  { destruct hits; [contradiction|]. destruct before; discriminate. }
  rewrite (detect_run_window mem _ Hmem Hne).
  cbn [snd]. apply N.leb_le.
  rewrite map_app, rev_app_distr, <- app_assoc.
  rewrite (map_const_replicate _ true hits Hall), rev_replicate.
  rewrite take_app, take_replicate, count_true_app, count_true_replicate.
  cbn [N.b2n]. lia.
Qed.

(** [k] misses in a row turn the vote off as soon as
    [k > S w - minMatch]. *)
Lemma detect_run_misses (mem : N) (before misses : list double) :
  mem < 2 ^ 32 -> 0 < minMatch ->
  Forall (fun f => freq_match f target tol = false) misses ->
  N.of_nat (S w) < minMatch + N.of_nat (length misses) ->
  snd (detect_run detect mem (before ++ misses)) = false.
Proof.
  intros Hmem Hpos Hall Hk.
  destruct (before ++ misses) as [|f0 r0] eqn:Eall; [reflexivity|].
  assert (Hne : before ++ misses <> []) by (rewrite Eall; discriminate).
  rewrite <- Eall, (detect_run_window mem _ Hmem Hne). clear Eall f0 r0 Hne.
  cbn [snd]. apply N.leb_gt.
  rewrite map_app, rev_app_distr, <- app_assoc.
  rewrite (map_const_replicate _ false misses Hall), rev_replicate.
  rewrite take_app, take_replicate, count_true_app, count_true_replicate.
  cbn [N.b2n]. rewrite N.mul_0_r, N.add_0_l.
  eapply N.le_lt_trans; [apply count_true_le_length|].
  rewrite length_take, length_replicate.
  clear Hmem. lia.
Qed.

(** Fewer than [minMatch] matches after enough misses leave the vote
    off. *)
Lemma detect_run_hits_tight (mem : N) (before hits : list double) :
  mem < 2 ^ 32 ->
  Forall (fun f => freq_match f target tol = false) before ->
  Forall (fun f => freq_match f target tol = true) hits ->
  N.of_nat (length hits) < minMatch ->
  N.of_nat (S w) < minMatch + N.of_nat (length before) ->
  snd (detect_run detect mem (before ++ hits)) = false.
Proof.
  intros Hmem Hb Hh Hk Hlen.
  destruct (before ++ hits) as [|f0 r0] eqn:Eall; [reflexivity|].
  assert (Hne : before ++ hits <> []) by (rewrite Eall; discriminate).
  rewrite <- Eall, (detect_run_window mem _ Hmem Hne). clear Eall f0 r0 Hne.
  cbn [snd]. apply N.leb_gt.
  rewrite map_app, rev_app_distr, <- app_assoc.
  rewrite (map_const_replicate _ true hits Hh), rev_replicate.
  rewrite (map_const_replicate _ false before Hb), rev_replicate.
  rewrite !take_app, !take_replicate, !count_true_app, !count_true_replicate.
  rewrite !length_replicate.
  match goal with |- context [count_true (take ?k ?l)] =>
    pose proof (count_true_le_length (take k l)) as Hc;
    rewrite length_take in Hc end.
  cbn [N.b2n]. clear Hmem. lia.
Qed.

(** Misses that leave [minMatch] earlier matches inside the window leave
    the vote on. *)
Lemma detect_run_misses_tight (mem : N) (before misses : list double) :
  mem < 2 ^ 32 ->
  Forall (fun f => freq_match f target tol = true) before ->
  Forall (fun f => freq_match f target tol = false) misses ->
  minMatch + N.of_nat (length misses) <= N.of_nat (S w) ->
  minMatch <= N.of_nat (length before) ->
  0 < minMatch ->
  snd (detect_run detect mem (before ++ misses)) = true.
Proof.
  intros Hmem Hb Hm Hk Hlen Hpos.
  assert (Hne : before ++ misses <> []).
  { intros E. apply (f_equal (@length _)) in E.
    rewrite length_app in E. cbn in E. lia. }
  rewrite (detect_run_window mem _ Hmem Hne).
  cbn [snd]. apply N.leb_le.
  rewrite map_app, rev_app_distr, <- app_assoc.
  rewrite (map_const_replicate _ false misses Hm), rev_replicate.
  rewrite (map_const_replicate _ true before Hb), rev_replicate.
  rewrite !take_app, !take_replicate, !count_true_app, !count_true_replicate.
  rewrite !length_replicate.
  cbn [N.b2n]. clear Hmem. lia.
Qed.

Lemma to_bits_zero (k : nat) : to_bits k 0 = replicate k false.
Proof.
  induction k as [|k IH]; [reflexivity|].
  cbn [to_bits replicate]. f_equal. exact IH.
Qed.

Lemma count_true_take_false (k n : nat) (l : list bool) :
  count_true (take k (l ++ replicate n false)) = count_true (take k l).
Proof.
  rewrite take_app, take_replicate, count_true_app, count_true_replicate.
  cbn [N.b2n]. lia.
Qed.

(** From the zero register the vote counts the matches among the last
    [S w] observations, or among all of them while there are fewer. *)
Lemma detect_run_initial (freqs : list double) :
  freqs <> [] ->
  snd (detect_run detect 0 freqs)
  = (minMatch <=? window_matches (S w) target tol freqs).
Proof.
  intros Hne.
  rewrite (detect_run_window 0 freqs) by (exact Hne || reflexivity).
  cbn [snd]. f_equal. rewrite to_bits_zero, count_true_take_false.
  unfold window_matches.
  rewrite firstn_rev, count_true_rev, length_map, skipn_map. reflexivity.
Qed.

End DetectorMore.

(** X5: the long-window detector is a sliding vote over its last 16
    observations: after at least 16 calls, from any 32-bit register, the
    result is [8 <= matches among the last 16], whatever the register held
    before, and the register stays below [2 ^ 16]. *)
Theorem detect_long_sliding_vote (mem : N) (freqs : list double) :
  (mem < 2 ^ 32)%N -> (16 <= length freqs)%nat ->
  snd (detect_run detect_long mem freqs)
  = (8 <=? window_matches 16 3100 3 freqs)%N
  /\ (fst (detect_run detect_long mem freqs) < 2 ^ 16)%N.
Proof.
  intros Hmem Hlen.
  exact (detect_run_vote 15 8 3100 3 ltac:(lia) mem freqs Hmem Hlen).
Qed.

Lemma detect_long_sliding_vote_witness :
  snd (detect_run detect_long 0xFFFFFFFF (replicate 9 0%float
                                          ++ replicate 7 3100%float))
  = false.
Proof.
  refine (eq_trans (proj1 (detect_long_sliding_vote 0xFFFFFFFF
            (replicate 9 0%float ++ replicate 7 3100%float) _ _)) _).
  - reflexivity.
  - cbn. lia.
  - vm_compute. reflexivity.
Defined.

(** X6: after power-up (register 0) each detector's result is the vote over
    the observations made so far, at most the last 32 (short) or 16 (long);
    so the short-window result is false during the first 14 calls and the
    long-window result during the first 7. *)
Theorem detectors_after_power_up (freqs : list double) :
  freqs <> [] ->
  snd (detect_run detect_short 0 freqs)
  = (15 <=? window_matches 32 3100 11 freqs)%N
  /\ snd (detect_run detect_long 0 freqs)
     = (8 <=? window_matches 16 3100 3 freqs)%N
  /\ ((length freqs < 15)%nat ->
      snd (detect_run detect_short 0 freqs) = false)
  /\ ((length freqs < 8)%nat ->
      snd (detect_run detect_long 0 freqs) = false).
Proof.
  intros Hne.
  pose proof (detect_run_initial 31 15 3100 11 ltac:(lia) freqs Hne) as Hs.
  pose proof (detect_run_initial 15 8 3100 3 ltac:(lia) freqs Hne) as Hl.
  change (snd (detect_run detect_short 0 freqs)
          = (15 <=? window_matches 32 3100 11 freqs)%N) in Hs.
  change (snd (detect_run detect_long 0 freqs)
          = (8 <=? window_matches 16 3100 3 freqs)%N) in Hl.
  split; [exact Hs|]. split; [exact Hl|]. split.
  - intros Hlen. rewrite Hs. apply N.leb_gt.
    pose proof (window_matches_le_length 32 3100 11 freqs). lia.
  - intros Hlen. rewrite Hl. apply N.leb_gt.
    pose proof (window_matches_le_length 16 3100 3 freqs). lia.
Qed.

Lemma detectors_after_power_up_witness :
  snd (detect_run detect_short 0 (replicate 14 3100%float)) = false
  /\ snd (detect_run detect_long 0 (replicate 7 3100%float)) = false.
Proof.
  split.
  - refine (proj1 (proj2 (proj2 (detectors_after_power_up
              (replicate 14 3100%float) _))) _);
      [discriminate|cbn; lia].
  - refine (proj2 (proj2 (proj2 (detectors_after_power_up
              (replicate 7 3100%float) _))) _);
      [discriminate|cbn; lia].
Defined.

(** X7: latency of the short-window detector, from any 32-bit register and
    after any earlier observations: 15 matches in a row turn the result on
    and 18 misses in a row turn it off. Neither number can be lowered: 14
    matches after 18 misses leave it off, 17 misses after 15 matches leave
    it on. *)
Theorem detect_short_latency (mem : N) (before run : list double) :
  (mem < 2 ^ 32)%N ->
  (Forall (fun f => freq_match f 3100 11 = true) run ->
   (15 <= length run)%nat ->
   snd (detect_run detect_short mem (before ++ run)) = true)
  /\ (Forall (fun f => freq_match f 3100 11 = false) run ->
      (18 <= length run)%nat ->
      snd (detect_run detect_short mem (before ++ run)) = false)
  /\ (Forall (fun f => freq_match f 3100 11 = false) before ->
      Forall (fun f => freq_match f 3100 11 = true) run ->
      (18 <= length before)%nat -> (length run <= 14)%nat ->
      snd (detect_run detect_short mem (before ++ run)) = false)
  /\ (Forall (fun f => freq_match f 3100 11 = true) before ->
      Forall (fun f => freq_match f 3100 11 = false) run ->
      (15 <= length before)%nat -> (length run <= 17)%nat ->
      snd (detect_run detect_short mem (before ++ run)) = true).
Proof.
  intros Hmem. split; [|split; [|split]].
  - intros Hall Hlen.
    apply (detect_run_hits 31 15 3100 11 ltac:(lia) mem before run);
      [exact Hmem|lia|exact Hall|lia|].
    destruct run; [cbn in Hlen; lia|discriminate].
  - intros Hall Hlen.
    apply (detect_run_misses 31 15 3100 11 ltac:(lia) mem before run);
      [exact Hmem|lia|exact Hall|lia].
  - intros Hb Hr Hlb Hlr.
    apply (detect_run_hits_tight 31 15 3100 11 ltac:(lia) mem before run);
      [exact Hmem|exact Hb|exact Hr|lia|lia].
  - intros Hb Hr Hlb Hlr.
    apply (detect_run_misses_tight 31 15 3100 11 ltac:(lia) mem before run);
      [exact Hmem|exact Hb|exact Hr|lia|lia|lia].
Qed.

(** X7 on the register [0xFFFFFFFF]: eighteen misses turn the result off,
    fifteen matches turn it on again. *)
Lemma detect_short_latency_witness :
  snd (detect_run detect_short 0xFFFFFFFF (replicate 18 0%float)) = false
  /\ snd (detect_run detect_short 0xFFFFFFFF
            (replicate 18 0%float ++ replicate 15 3100%float)) = true.
Proof.
  split.
  - refine (proj1 (proj2 (detect_short_latency 0xFFFFFFFF []
                            (replicate 18 0%float) _)) _ _).
    + reflexivity.
    + repeat constructor.
    + cbn. lia.
  - refine (proj1 (detect_short_latency 0xFFFFFFFF (replicate 18 0%float)
                     (replicate 15 3100%float) _) _ _).
    + reflexivity.
    + repeat constructor.
    + cbn. lia.
Defined.

(** X8: latency of the long-window detector, from any 32-bit register and
    after any earlier observations: 8 matches in a row turn the result on
    and 9 misses in a row turn it off. Neither number can be lowered: 7
    matches after 9 misses leave it off, 8 misses after 8 matches leave it
    on. *)
Theorem detect_long_latency (mem : N) (before run : list double) :
  (mem < 2 ^ 32)%N ->
  (Forall (fun f => freq_match f 3100 3 = true) run ->
   (8 <= length run)%nat ->
   snd (detect_run detect_long mem (before ++ run)) = true)
  /\ (Forall (fun f => freq_match f 3100 3 = false) run ->
      (9 <= length run)%nat ->
      snd (detect_run detect_long mem (before ++ run)) = false)
  /\ (Forall (fun f => freq_match f 3100 3 = false) before ->
      Forall (fun f => freq_match f 3100 3 = true) run ->
      (9 <= length before)%nat -> (length run <= 7)%nat ->
      snd (detect_run detect_long mem (before ++ run)) = false)
  /\ (Forall (fun f => freq_match f 3100 3 = true) before ->
      Forall (fun f => freq_match f 3100 3 = false) run ->
      (8 <= length before)%nat -> (length run <= 8)%nat ->
      snd (detect_run detect_long mem (before ++ run)) = true).
Proof.
  intros Hmem. split; [|split; [|split]].
  - intros Hall Hlen.
    apply (detect_run_hits 15 8 3100 3 ltac:(lia) mem before run);
      [exact Hmem|lia|exact Hall|lia|].
    destruct run; [cbn in Hlen; lia|discriminate].
  - intros Hall Hlen.
    apply (detect_run_misses 15 8 3100 3 ltac:(lia) mem before run);
      [exact Hmem|lia|exact Hall|lia].
  - intros Hb Hr Hlb Hlr.
    apply (detect_run_hits_tight 15 8 3100 3 ltac:(lia) mem before run);
      [exact Hmem|exact Hb|exact Hr|lia|lia].
  - intros Hb Hr Hlb Hlr.
    apply (detect_run_misses_tight 15 8 3100 3 ltac:(lia) mem before run);
      [exact Hmem|exact Hb|exact Hr|lia|lia|lia].
Qed.

(** X8 on the register [0xFFFF]: nine misses turn the result off, eight
    matches turn it on again. *)
Lemma detect_long_latency_witness :
  snd (detect_run detect_long 0xFFFF (replicate 9 0%float)) = false
  /\ snd (detect_run detect_long 0xFFFF
            (replicate 9 0%float ++ replicate 8 3100%float)) = true.
Proof.
  split.
  - refine (proj1 (proj2 (detect_long_latency 0xFFFF []
                            (replicate 9 0%float) _)) _ _).
    + reflexivity.
    + repeat constructor.
    + cbn. lia.
  - refine (proj1 (detect_long_latency 0xFFFF (replicate 9 0%float)
                     (replicate 8 3100%float) _) _ _).
    + reflexivity.
    + repeat constructor.
    + cbn. lia.
Defined.

(** ** AdaptivePeakFilter: the circular buffer *)

Section RingBuffer.

Context (MEDIAN_N : Z) (ALPHA THRESHOLD : double).
Hypothesis HN : 1 <= MEDIAN_N.

Local Abbreviation n := (Z.to_nat MEDIAN_N).
Local Abbreviation update := (update_peak_filter MEDIAN_N ALPHA THRESHOLD).

Local Abbreviation ring_inv := (ring_inv MEDIAN_N).

Lemma mod_succ_rem (k : nat) :
  Z.rem (Z.of_nat (k mod n) + 1) MEDIAN_N = Z.of_nat (S k mod n).
Proof.
  assert (Hn : n <> O) by lia.
  rewrite Z.rem_mod_nonneg by lia.
  replace (S k) with (k + 1)%nat by lia.
  rewrite <- Nat.Div0.add_mod_idemp_l.
  rewrite (Nat2Z.inj_mod (k mod n + 1) n), Nat2Z.inj_add, Z2Nat.id by lia.
  reflexivity.
Qed.

Lemma mod_window_distinct (j k : nat) :
  (j < k)%nat -> (k < j + n)%nat -> (j mod n <> k mod n)%nat.
Proof.
  intros H1 H2 E.
  pose proof (Nat.div_mod_eq j n) as Ej.
  pose proof (Nat.div_mod_eq k n) as Ek.
  rewrite E in Ej.
  assert (k - j = n * (k / n) - n * (j / n))%nat by lia.
  assert (Hd : (j / n < k / n)%nat) by nia.
  nia.
Qed.

Lemma ring_inv_init : ring_inv (filter_init MEDIAN_N) [].
Proof.
  unfold ring_inv, filter_init. cbn [peak_buf buf_count buf_idx length].
  rewrite length_replicate, Nat.Div0.mod_0_l.
  split; [reflexivity|]. split; [reflexivity|]. split; [reflexivity|].
  split; [intros j Hj; lia|]. cbn. constructor.
Qed.

Lemma ring_inv_gated (f : peak_filter) (acc : list double) (v mag : double) :
  (mag <? THRESHOLD)%float = true ->
  ring_inv f acc -> ring_inv (fst (update f v mag)) acc.
Proof.
  intros Hg H. unfold update_peak_filter. rewrite Hg. exact H.
Qed.

Lemma ring_inv_accept (f : peak_filter) (acc : list double) (v mag : double) :
  (mag <? THRESHOLD)%float = false ->
  ring_inv f acc -> ring_inv (fst (update f v mag)) (acc ++ [v]).
Proof.
  intros Hg (Hlen & Hc & Hi & Hp & Hperm).
  assert (Hn : n <> O) by lia.
  pose proof (Nat.mod_upper_bound (length acc) n Hn) as Hr.
  unfold update_peak_filter. rewrite Hg.
  cbn [fst peak_buf buf_count buf_idx]. unfold ring_inv.
  cbn [peak_buf buf_count buf_idx].
  rewrite length_app. cbn [length]. rewrite Nat.add_1_r.
  rewrite Hi, Nat2Z.id, Hc.
  split; [rewrite length_insert; exact Hlen|].
  split.
  { destruct (Z.ltb_spec (Z.of_nat (Nat.min (length acc) n)) MEDIAN_N); lia. }
  split; [apply mod_succ_rem|].
  split.
  { intros j Hj. destruct (Nat.eq_dec j (length acc)) as [->|Hne].
    - rewrite list_lookup_insert_eq by lia.
      rewrite lookup_app_r by lia. rewrite Nat.sub_diag. reflexivity.
    - rewrite list_lookup_insert_ne
        by (apply not_eq_sym, mod_window_distinct; lia).
      rewrite lookup_app_l by lia. apply Hp. lia. }
  destruct (Nat.lt_ge_cases (length acc) n) as [Hk|Hk].
  - rewrite Nat.mod_small in * by lia.
    replace (Nat.min (S (length acc)) n) with (S (length acc)) by lia.
    replace (S (length acc) - n)%nat with O by lia.
    replace (Nat.min (length acc) n) with (length acc) in Hperm by lia.
    replace (length acc - n)%nat with O in Hperm by lia.
    cbn [drop] in *.
    rewrite (take_S_r _ _ v) by (apply list_lookup_insert_eq; lia).
    rewrite take_insert_ge by lia.
    apply Permutation_app; [exact Hperm|reflexivity].
  - replace (Nat.min (S (length acc)) n) with n by lia.
    replace (Nat.min (length acc) n) with n in Hperm by lia.
    rewrite firstn_all2 by (rewrite length_insert; lia).
    rewrite firstn_all2 in Hperm by lia.
    assert (Hold : peak_buf f !! (length acc mod n)%nat
                   = acc !! (length acc - n)%nat).
    { rewrite <- (Hp (length acc - n)%nat) by lia. f_equal.
      replace (length acc) with (length acc - n + 1 * n)%nat at 1 by lia.
      apply Nat.Div0.mod_add. }
    destruct (acc !! (length acc - n)%nat) as [x|] eqn:Ex;
      [|apply lookup_ge_None in Ex; lia].
    pose proof (delete_Permutation _ _ _ Hold) as P1.
    rewrite (drop_S _ _ _ Ex) in Hperm.
    assert (P2 : Permutation (delete (length acc mod n)%nat (peak_buf f))
                   (drop (S (length acc - n)) acc)).
    { apply (Permutation_cons_inv (a := x)).
      rewrite <- P1. exact Hperm. }
    replace (S (length acc) - n)%nat with (S (length acc - n)) by lia.
    rewrite drop_app_le by lia. rewrite <- P2.
    rewrite insert_take_drop, delete_take_drop by lia.
    rewrite <- Permutation_middle. apply Permutation_cons_append.
Qed.

Lemma ring_inv_run (calls : list (double * double)) (f : peak_filter)
  (acc : list double) :
  ring_inv f acc ->
  ring_inv (filter_run update f calls) (acc ++ accepted THRESHOLD calls).
Proof.
  revert f acc. induction calls as [|[v mag] calls IH]; intros f acc H.
  - unfold accepted. cbn. rewrite app_nil_r. exact H.
  - unfold filter_run, accepted. cbn [fold_left List.filter fst snd].
    destruct (mag <? THRESHOLD)%float eqn:Hg; cbn [negb map fst].
    + apply IH, ring_inv_gated; assumption.
    + rewrite (cons_middle v), app_assoc.
      apply IH, ring_inv_accept; assumption.
Qed.

End RingBuffer.

(** X9: the median buffer is a ring over the accepted samples. After any
    sequence of calls to a filter with [MEDIAN_N >= 1] slots, [k] of which
    passed the magnitude gate: the buffer has its [MEDIAN_N] slots, the fill
    count is [min k MEDIAN_N], the write index is [k mod MEDIAN_N] (so every
    write is in bounds), accepted sample [j] of the last [MEDIAN_N] sits in
    slot [j mod MEDIAN_N], and the filled slots hold exactly the last
    [min k MEDIAN_N] accepted samples. *)
Theorem ring_buffer_holds_last_accepted (MEDIAN_N : Z)
  (ALPHA THRESHOLD : double) (calls : list (double * double)) :
  1 <= MEDIAN_N ->
  let n := Z.to_nat MEDIAN_N in
  let f :=
    filter_run (update_peak_filter MEDIAN_N ALPHA THRESHOLD)
      (filter_init MEDIAN_N) calls in
  let acc := accepted THRESHOLD calls in
  let k := length acc in
  length (peak_buf f) = n
  /\ buf_count f = Z.of_nat (Nat.min k n)
  /\ buf_idx f = Z.of_nat (k mod n)
  /\ 0 <= buf_idx f < MEDIAN_N
  /\ (forall j : nat,
        (k - n <= j < k)%nat -> peak_buf f !! (j mod n)%nat = acc !! j)
  /\ Permutation (take (Z.to_nat (buf_count f)) (peak_buf f))
       (drop (k - n) acc).
Proof.
  intros HN n f acc k.
  destruct (ring_inv_run MEDIAN_N ALPHA THRESHOLD HN calls
              (filter_init MEDIAN_N) [] (ring_inv_init MEDIAN_N))
    as (H1 & H2 & H3 & H4 & H5).
  cbn [app] in *. fold f acc k n in H1, H2, H3, H4, H5.
  split; [exact H1|]. split; [exact H2|]. split; [exact H3|].
  split.
  { rewrite H3. pose proof (Nat.mod_upper_bound k n). lia. }
  split; [exact H4|].
  rewrite H2, Nat2Z.id. exact H5.
Qed.

(** X9 on the short filter after seven calls, one of them gated: six
    samples were accepted, so the write index is 1 and the buffer holds the
    last five. *)
Lemma ring_buffer_holds_last_accepted_witness :
  let calls :=
    [(3000, 2); (3100, 2); (50, 0.5); (3200, 2); (3300, 2); (3400, 2);
     (3500, 2)]%float in
  let f := filter_run update_short_peak_filter short_filter_init calls in
  buf_idx f = 1
  /\ Permutation (take 5 (peak_buf f)) [3100; 3200; 3300; 3400; 3500]%float.
Proof.
  intros calls f.
  destruct (ring_buffer_holds_last_accepted SHORT_MEDIAN_N EMA_ALPHA_SHORT
              MAG_THRESHOLD_SHORT calls)
    as (_ & _ & H3 & _ & _ & H6); [unfold SHORT_MEDIAN_N; lia|].
  split; [exact H3|exact H6].
Defined.

(** X10: an accepted call blends the median of the recent accepted samples
    into the EMA. After any sequence of calls to a filter with
    [1 <= MEDIAN_N <= 21] slots, a call that passes the magnitude gate
    returns [ALPHA * m + (1 - ALPHA) * e], where [m] is one of the last
    [min k MEDIAN_N] accepted samples, this call's included, [k] being their
    number so far, and [e] is the previous EMA, or [m] itself when only one
    sample is counted and the EMA is 0. When none of those samples is a NaN,
    [m] is their median: more than half of them are at most [m] and at least
    half of them are at least [m]. *)
Theorem accepted_call_blends_recent_median (MEDIAN_N : Z)
  (ALPHA THRESHOLD : double) (calls : list (double * double))
  (v mag : double) :
  1 <= MEDIAN_N <= 21 -> (mag <? THRESHOLD)%float = false ->
  let f :=
    filter_run (update_peak_filter MEDIAN_N ALPHA THRESHOLD)
      (filter_init MEDIAN_N) calls in
  let acc := accepted THRESHOLD calls ++ [v] in
  let recent := drop (length acc - Z.to_nat MEDIAN_N) acc in
  let c := length recent in
  exists m : double,
    In m recent
    /\ snd (update_peak_filter MEDIAN_N ALPHA THRESHOLD f v mag)
       = blend ALPHA m
           (if (c =? 1)%nat && (ema f =? 0)%float then m else ema f)
    /\ (Forall (fun x => is_nan x = false) recent ->
        (c / 2 + 1 <= count_where (fun x => (x <=? m)%float) recent)%nat
        /\ (c - c / 2
            <= count_where (fun x => (m <=? x)%float) recent)%nat).
Proof.
  intros HN Hg f acc recent c.
  assert (HN1 : 1 <= MEDIAN_N) by lia.
  pose proof (ring_inv_run MEDIAN_N ALPHA THRESHOLD HN1 calls
                (filter_init MEDIAN_N) [] (ring_inv_init MEDIAN_N)) as H0.
  cbn [app] in H0. fold f in H0.
  pose proof (ring_inv_accept MEDIAN_N ALPHA THRESHOLD HN1 f _ v mag Hg H0)
    as (Hlen & Hc & _ & _ & Hperm).
  fold acc in Hlen, Hc, Hperm. fold recent in Hperm.
  set (f' := fst (update_peak_filter MEDIAN_N ALPHA THRESHOLD f v mag)) in *.
  assert (Hacc : (1 <= length acc)%nat)
    by (subst acc; rewrite length_app; cbn; lia).
  assert (Ec : c = Nat.min (length acc) (Z.to_nat MEDIAN_N))
    by (subst c recent; rewrite length_drop; lia).
  rewrite <- Ec in Hc, Hperm.
  assert (Hout : snd (update_peak_filter MEDIAN_N ALPHA THRESHOLD f v mag)
                 = blend ALPHA (median_of_copy (peak_buf f') (buf_count f'))
                     (if (buf_count f' =? 1) && (ema f =? 0)%float
                      then median_of_copy (peak_buf f') (buf_count f')
                      else ema f)).
  { subst f'. unfold update_peak_filter. rewrite Hg. reflexivity. }
  rewrite Hc in Hout.
  destruct (median_of_copy_rank (peak_buf f') (Z.of_nat c))
    as [Hin Hrank]; [lia|lia|].
  rewrite Nat2Z.id in Hin, Hrank.
  set (m := median_of_copy (peak_buf f') (Z.of_nat c)) in *.
  exists m.
  split; [apply (Permutation_in _ Hperm), Hin|].
  split.
  { rewrite Hout. f_equal.
    destruct (Nat.eqb_spec c 1) as [->|Hne]; [reflexivity|].
    replace (Z.of_nat c =? 1) with false by lia. reflexivity. }
  intros Hnan.
  assert (Hnan' : Forall (fun x => is_nan x = false)
                    (take c (peak_buf f'))).
  { apply Forall_forall. intros x Hx.
    apply (proj1 (Forall_forall _ _) Hnan).
    apply list_elem_of_In, (Permutation_in x Hperm), list_elem_of_In, Hx. }
  destruct (Hrank Hnan') as [Hlo Hhi].
  change 2 with (Z.of_nat 2) in Hlo, Hhi.
  rewrite <- Nat2Z.inj_div, Nat2Z.id in Hlo, Hhi.
  rewrite <- !(count_where_perm _ _ _ Hperm). split; assumption.
Qed.

(** X10 on the short filter: after 3000, 3100 and a gated call, the accepted
    sample 3200 is blended with the median of 3000, 3100 and 3200. *)
Lemma accepted_call_blends_recent_median_witness :
  let f :=
    filter_run update_short_peak_filter short_filter_init
      [(3000, 2); (3100, 2); (50, 0.5)]%float in
  exists m : double,
    In m [3000; 3100; 3200]%float
    /\ snd (update_short_peak_filter f 3200 2)
       = blend EMA_ALPHA_SHORT m (ema f).
Proof.
  intros f.
  destruct (accepted_call_blends_recent_median SHORT_MEDIAN_N EMA_ALPHA_SHORT
              MAG_THRESHOLD_SHORT [(3000, 2); (3100, 2); (50, 0.5)]%float
              3200 2) as (m & Hin & Hout & _).
  - unfold SHORT_MEDIAN_N. lia.
  - reflexivity.
  - exists m. split; [exact Hin|exact Hout].
Defined.

(** ** ProducerOrchestrator: what the snapshot says, and the pacing test *)

Lemma update_returns_ema (MEDIAN_N : Z) (ALPHA THRESHOLD : double)
  (f : peak_filter) (newVal mag : double) :
  snd (update_peak_filter MEDIAN_N ALPHA THRESHOLD f newVal mag)
  = ema (fst (update_peak_filter MEDIAN_N ALPHA THRESHOLD f newVal mag)).
Proof.
  unfold update_peak_filter. destruct (mag <? THRESHOLD)%float; reflexivity.
Qed.

Lemma detect_long_register_bound (mem : N) (f : double) :
  (fst (detect_long mem f) < 2 ^ 16)%N.
Proof.
  unfold detect_long.
  change 0xFFFF%N with (N.ones (N.succ 15)).
  rewrite detect_register by reflexivity.
  pose proof (N.mod_upper_bound mem (2 ^ 15)) as Hb.
  change (2 ^ 16)%N with (2 * 2 ^ 15)%N.
  destruct (freq_match f 3100 3); cbn [N.b2n]; lia.
Qed.

Lemma usub32_elapsed (l e : N) :
  (e < 2 ^ 32)%N -> usub32 (wrap32 (l + e)) l = e.
Proof.
  intros He. unfold usub32, wrap32, UINT_MOD.
  rewrite <- (N.Div0.add_mod_idemp_l l e).
  pose proof (N.mod_upper_bound l (2 ^ 32)) as Hl.
  set (l' := (l mod 2 ^ 32)%N) in *.
  assert (Hl' : (l' < 2 ^ 32)%N) by (apply Hl; discriminate).
  clearbody l'. clear Hl.
  destruct (N.lt_ge_cases (l' + e) (2 ^ 32)) as [Hs|Hs].
  - rewrite (N.mod_small (l' + e)) by exact Hs.
    replace (l' + e + 2 ^ 32 - l')%N with (e + 1 * 2 ^ 32)%N by lia.
    rewrite N.Div0.mod_add. apply N.mod_small. exact He.
  - assert (E : ((l' + e) mod 2 ^ 32 = l' + e - 2 ^ 32)%N).
    { symmetry. apply (N.mod_unique _ _ 1); lia. }
    rewrite E.
    replace (l' + e - 2 ^ 32 + 2 ^ 32 - l')%N with e by lia.
    apply N.mod_small. exact He.
Qed.

Section SnapshotFacts.

Context (log10 : double -> double) (pow : double -> double -> double)
  (fft_windowing : list double -> list double)
  (fft_compute : list double * list double -> list double * list double).

Local Abbreviation short_window' :=
  (short_window log10 pow fft_windowing fft_compute).
Local Abbreviation long_window' :=
  (long_window log10 pow fft_windowing fft_compute).
Local Abbreviation process_block' :=
  (process_block log10 pow fft_windowing fft_compute).
Local Abbreviation loop2_iter' :=
  (loop2_iter log10 pow fft_windowing fft_compute).
Local Abbreviation loop2_run' :=
  (loop2_run log10 pow fft_windowing fft_compute).
Local Abbreviation blocks_delivered' :=
  (blocks_delivered log10 pow fft_windowing fft_compute).

Lemma detect_short_result (mem : N) (f : double) :
  snd (detect_short mem f)
  = (15 <=? countSetBits (fst (detect_short mem f)))%N.
Proof. reflexivity. Qed.

Lemma detect_long_result (mem : N) (f : double) :
  snd (detect_long mem f)
  = (8 <=? countSetBits (fst (detect_long mem f)))%N.
Proof. reflexivity. Qed.

Lemma process_block_mirror (st : state) (block : list Z) :
  mirror_inv st -> mirror_inv (process_block' st block).
Proof.
  intros (Hm & _ & Hl).
  unfold process_block, store_block.
  destruct (accumulate _ _ _) as [buf idx].
  unfold short_window. cbn [short_filter fireAlarm metrics long_buffer
    long_idx long_filter fireAlarmLong last metricsQueue].
  destruct (window_peak _ _ _ _ _ _) as [a b].
  pose proof (update_returns_ema SHORT_MEDIAN_N EMA_ALPHA_SHORT
                MAG_THRESHOLD_SHORT (short_filter st) a b) as Hu.
  change (update_peak_filter SHORT_MEDIAN_N EMA_ALPHA_SHORT
            MAG_THRESHOLD_SHORT) with update_short_peak_filter in Hu.
  destruct (update_short_peak_filter (short_filter st) a b) as [f e].
  cbn [fst snd] in Hu. subst e.
  pose proof (detect_short_result (fireAlarm st) (ema f)) as Hd.
  pose proof (detect_register_bound (fireAlarm st) 15 (ema f) 3100 11
                0xFFFFFFFF) as Hb.
  change (detectFrequency (fireAlarm st) 15 (ema f) 3100 11 0xFFFFFFFF)
    with (detect_short (fireAlarm st) (ema f)) in Hb.
  destruct (detect_short (fireAlarm st) (ema f)) as [mem fire].
  cbn [fst snd] in Hd, Hb. subst fire.
  unfold long_ready. cbn [long_idx].
  rewrite Hm. unfold metrics_of_state at 1 2 3.
  cbn [peakHzLong fireAlarmDetected fireLongDetected].
  destruct (LONG_SAMPLES <=? Z.of_N idx).
  - unfold long_window. cbn [short_filter fireAlarm metrics long_buffer
      long_idx long_filter fireAlarmLong last metricsQueue].
    destruct (window_peak _ _ _ _ _ _) as [a' b'].
    pose proof (update_returns_ema LONG_MEDIAN_N EMA_ALPHA_LONG
                  MAG_THRESHOLD_LONG (long_filter st) a' b') as Hu.
    change (update_peak_filter LONG_MEDIAN_N EMA_ALPHA_LONG
              MAG_THRESHOLD_LONG) with update_long_peak_filter in Hu.
    destruct (update_long_peak_filter (long_filter st) a' b') as [f' e'].
    cbn [fst snd] in Hu. subst e'.
    pose proof (detect_long_result (fireAlarmLong st) (ema f')) as Hd.
    pose proof (detect_long_register_bound (fireAlarmLong st) (ema f'))
      as Hb'.
    destruct (detect_long (fireAlarmLong st) (ema f')) as [mem' fire'].
    cbn [fst snd] in Hd, Hb'. subst fire'.
    unfold publish, mirror_inv, metrics_of_state.
    cbn [short_filter fireAlarm metrics long_buffer long_idx long_filter
      fireAlarmLong last metricsQueue peakHzShort peakHzLong
      fireAlarmDetected fireShortDetected fireLongDetected].
    split; [reflexivity|]. split; assumption.
  - unfold publish, mirror_inv, metrics_of_state.
    cbn [short_filter fireAlarm metrics long_buffer long_idx long_filter
      fireAlarmLong last metricsQueue peakHzShort peakHzLong
      fireAlarmDetected fireShortDetected fireLongDetected].
    split; [reflexivity|]. split; assumption.
Qed.

Lemma set_last_mirror (st : state) (now : N) :
  mirror_inv st -> mirror_inv (set_last st now).
Proof. intros H. exact H. Qed.

Lemma loop2_iter_mirror (st : state) (inp : loop_input) :
  mirror_inv st -> mirror_inv (loop2_iter' st inp).
Proof.
  intros H. unfold loop2_iter. destruct (not_due st inp); [exact H|].
  destruct (read_failed inp); [exact H|].
  apply process_block_mirror, set_last_mirror, H.
Qed.

Lemma loop2_run_mirror (inputs : list loop_input) (st : state) :
  mirror_inv st -> mirror_inv (loop2_run' st inputs).
Proof.
  revert st. induction inputs as [|inp inputs IH]; intros st H; [exact H|].
  apply IH, loop2_iter_mirror, H.
Qed.

Lemma loop2_init_mirror (now : N) : mirror_inv (loop2_init now).
Proof.
  split; [reflexivity|]. split; reflexivity.
Qed.

(** The queue is written by every processed block and never emptied. *)
Lemma loop2_iter_queue (st : state) (inp : loop_input) :
  (metricsQueue st <> [] \/ delivers st inp = true) ->
  metricsQueue (loop2_iter' st inp) <> [].
Proof.
  intros H. destruct (delivers st inp) eqn:Hd.
  - rewrite (loop2_iter_deliver _ _ _ _ st inp Hd).
    destruct (process_block_metrics log10 pow fft_windowing fft_compute
                (set_last st (micros_start inp)) (samples inp)) as (Hq & _).
    rewrite Hq. discriminate.
  - destruct H as [H|H]; [|discriminate].
    destruct (loop2_iter_skip log10 pow fft_windowing fft_compute st inp Hd)
      as [E|E]; rewrite E; exact H.
Qed.

Lemma loop2_run_queue (inputs : list loop_input) (st : state) :
  (metricsQueue st <> [] \/ (1 <= blocks_delivered' st inputs)%nat) ->
  metricsQueue (loop2_run' st inputs) <> [].
Proof.
  revert st. induction inputs as [|inp inputs IH]; intros st H.
  - destruct H as [H|H]; [exact H|cbn in H; lia].
  - cbn [loop2_run fold_left]. apply IH.
    cbn [blocks_delivered] in H.
    destruct (delivers st inp) eqn:Hd.
    + left. apply loop2_iter_queue. right. exact Hd.
    + destruct H as [H|H].
      * left. apply loop2_iter_queue. left. exact H.
      * right. cbn in H. exact H.
Qed.

End SnapshotFacts.

(** X11: along every run of [loop2] from its initial state the [metrics]
    local repeats the state: the two frequencies are the narrowed EMAs of
    the filters, the two flags are the votes of the history registers (15 of
    [fireAlarm], 8 of [fireAlarmLong]) and the overall flag is their
    disjunction; [fireAlarm] stays below [2 ^ 32] and [fireAlarmLong] below
    [2 ^ 16]. Once a block has been processed, [handleMetrics] answers 200
    with these values. *)
Theorem snapshot_reflects_state
  (log10 : double -> double) (pow : double -> double -> double)
  (fft_windowing : list double -> list double)
  (fft_compute : list double * list double -> list double * list double)
  (now : N) (inputs : list loop_input) :
  let st :=
    loop2_run log10 pow fft_windowing fft_compute (loop2_init now) inputs in
  let short_vote := (15 <=? countSetBits (fireAlarm st))%N in
  let long_vote := (8 <=? countSetBits (fireAlarmLong st))%N in
  metrics st
  = mkMetrics (float_of_double (ema (short_filter st)))
      (float_of_double (ema (long_filter st)))
      (short_vote || long_vote) short_vote long_vote
  /\ (fireAlarm st < 2 ^ 32)%N /\ (fireAlarmLong st < 2 ^ 16)%N
  /\ ((1 <= blocks_delivered log10 pow fft_windowing fft_compute
              (loop2_init now) inputs)%nat ->
      fst (handleMetrics (Some (metricsQueue st)))
      = mkResponse 200 "application/json"
          [("peakHzShort"%string,
            JFloat (float_of_double (ema (short_filter st))));
           ("peakHzLong"%string,
            JFloat (float_of_double (ema (long_filter st))));
           ("fireAlarmDetected"%string, JBool (short_vote || long_vote));
           ("fireShortDetected"%string, JBool short_vote);
           ("fireLongDetected"%string, JBool long_vote)]).
Proof.
  intros st short_vote long_vote.
  destruct (loop2_run_mirror log10 pow fft_windowing fft_compute inputs
              (loop2_init now) (loop2_init_mirror now)) as (Hm & Hs & Hl).
  fold st in Hm, Hs, Hl.
  split; [exact Hm|]. split; [exact Hs|]. split; [exact Hl|].
  intros Hd.
  pose proof (loop2_run_queue log10 pow fft_windowing fft_compute inputs
                (loop2_init now) (or_intror Hd)) as Hq.
  pose proof (snapshot_inv_run log10 pow fft_windowing fft_compute inputs
                (loop2_init now) eq_refl) as Hi.
  fold st in Hq, Hi. unfold snapshot_inv in Hi.
  destruct (metricsQueue st) as [|m rest]; [contradiction|].
  destruct Hi as (-> & -> & _).
  unfold handleMetrics, xQueuePeek. cbn [head fst].
  rewrite Hm. reflexivity.
Qed.

(** X11 after one processed block, with the transform stand-in that
    reports no signal: the endpoint answers 200. *)
Lemma snapshot_reflects_state_witness :
  status_code
    (fst (handleMetrics
            (Some (metricsQueue
                     (loop2_run log10_tab pow_tab fft_windowing_id
                        fft_compute_silent (loop2_init 0) (due_inputs 1))))))
  = 200.
Proof.
  refine (f_equal status_code
            (proj2 (proj2 (proj2
               (snapshot_reflects_state log10_tab pow_tab fft_windowing_id
                  fft_compute_silent 0%N (due_inputs 1)))) _)).
  vm_compute. lia.
Defined.

(** X12: the pacing test survives the wrap-around of [micros()]. If the
    32-bit clock reads [last + e] modulo [2 ^ 32], with [e] below [2 ^ 32]
    microseconds elapsed, then the iteration is skipped exactly when
    [e < 45200]: a skipped iteration changes nothing, and any other sets
    [last] to the second reading of the clock. *)
Theorem pacing_survives_wraparound
  (log10 : double -> double) (pow : double -> double -> double)
  (fft_windowing : list double -> list double)
  (fft_compute : list double * list double -> list double * list double)
  (st : state) (inp : loop_input) (e : N) :
  (e < 2 ^ 32)%N ->
  micros_check inp = wrap32 (last st + e) ->
  let st' := loop2_iter log10 pow fft_windowing fft_compute st inp in
  not_due st inp = (e <? 45200)%N
  /\ ((e < 45200)%N -> st' = st)
  /\ ((45200 <= e)%N -> last st' = micros_start inp).
Proof.
  intros He Hc st'.
  assert (E : not_due st inp = (e <? 45200)%N).
  { unfold not_due. rewrite Hc, usub32_elapsed by exact He. reflexivity. }
  split; [exact E|]. split.
  - intros H. subst st'. unfold loop2_iter. rewrite E.
    apply N.ltb_lt in H. rewrite H. reflexivity.
  - intros H. subst st'. unfold loop2_iter. rewrite E.
    apply N.ltb_ge in H. rewrite H.
    destruct (read_failed inp); [reflexivity|].
    unfold process_block, store_block.
    destruct (accumulate _ _ _) as [buf idx].
    unfold short_window. cbn [short_filter fireAlarm metrics long_buffer
      long_idx long_filter fireAlarmLong last metricsQueue set_last].
    destruct (window_peak _ _ _ _ _ _) as [a b].
    destruct (update_short_peak_filter _ _ _) as [f x].
    destruct (detect_short _ _) as [mem fire].
    unfold long_ready. cbn [long_idx].
    destruct (LONG_SAMPLES <=? Z.of_N idx); [|reflexivity].
    unfold long_window. cbn [short_filter fireAlarm metrics long_buffer
      long_idx long_filter fireAlarmLong last metricsQueue].
    destruct (window_peak _ _ _ _ _ _) as [a' b'].
    destruct (update_long_peak_filter _ _ _) as [f' x'].
    destruct (detect_long _ _) as [mem' fire'].
    reflexivity.
Qed.

(** X12 across the wrap: [last] is 100 us before the 32-bit clock wraps;
    a reading of 45100 (45200 us later) is due, a reading of 45099 is
    not. *)
Lemma pacing_survives_wraparound_witness :
  not_due (loop2_init 4294967196) (early_input 45100) = false
  /\ not_due (loop2_init 4294967196) (early_input 45099) = true.
Proof.
  split.
  - refine (proj1 (pacing_survives_wraparound log10_tab pow_tab
              fft_windowing_id fft_compute_id (loop2_init 4294967196)
              (early_input 45100) 45200 _ _)); reflexivity.
  - refine (proj1 (pacing_survives_wraparound log10_tab pow_tab
              fft_windowing_id fft_compute_id (loop2_init 4294967196)
              (early_input 45099) 45199 _ _)); reflexivity.
Defined.

(** ** ProducerOrchestrator: what the long window is made of *)

Lemma slot_store_same (B r : nat) (buf b : list Z) :
  length b = B -> (B * r + B <= length buf)%nat ->
  take B (drop (B * r) (take (B * r) buf ++ b ++ drop (B * r + B) buf)) = b.
Proof.
  intros Hb Hlen.
  rewrite drop_app_length' by (rewrite length_take; lia).
  apply take_app_length'. symmetry. exact Hb.
Qed.

Lemma slot_store_other (B r s : nat) (buf b : list Z) :
  length b = B -> (B * r + B <= length buf)%nat -> s <> r ->
  take B (drop (B * s) (take (B * r) buf ++ b ++ drop (B * r + B) buf))
  = take B (drop (B * s) buf).
Proof.
  intros Hb Hlen Hs. apply list_eq. intros i.
  destruct (Nat.lt_ge_cases i B) as [Hi|Hi].
  - rewrite !lookup_take_lt by exact Hi. rewrite !lookup_drop.
    destruct (Nat.lt_ge_cases s r) as [Hlt|Hge].
    + assert (B * s + i < B * r)%nat by nia.
      rewrite lookup_app_l by (rewrite length_take; lia).
      apply lookup_take_lt. assumption.
    + assert (B * r + B <= B * s + i)%nat by nia.
      rewrite lookup_app_r by (rewrite length_take; lia).
      rewrite lookup_app_r by (rewrite length_take; lia).
      rewrite lookup_drop, length_take. f_equal. lia.
  - rewrite !lookup_take_ge by exact Hi. reflexivity.
Qed.

Lemma four_slots (B : nat) (buf : list Z) :
  length buf = (B * 4)%nat ->
  buf = take B (drop (B * 0) buf) ++ take B (drop (B * 1) buf)
        ++ take B (drop (B * 2) buf) ++ take B (drop (B * 3) buf) ++ [].
Proof.
  intros Hlen. rewrite app_nil_r.
  rewrite (take_ge (drop (B * 3) buf)) by (rewrite length_drop; lia).
  rewrite Nat.mul_0_r, Nat.mul_1_r. cbn [drop].
  rewrite <- (take_drop B buf) at 1. f_equal.
  rewrite <- (take_drop B (drop B buf)) at 1. f_equal.
  rewrite drop_drop.
  replace (B + B)%nat with (B * 2)%nat by lia.
  rewrite <- (take_drop B (drop (B * 2) buf)) at 1. f_equal.
  rewrite drop_drop. f_equal. lia.
Qed.

Lemma last_four_lookup (D : list (list Z)) (a b c d : list Z) :
  (4 <= length D)%nat ->
  D !! (length D - 4)%nat = Some a ->
  D !! (length D - 4 + 1)%nat = Some b ->
  D !! (length D - 4 + 2)%nat = Some c ->
  D !! (length D - 4 + 3)%nat = Some d ->
  drop (length D - 4) D = [a; b; c; d].
Proof.
  intros Hlen Ha Hb Hc Hd.
  assert (HL : length (drop (length D - 4) D) = 4%nat)
    by (rewrite length_drop; lia).
  rewrite <- (Nat.add_0_r (length D - 4)) in Ha.
  rewrite <- lookup_drop in Ha, Hb, Hc, Hd.
  destruct (drop (length D - 4) D) as [|a' [|b' [|c' [|d' [|? ?]]]]];
    try discriminate HL.
  cbn in Ha, Hb, Hc, Hd. congruence.
Qed.

Section LongBufferFacts.

Context (log10 : double -> double) (pow : double -> double -> double)
  (fft_windowing : list double -> list double)
  (fft_compute : list double * list double -> list double * list double).

Local Abbreviation short_window' :=
  (short_window log10 pow fft_windowing fft_compute).
Local Abbreviation long_window' :=
  (long_window log10 pow fft_windowing fft_compute).
Local Abbreviation process_block' :=
  (process_block log10 pow fft_windowing fft_compute).
Local Abbreviation loop2_iter' :=
  (loop2_iter log10 pow fft_windowing fft_compute).
Local Abbreviation loop2_run' :=
  (loop2_run log10 pow fft_windowing fft_compute).
Local Abbreviation window_peak' :=
  (window_peak log10 pow fft_windowing fft_compute).
Local Abbreviation delivered' := (delivered_blocks loop2_iter').

Lemma long_window_filter (st : state) :
  long_filter (long_window' st)
  = fst (update_long_peak_filter (long_filter st)
           (fst (window_peak' (long_buffer st) LONG_SAMPLES))
           (snd (window_peak' (long_buffer st) LONG_SAMPLES))).
Proof.
  unfold long_window.
  destruct (window_peak _ _ _ _ _ _) as [a b]. cbn [fst snd].
  destruct (update_long_peak_filter _ _ _) as [f e].
  destruct (detect_long _ _) as [m fr]. reflexivity.
Qed.

Lemma process_block_buffer (st : state) (block : list Z) :
  long_buffer (process_block' st block)
  = fst (accumulate (long_buffer st) (long_idx st) block).
Proof.
  rewrite process_block_eq.
  destruct (short_window_frame log10 pow fft_windowing fft_compute
              (store_block st block) block) as (Hb & _).
  destruct (store_block_frame st block) as (Hs & _).
  destruct (long_ready _).
  - destruct (long_window_frame log10 pow fft_windowing fft_compute
                (short_window' (store_block st block) block)) as (Hl & _).
    change (long_buffer (publish ?x)) with (long_buffer x).
    rewrite Hl, Hb, Hs. reflexivity.
  - change (long_buffer (publish ?x)) with (long_buffer x).
    rewrite Hb, Hs. reflexivity.
Qed.

Lemma accumulate_block (buf : list Z) (r : nat) (block : list Z) :
  length block = Z.to_nat BLOCK_SIZE ->
  length buf = (Z.to_nat BLOCK_SIZE * 4)%nat -> (r < 4)%nat ->
  fst (accumulate buf (N.of_nat (Z.to_nat BLOCK_SIZE * r)) block)
  = take (Z.to_nat BLOCK_SIZE * r) buf ++ block
    ++ drop (Z.to_nat BLOCK_SIZE * r + Z.to_nat BLOCK_SIZE) buf.
Proof.
  intros Hb Hlen Hr. unfold accumulate.
  rewrite take_ge by lia.
  assert (HB : Z.of_nat (Z.to_nat BLOCK_SIZE) = 1024) by reflexivity.
  destruct (accumulate_fold_fits block buf
              (N.of_nat (Z.to_nat BLOCK_SIZE * r))) as (E & _).
  - rewrite Hb. unfold LONG_SAMPLES. lia.
  - rewrite Hb, Hlen. lia.
  - rewrite E. cbn [fst]. rewrite Nat2N.id, Hb. reflexivity.
Qed.

Lemma slots_inv_process (st : state) (D : list (list Z)) (block : list Z) :
  length block = Z.to_nat BLOCK_SIZE ->
  slots_inv st D -> slots_inv (process_block' st block) (D ++ [block]).
Proof.
  intros Hb (Hlen & Hidx & Hslots).
  assert (Hr : (length D mod 4 < 4)%nat) by (apply Nat.mod_upper_bound; lia).
  assert (HB : Z.of_nat (Z.to_nat BLOCK_SIZE) = BLOCK_SIZE) by reflexivity.
  assert (Hi : long_idx st
               = N.of_nat (Z.to_nat BLOCK_SIZE * (length D mod 4))) by lia.
  assert (Hlen' : length (long_buffer st) = Z.to_nat LONG_SAMPLES).
  { rewrite Hlen. apply Nat2Z.inj. rewrite Nat2Z.inj_mul, HB. reflexivity. }
  destruct (process_block_long_idx log10 pow fft_windowing fft_compute
              st block (Z.of_nat (length D mod 4)) Hb Hlen' Hidx ltac:(lia))
    as (_ & Hidx' & Hl').
  assert (Hbuf : long_buffer (process_block' st block)
                 = take (Z.to_nat BLOCK_SIZE * (length D mod 4))
                     (long_buffer st) ++ block
                   ++ drop (Z.to_nat BLOCK_SIZE * (length D mod 4)
                            + Z.to_nat BLOCK_SIZE) (long_buffer st)).
  { rewrite process_block_buffer, Hi. apply accumulate_block; assumption. }
  assert (Hfit : (Z.to_nat BLOCK_SIZE * (length D mod 4)
                  + Z.to_nat BLOCK_SIZE <= Z.to_nat BLOCK_SIZE * 4)%nat)
    by nia.
  unfold slots_inv. rewrite length_app. cbn [length].
  split; [rewrite Hbuf, !length_app, length_take, length_drop; lia|].
  split.
  { rewrite Hidx'. f_equal.
    rewrite <- Nat.Div0.add_mod_idemp_l.
    rewrite (Nat2Z.inj_mod (length D mod 4 + 1) 4), Nat2Z.inj_add.
    reflexivity. }
  intros j Hj. unfold buffer_slot. rewrite Hbuf.
  destruct (Nat.eq_dec j (length D)) as [->|Hne].
  - rewrite lookup_app_r by lia. rewrite Nat.sub_diag.
    change ([block] !! 0%nat) with (Some block).
    f_equal. symmetry. apply slot_store_same; [exact Hb|].
    rewrite Hlen. nia.
  - rewrite lookup_app_l by lia.
    rewrite slot_store_other; [apply Hslots; lia|exact Hb|rewrite Hlen; nia|].
    intros E.
    pose proof (Nat.div_mod_eq j 4) as Ej.
    pose proof (Nat.div_mod_eq (length D) 4) as Ed.
    rewrite E in Ej. lia.
Qed.

Lemma slots_inv_run (inputs : list loop_input) (st : state)
  (D : list (list Z)) :
  Forall block_ok inputs -> slots_inv st D ->
  slots_inv (loop2_run' st inputs) (D ++ delivered' st inputs).
Proof.
  intros Hok. revert st D.
  induction Hok as [|inp inputs Hb _ IH]; intros st D H.
  - cbn. rewrite app_nil_r. exact H.
  - cbn [loop2_run fold_left delivered_blocks].
    destruct (delivers st inp) eqn:Hd.
    + rewrite app_assoc. apply IH.
      rewrite (loop2_iter_deliver _ _ _ _ st inp Hd).
      apply slots_inv_process; [exact Hb|exact H].
    + cbn [app]. apply IH.
      destruct (loop2_iter_skip log10 pow fft_windowing fft_compute st inp Hd)
        as [E|E]; rewrite E; exact H.
Qed.

Lemma slots_inv_init (now : N) : slots_inv (loop2_init now) [].
Proof.
  split; [apply length_replicate|]. split; [reflexivity|].
  intros j Hj. cbn in Hj. lia.
Qed.

Lemma delivered_blocks_snoc (inputs : list loop_input) (st : state)
  (inp : loop_input) :
  delivered' st (inputs ++ [inp])
  = delivered' st inputs
    ++ (if delivers (loop2_run' st inputs) inp then [samples inp] else []).
Proof.
  revert st. induction inputs as [|i inputs IH]; intros st.
  - cbn. rewrite app_nil_r. reflexivity.
  - cbn [app delivered_blocks loop2_run fold_left].
    rewrite IH, app_assoc. reflexivity.
Qed.

Lemma loop2_run_snoc (inputs : list loop_input) (st : state)
  (inp : loop_input) :
  loop2_run' st (inputs ++ [inp]) = loop2_iter' (loop2_run' st inputs) inp.
Proof. unfold loop2_run. apply fold_left_app. Qed.

Lemma full_window (st : state) (D : list (list Z)) :
  slots_inv st D -> (4 <= length D)%nat -> (length D mod 4 = 0)%nat ->
  long_buffer st = concat (drop (length D - 4) D).
Proof.
  intros (Hlen & _ & Hslots) H4 Hm.
  assert (Hs : forall i : nat, (i < 4)%nat ->
            D !! (length D - 4 + i)%nat
            = Some (buffer_slot (long_buffer st) i)).
  { intros i Hi. rewrite Hslots by lia. do 2 f_equal.
    pose proof (Nat.div_mod_eq (length D) 4) as Ed. rewrite Hm in Ed.
    replace (length D - 4 + i)%nat
      with (i + (length D / 4 - 1) * 4)%nat by lia.
    rewrite Nat.Div0.mod_add. apply Nat.mod_small. exact Hi. }
  pose proof (Hs 0%nat ltac:(lia)) as H0. rewrite Nat.add_0_r in H0.
  rewrite (last_four_lookup D _ _ _ _ H4 H0 (Hs 1%nat ltac:(lia))
             (Hs 2%nat ltac:(lia)) (Hs 3%nat ltac:(lia))).
  cbn [concat]. unfold buffer_slot. apply four_slots. exact Hlen.
Qed.

End LongBufferFacts.

(** X13: whenever the long-window pipeline runs, it runs on the four most
    recently processed blocks in their order of arrival. Along a run from
    the initial state with full blocks, let [D] be the blocks processed up to
    and including the iteration in which the pipeline runs: their number is a
    positive multiple of 4, the long buffer is the concatenation of the last
    four, and the long filter is updated with the peak estimate of that
    window. *)
Theorem long_window_sees_last_four_blocks
  (log10 : double -> double) (pow : double -> double -> double)
  (fft_windowing : list double -> list double)
  (fft_compute : list double * list double -> list double * list double)
  (now : N) (inputs : list loop_input) (inp : loop_input) :
  Forall block_ok inputs -> block_ok inp ->
  let iter := loop2_iter log10 pow fft_windowing fft_compute in
  let st := loop2_run log10 pow fft_windowing fft_compute (loop2_init now)
              inputs in
  let st' := iter st inp in
  let D := delivered_blocks iter (loop2_init now) (inputs ++ [inp]) in
  let window := concat (drop (length D - 4) D) in
  let peak :=
    window_peak log10 pow fft_windowing fft_compute window LONG_SAMPLES in
  long_window_runs log10 pow fft_windowing fft_compute st inp = true ->
  (4 <= length D)%nat /\ (length D mod 4 = 0)%nat
  /\ list.last D = Some (samples inp)
  /\ long_buffer st' = window
  /\ long_filter st'
     = fst (update_long_peak_filter (long_filter st) (fst peak) (snd peak)).
Proof.
  intros Hok Hb iter st st' D window peak Hrun.
  unfold long_window_runs in Hrun. apply andb_true_iff in Hrun.
  destruct Hrun as [Hd Hready].
  pose proof (slots_inv_run log10 pow fft_windowing fft_compute inputs
                (loop2_init now) [] Hok (slots_inv_init now)) as Hinv.
  cbn [app] in Hinv. fold iter st in Hinv.
  set (D0 := delivered_blocks iter (loop2_init now) inputs) in *.
  assert (ED : D = D0 ++ [samples inp]).
  { subst D D0 iter.
    rewrite delivered_blocks_snoc. fold st. rewrite Hd. reflexivity. }
  assert (Est : st' = process_block log10 pow fft_windowing fft_compute
                        (set_last st (micros_start inp)) (samples inp)).
  { subst st' iter. apply loop2_iter_deliver. exact Hd. }
  assert (Hinv0 : slots_inv (set_last st (micros_start inp)) D0)
    by exact Hinv.
  destruct Hinv0 as (Hlen & Hidx & _).
  assert (Hr : (length D0 mod 4 < 4)%nat)
    by (apply Nat.mod_upper_bound; lia).
  assert (Hlen' : length (long_buffer (set_last st (micros_start inp)))
                  = Z.to_nat LONG_SAMPLES).
  { rewrite Hlen. reflexivity. }
  destruct (process_block_long_idx log10 pow fft_windowing fft_compute
              (set_last st (micros_start inp)) (samples inp)
              (Z.of_nat (length D0 mod 4)) Hb Hlen' Hidx ltac:(lia))
    as (Hlr & _ & _).
  rewrite Hready in Hlr. symmetry in Hlr. apply Z.eqb_eq in Hlr.
  pose proof (slots_inv_process log10 pow fft_windowing fft_compute
                (set_last st (micros_start inp)) D0 (samples inp) Hb Hinv)
    as Hinv'.
  rewrite <- Est, <- ED in Hinv'.
  assert (HlenD : length D = S (length D0))
    by (rewrite ED, length_app; cbn; lia).
  assert (Hmod : (length D mod 4 = 0)%nat).
  { rewrite HlenD. replace (S (length D0)) with (length D0 + 1)%nat by lia.
    rewrite <- Nat.Div0.add_mod_idemp_l.
    replace (length D0 mod 4)%nat with 3%nat by lia. reflexivity. }
  assert (H4 : (4 <= length D)%nat).
  { pose proof (Nat.div_mod_eq (length D0) 4). lia. }
  assert (Hbuf : long_buffer st' = window)
    by (apply (full_window st' D Hinv' H4 Hmod)).
  split; [exact H4|]. split; [exact Hmod|].
  split; [rewrite ED; apply last_snoc|].
  split; [exact Hbuf|].
  subst peak. rewrite <- Hbuf, Est.
  rewrite process_block_eq, Hready.
  change (long_filter (publish ?x)) with (long_filter x).
  change (long_buffer (publish ?x)) with (long_buffer x).
  rewrite long_window_filter.
  destruct (long_window_frame log10 pow fft_windowing fft_compute
              (short_window log10 pow fft_windowing fft_compute
                 (store_block (set_last st (micros_start inp)) (samples inp))
                 (samples inp))) as (Hlb & _).
  rewrite Hlb.
  destruct (short_window_frame log10 pow fft_windowing fft_compute
              (store_block (set_last st (micros_start inp)) (samples inp))
              (samples inp)) as (_ & _ & Hlf & _).
  rewrite Hlf. unfold store_block.
  destruct (accumulate _ _ _) as [buf idx]. reflexivity.
Qed.

(** X13 on [four_blocks]: the long window of the fourth processed block is
    made of the four blocks read. *)
Lemma long_window_sees_last_four_blocks_witness :
  let iter := loop2_iter log10_tab pow_tab fft_windowing_id fft_compute_id in
  let inputs :=
    [good_input 1 65536; failed_input 2; good_input 3 131072;
     good_input 4 65536] in
  let D := delivered_blocks iter (loop2_init 0) (inputs ++ [good_input 5 0]) in
  long_buffer
    (iter (loop2_run log10_tab pow_tab fft_windowing_id fft_compute_id
             (loop2_init 0) inputs) (good_input 5 0))
  = concat (drop (length D - 4) D).
Proof.
  intros iter inputs D.
  refine (proj1 (proj2 (proj2 (proj2
    (long_window_sees_last_four_blocks log10_tab pow_tab fft_windowing_id
       fft_compute_id 0%N inputs (good_input 5 0) _ _ _))))).
  - repeat constructor.
  - reflexivity.
  - vm_compute. reflexivity.
Defined.

(** ** ProducerOrchestrator: the detectors inside the loop *)

Lemma forallb_Forall {A : Type} (p : A -> bool) (l : list A) :
  forallb p l = true -> Forall (fun x => p x = true) l.
Proof.
  intros H. apply Forall_forall. intros x Hx.
  apply (proj1 (forallb_forall p l) H), list_elem_of_In, Hx.
Qed.

Lemma forallb_Forall_false {A : Type} (p : A -> bool) (l : list A) :
  forallb (fun x => negb (p x)) l = true -> Forall (fun x => p x = false) l.
Proof.
  intros H. apply Forall_forall. intros x Hx. apply negb_true_iff.
  apply (proj1 (forallb_forall _ l) H), list_elem_of_In, Hx.
Qed.

Lemma all_and_count_true (p : double -> bool) (n : nat) (l : list double) :
  all_and_count p n l = true ->
  Forall (fun x => p x = true) l /\ (n <= length l)%nat.
Proof.
  unfold all_and_count. intros H. apply andb_true_iff in H.
  destruct H as [H1 H2].
  split; [apply forallb_Forall, H1|apply Nat.leb_le, H2].
Qed.

Lemma all_and_count_false (p : double -> bool) (n : nat) (l : list double) :
  all_and_count (fun x => negb (p x)) n l = true ->
  Forall (fun x => p x = false) l /\ (n <= length l)%nat.
Proof.
  unfold all_and_count. intros H. apply andb_true_iff in H.
  destruct H as [H1 H2].
  split; [apply forallb_Forall_false, H1|apply Nat.leb_le, H2].
Qed.

Section VoteFacts.

Context (log10 : double -> double) (pow : double -> double -> double)
  (fft_windowing : list double -> list double)
  (fft_compute : list double * list double -> list double * list double).

Local Abbreviation short_window' :=
  (short_window log10 pow fft_windowing fft_compute).
Local Abbreviation long_window' :=
  (long_window log10 pow fft_windowing fft_compute).
Local Abbreviation process_block' :=
  (process_block log10 pow fft_windowing fft_compute).
Local Abbreviation loop2_iter' :=
  (loop2_iter log10 pow fft_windowing fft_compute).
Local Abbreviation loop2_run' :=
  (loop2_run log10 pow fft_windowing fft_compute).
Local Abbreviation long_window_runs' :=
  (long_window_runs log10 pow fft_windowing fft_compute).
Local Abbreviation blocks_delivered' :=
  (blocks_delivered log10 pow fft_windowing fft_compute).
Local Abbreviation long_computations' :=
  (long_computations log10 pow fft_windowing fft_compute).
Local Abbreviation short_obs := (short_observations loop2_iter').
Local Abbreviation long_obs :=
  (long_observations loop2_iter' long_window_runs').

(** What a processed block does to the two registers and flags. *)
Lemma process_block_votes (st : state) (block : list Z) :
  let st' := process_block' st block in
  (fireAlarm st', fireShortDetected (metrics st'))
  = detect_short (fireAlarm st) (ema (short_filter st'))
  /\ (fireAlarmLong st', fireLongDetected (metrics st'))
     = (if long_ready (short_window' (store_block st block) block)
        then detect_long (fireAlarmLong st) (ema (long_filter st'))
        else (fireAlarmLong st, fireLongDetected (metrics st))).
Proof.
  unfold process_block, store_block.
  destruct (accumulate _ _ _) as [buf idx].
  unfold short_window. cbn [short_filter fireAlarm metrics long_buffer
    long_idx long_filter fireAlarmLong last metricsQueue].
  destruct (window_peak _ _ _ _ _ _) as [a b].
  pose proof (update_returns_ema SHORT_MEDIAN_N EMA_ALPHA_SHORT
                MAG_THRESHOLD_SHORT (short_filter st) a b) as Hu.
  change (update_peak_filter SHORT_MEDIAN_N EMA_ALPHA_SHORT
            MAG_THRESHOLD_SHORT) with update_short_peak_filter in Hu.
  destruct (update_short_peak_filter (short_filter st) a b) as [f e].
  cbn [fst snd] in Hu. subst e.
  destruct (detect_short (fireAlarm st) (ema f)) as [mem fire] eqn:Ed.
  unfold long_ready. cbn [long_idx].
  destruct (LONG_SAMPLES <=? Z.of_N idx).
  - unfold long_window. cbn [short_filter fireAlarm metrics long_buffer
      long_idx long_filter fireAlarmLong last metricsQueue].
    destruct (window_peak _ _ _ _ _ _) as [a' b'].
    pose proof (update_returns_ema LONG_MEDIAN_N EMA_ALPHA_LONG
                  MAG_THRESHOLD_LONG (long_filter st) a' b') as Hu.
    change (update_peak_filter LONG_MEDIAN_N EMA_ALPHA_LONG
              MAG_THRESHOLD_LONG) with update_long_peak_filter in Hu.
    destruct (update_long_peak_filter (long_filter st) a' b') as [f' e'].
    cbn [fst snd] in Hu. subst e'.
    destruct (detect_long (fireAlarmLong st) (ema f')) as [mem' fire'] eqn:El.
    cbn [publish short_filter fireAlarm metrics long_buffer long_idx
      long_filter fireAlarmLong last metricsQueue peakHzShort peakHzLong
      fireAlarmDetected fireShortDetected fireLongDetected].
    rewrite Ed, El. split; reflexivity.
  - cbn [publish short_filter fireAlarm metrics long_buffer long_idx
      long_filter fireAlarmLong last metricsQueue peakHzShort peakHzLong
      fireAlarmDetected fireShortDetected fireLongDetected].
    rewrite Ed. split; reflexivity.
Qed.

Lemma loop2_iter_votes (st : state) (inp : loop_input) :
  let st' := loop2_iter' st inp in
  (fireAlarm st', fireShortDetected (metrics st'))
  = (if delivers st inp
     then detect_short (fireAlarm st) (ema (short_filter st'))
     else (fireAlarm st, fireShortDetected (metrics st)))
  /\ (fireAlarmLong st', fireLongDetected (metrics st'))
     = (if long_window_runs' st inp
        then detect_long (fireAlarmLong st) (ema (long_filter st'))
        else (fireAlarmLong st, fireLongDetected (metrics st))).
Proof.
  intros st'. subst st'. unfold long_window_runs.
  destruct (delivers st inp) eqn:Hd.
  - rewrite (loop2_iter_deliver _ _ _ _ st inp Hd). cbn [andb].
    apply (process_block_votes (set_last st (micros_start inp))).
  - cbn [andb].
    destruct (loop2_iter_skip log10 pow fft_windowing fft_compute st inp Hd)
      as [E|E]; rewrite E; split; reflexivity.
Qed.

Lemma loop2_run_votes (inputs : list loop_input) (st : state) :
  let st' := loop2_run' st inputs in
  (fireAlarm st', fireShortDetected (metrics st'))
  = fold_left (fun acc f => detect_short (fst acc) f) (short_obs st inputs)
      (fireAlarm st, fireShortDetected (metrics st))
  /\ (fireAlarmLong st', fireLongDetected (metrics st'))
     = fold_left (fun acc f => detect_long (fst acc) f) (long_obs st inputs)
         (fireAlarmLong st, fireLongDetected (metrics st))
  /\ length (short_obs st inputs) = blocks_delivered' st inputs
  /\ length (long_obs st inputs) = long_computations' st inputs.
Proof.
  revert st. induction inputs as [|inp inputs IH]; intros st.
  - cbn. auto.
  - cbn [loop2_run fold_left short_observations long_observations
      blocks_delivered long_computations].
    destruct (IH (loop2_iter' st inp)) as (I1 & I2 & I3 & I4).
    destruct (loop2_iter_votes st inp) as (S1 & S2).
    cbv zeta in I1, I2, S1, S2. unfold loop2_run in I1, I2.
    rewrite !fold_left_app, !length_app, I1, I2, I3, I4, S1, S2.
    split; [|split; [|split]].
    + destruct (delivers st inp); reflexivity.
    + destruct (long_window_runs' st inp); reflexivity.
    + destruct (delivers st inp); reflexivity.
    + destruct (long_window_runs' st inp); reflexivity.
Qed.

Lemma long_computations_le (inputs : list loop_input) (st : state) :
  (long_computations' st inputs <= blocks_delivered' st inputs)%nat.
Proof.
  revert st. induction inputs as [|inp inputs IH]; intros st; [cbn; lia|].
  cbn [long_computations blocks_delivered].
  pose proof (IH (loop2_iter' st inp)). unfold long_window_runs.
  destruct (delivers st inp); cbn [andb]; [|lia].
  destruct (long_ready _); lia.
Qed.

End VoteFacts.

(** X14: inside [loop2] each detector sees one observation per window. Along
    every run from the initial state, [fireAlarm] and the short flag of the
    snapshot are what [detectFrequency] gives, from register 0, on the
    smoothed short-window frequencies of the processed blocks in order, one
    call per block; [fireAlarmLong] and the long flag likewise on the
    smoothed long-window frequencies, one call per long-window
    computation. *)
Theorem detectors_vote_once_per_window
  (log10 : double -> double) (pow : double -> double -> double)
  (fft_windowing : list double -> list double)
  (fft_compute : list double * list double -> list double * list double)
  (now : N) (inputs : list loop_input) :
  let iter := loop2_iter log10 pow fft_windowing fft_compute in
  let runs := long_window_runs log10 pow fft_windowing fft_compute in
  let st :=
    loop2_run log10 pow fft_windowing fft_compute (loop2_init now) inputs in
  let short_obs := short_observations iter (loop2_init now) inputs in
  let long_obs := long_observations iter runs (loop2_init now) inputs in
  (fireAlarm st, fireShortDetected (metrics st))
  = detect_run detect_short 0 short_obs
  /\ (fireAlarmLong st, fireLongDetected (metrics st))
     = detect_run detect_long 0 long_obs
  /\ length short_obs
     = blocks_delivered log10 pow fft_windowing fft_compute (loop2_init now)
         inputs
  /\ length long_obs
     = long_computations log10 pow fft_windowing fft_compute (loop2_init now)
         inputs.
Proof.
  intros iter runs st short_obs long_obs.
  exact (loop2_run_votes log10 pow fft_windowing fft_compute inputs
           (loop2_init now)).
Qed.

(** X15: a tone raises the alarm on the endpoint. Along a run from the
    initial state, if the smoothed short-window frequencies of the last 15
    (or more) processed blocks are all within 11 Hz of 3100 Hz, or those of
    the last 8 (or more) long windows are all within 3 Hz of 3100 Hz, then
    [handleMetrics] answers 200 with [fireAlarmDetected] true. *)
Theorem tone_raises_alarm
  (log10 : double -> double) (pow : double -> double -> double)
  (fft_windowing : list double -> list double)
  (fft_compute : list double * list double -> list double * list double)
  (now : N) (inputs : list loop_input) (before hits : list double) :
  let iter := loop2_iter log10 pow fft_windowing fft_compute in
  let runs := long_window_runs log10 pow fft_windowing fft_compute in
  let st :=
    loop2_run log10 pow fft_windowing fft_compute (loop2_init now) inputs in
  (short_observations iter (loop2_init now) inputs = before ++ hits
   /\ Forall (fun f => freq_match f 3100 11 = true) hits
   /\ (15 <= length hits)%nat)
  \/ (long_observations iter runs (loop2_init now) inputs = before ++ hits
      /\ Forall (fun f => freq_match f 3100 3 = true) hits
      /\ (8 <= length hits)%nat) ->
  let response := fst (handleMetrics (Some (metricsQueue st))) in
  status_code response = 200
  /\ In ("fireAlarmDetected"%string, JBool true) (body response)
  /\ fireAlarmDetected (metrics st) = true.
Proof.
  intros iter runs st H response.
  destruct (loop2_run_votes log10 pow fft_windowing fft_compute inputs
              (loop2_init now)) as (V1 & V2 & L1 & L2).
  cbv zeta in V1, V2. fold iter runs st in V1, V2, L1, L2.
  change (fold_left (fun acc f => detect_short (fst acc) f)
            (short_observations iter (loop2_init now) inputs)
            (fireAlarm (loop2_init now),
             fireShortDetected (metrics (loop2_init now))))
    with (detect_run detect_short 0
            (short_observations iter (loop2_init now) inputs)) in V1.
  change (fold_left (fun acc f => detect_long (fst acc) f)
            (long_observations iter runs (loop2_init now) inputs)
            (fireAlarmLong (loop2_init now),
             fireLongDetected (metrics (loop2_init now))))
    with (detect_run detect_long 0
            (long_observations iter runs (loop2_init now) inputs)) in V2.
  pose proof (snapshot_inv_run log10 pow fft_windowing fft_compute inputs
                (loop2_init now) eq_refl) as Hi.
  fold st in Hi. unfold snapshot_inv in Hi.
  assert (Hflag : fireShortDetected (metrics st) = true
                  \/ fireLongDetected (metrics st) = true).
  { destruct H as [(E & Hall & Hlen)|(E & Hall & Hlen)].
    - left. rewrite E in V1. apply (f_equal snd) in V1. cbn [snd] in V1.
      rewrite V1.
      apply (detect_run_hits 31 15 3100 11 ltac:(lia) 0 before hits);
        [reflexivity|lia|exact Hall|lia|].
      destruct hits; [cbn in Hlen; lia|discriminate].
    - right. rewrite E in V2. apply (f_equal snd) in V2. cbn [snd] in V2.
      rewrite V2.
      apply (detect_run_hits 15 8 3100 3 ltac:(lia) 0 before hits);
        [reflexivity|lia|exact Hall|lia|].
      destruct hits; [cbn in Hlen; lia|discriminate]. }
  assert (Hd : (1 <= blocks_delivered log10 pow fft_windowing fft_compute
                      (loop2_init now) inputs)%nat).
  { destruct H as [(E & _ & Hlen)|(E & _ & Hlen)].
    - rewrite <- L1, E, length_app. lia.
    - pose proof (long_computations_le log10 pow fft_windowing fft_compute
                    inputs (loop2_init now)) as Hle.
      rewrite <- L2, E, length_app in Hle. lia. }
  pose proof (loop2_run_queue log10 pow fft_windowing fft_compute inputs
                (loop2_init now) (or_intror Hd)) as Hq.
  fold st in Hq.
  assert (Hall : fireAlarmDetected (metrics st) = true).
  { destruct (metricsQueue st) as [|m rest]; [contradiction|].
    destruct Hi as (_ & -> & Hor). rewrite Hor.
    destruct Hflag as [Hf|Hf]; rewrite Hf;
      [reflexivity|apply orb_true_r]. }
  subst response.
  destruct (metricsQueue st) as [|m rest]; [contradiction|].
  destruct Hi as (_ & -> & _).
  unfold handleMetrics, xQueuePeek. cbn [head fst status_code body].
  split; [reflexivity|]. split; [|exact Hall].
  rewrite Hall. cbn. tauto.
Qed.

(** X15 on fifteen processed blocks, with the transform stand-in that
    reports a tone in bin 140 of the short window, 3093.5 Hz. *)
Lemma tone_raises_alarm_witness :
  fireAlarmDetected
    (metrics (loop2_run log10_tab pow_tab fft_windowing_id fft_compute_tone
                (loop2_init 0) (due_inputs 15))) = true.
Proof.
  destruct (all_and_count_true (fun f => freq_match f 3100 11) 15
              (short_observations
                 (loop2_iter log10_tab pow_tab fft_windowing_id
                    fft_compute_tone)
                 (loop2_init 0) (due_inputs 15))) as [H1 H2];
    [vm_compute; reflexivity|].
  exact (proj2 (proj2 (tone_raises_alarm log10_tab pow_tab fft_windowing_id
    fft_compute_tone 0%N (due_inputs 15) [] _
    (or_introl (conj eq_refl (conj H1 H2)))))).
Defined.

(** X16: silence clears the alarm, and only silence in both windows does.
    Along a run from the initial state, if the smoothed short-window
    frequencies of the last 18 (or more) processed blocks all miss 3100 Hz
    by more than 11 Hz and those of the last 9 (or more) long windows all
    miss it by more than 3 Hz, then the snapshot has all three flags false
    and [handleMetrics] answers 200 with [fireAlarmDetected] false. *)
Theorem silence_clears_alarm
  (log10 : double -> double) (pow : double -> double -> double)
  (fft_windowing : list double -> list double)
  (fft_compute : list double * list double -> list double * list double)
  (now : N) (inputs : list loop_input)
  (before misses before_long misses_long : list double) :
  let iter := loop2_iter log10 pow fft_windowing fft_compute in
  let runs := long_window_runs log10 pow fft_windowing fft_compute in
  let st :=
    loop2_run log10 pow fft_windowing fft_compute (loop2_init now) inputs in
  short_observations iter (loop2_init now) inputs = before ++ misses ->
  Forall (fun f => freq_match f 3100 11 = false) misses ->
  (18 <= length misses)%nat ->
  long_observations iter runs (loop2_init now) inputs
  = before_long ++ misses_long ->
  Forall (fun f => freq_match f 3100 3 = false) misses_long ->
  (9 <= length misses_long)%nat ->
  let response := fst (handleMetrics (Some (metricsQueue st))) in
  status_code response = 200
  /\ In ("fireAlarmDetected"%string, JBool false) (body response)
  /\ fireShortDetected (metrics st) = false
  /\ fireLongDetected (metrics st) = false
  /\ fireAlarmDetected (metrics st) = false.
Proof.
  intros iter runs st Es Hs Ls El Hl Ll response.
  destruct (loop2_run_votes log10 pow fft_windowing fft_compute inputs
              (loop2_init now)) as (V1 & V2 & L1 & _).
  cbv zeta in V1, V2. fold iter runs st in V1, V2, L1.
  change (fold_left (fun acc f => detect_short (fst acc) f)
            (short_observations iter (loop2_init now) inputs)
            (fireAlarm (loop2_init now),
             fireShortDetected (metrics (loop2_init now))))
    with (detect_run detect_short 0
            (short_observations iter (loop2_init now) inputs)) in V1.
  change (fold_left (fun acc f => detect_long (fst acc) f)
            (long_observations iter runs (loop2_init now) inputs)
            (fireAlarmLong (loop2_init now),
             fireLongDetected (metrics (loop2_init now))))
    with (detect_run detect_long 0
            (long_observations iter runs (loop2_init now) inputs)) in V2.
  assert (Hshort : fireShortDetected (metrics st) = false).
  { rewrite Es in V1. apply (f_equal snd) in V1. cbn [snd] in V1.
    rewrite V1.
    apply (detect_run_misses 31 15 3100 11 ltac:(lia) 0 before misses);
      [reflexivity|lia|exact Hs|lia]. }
  assert (Hlong : fireLongDetected (metrics st) = false).
  { rewrite El in V2. apply (f_equal snd) in V2. cbn [snd] in V2.
    rewrite V2.
    apply (detect_run_misses 15 8 3100 3 ltac:(lia) 0 before_long
             misses_long); [reflexivity|lia|exact Hl|lia]. }
  assert (Hd : (1 <= blocks_delivered log10 pow fft_windowing fft_compute
                      (loop2_init now) inputs)%nat)
    by (rewrite <- L1, Es, length_app; lia).
  pose proof (loop2_run_queue log10 pow fft_windowing fft_compute inputs
                (loop2_init now) (or_intror Hd)) as Hq.
  pose proof (snapshot_inv_run log10 pow fft_windowing fft_compute inputs
                (loop2_init now) eq_refl) as Hi.
  fold st in Hq, Hi. unfold snapshot_inv in Hi.
  subst response.
  destruct (metricsQueue st) as [|m rest]; [contradiction|].
  destruct Hi as (_ & -> & Hor).
  rewrite Hshort, Hlong in Hor. cbn [orb] in Hor.
  unfold handleMetrics, xQueuePeek. cbn [head fst status_code body].
  split; [reflexivity|]. split; [rewrite Hor; cbn; tauto|].
  split; [exact Hshort|]. split; [exact Hlong|exact Hor].
Qed.

(** X16 on thirty-six processed blocks, nine long windows, with the
    transform stand-in that reports no signal. *)
Lemma silence_clears_alarm_witness :
  fireAlarmDetected
    (metrics (loop2_run log10_tab pow_tab fft_windowing_id fft_compute_silent
                (loop2_init 0) (due_inputs 36))) = false.
Proof.
  destruct (all_and_count_false (fun f => freq_match f 3100 11) 18
              (short_observations
                 (loop2_iter log10_tab pow_tab fft_windowing_id
                    fft_compute_silent)
                 (loop2_init 0) (due_inputs 36))) as [H1 H2];
    [vm_compute; reflexivity|].
  destruct (all_and_count_false (fun f => freq_match f 3100 3) 9
              (long_observations
                 (loop2_iter log10_tab pow_tab fft_windowing_id
                    fft_compute_silent)
                 (long_window_runs log10_tab pow_tab fft_windowing_id
                    fft_compute_silent)
                 (loop2_init 0) (due_inputs 36))) as [H3 H4];
    [vm_compute; reflexivity|].
  exact (proj2 (proj2 (proj2 (proj2
    (silence_clears_alarm log10_tab pow_tab fft_windowing_id
       fft_compute_silent 0%N (due_inputs 36) [] _ [] _
       eq_refl H1 H2 eq_refl H3 H4))))).
Defined.

(** ** ProducerOrchestrator: [integerToFloat] *)

Lemma half_word_all : range_ok (Z.to_nat 65536) (-32768) = true.
Proof. vm_compute. reflexivity. Qed.

Lemma range_ok_spec (n : nat) (t k : Z) :
  range_ok n t = true -> t <= k < t + Z.of_nat n -> half_word_ok k = true.
Proof.
  revert t. induction n as [|n IH]; intros t H Hk; [lia|].
  cbn [range_ok] in H. apply andb_true_iff in H. destruct H as [H1 H2].
  destruct (Z.eq_dec k t) as [->|Hne]; [exact H1|].
  apply (IH (t + 1)); [exact H2|lia].
Qed.

Lemma half_word_range (t : Z) :
  -32768 <= t < 32768 -> half_word_ok t = true.
Proof.
  intros H.
  apply (range_ok_spec (Z.to_nat 65536) (-32768) t half_word_all). lia.
Qed.

Lemma shiftr_half_word (x : Z) :
  - 2 ^ 31 <= x < 2 ^ 31 ->
  Z.shiftr x 16 = x / 65536 /\ -32768 <= x / 65536 < 32768.
Proof.
  intros H. rewrite Z.shiftr_div_pow2 by lia.
  change (2 ^ 16) with 65536. split; [reflexivity|].
  split.
  - apply Z.div_le_lower_bound; lia.
  - apply Z.div_lt_upper_bound; lia.
Qed.

(** X17: [integerToFloat] keeps the upper half-word of each 32-bit sample.
    For [samples] entries of 32-bit values, [vImag] is all zeros and entry
    [i] of [vReal] is [(float)(t / 10.0)] with [t] the sample divided by
    65536, rounded down: a finite value between -3277 and 3277, which is 0
    exactly for the samples 0..65535; the samples -65536..-1 all give
    [(float)(-0.1)]. *)
Theorem integerToFloat_keeps_upper_half_word (integer : list Z)
  (samples : Z) :
  Forall (fun x => - 2 ^ 31 <= x < 2 ^ 31) integer ->
  (Z.to_nat samples <= length integer)%nat ->
  let vReal := fst (integerToFloat integer samples) in
  let vImag := snd (integerToFloat integer samples) in
  length vReal = Z.to_nat samples
  /\ vImag = replicate (Z.to_nat samples) 0%float
  /\ forall (i : nat) (x : Z),
       (i < Z.to_nat samples)%nat -> integer !! i = Some x ->
       let v := float_of_double (double_of_Z (x / 65536) / 10)%float in
       vReal !! i = Some v
       /\ is_finite v = true
       /\ (-3277 <=? v)%float = true /\ (v <=? 3277)%float = true
       /\ ((v =? 0)%float = true <-> 0 <= x < 65536)
       /\ (-65536 <= x < 0 -> v = float_of_double (-0.1)%float).
Proof.
  intros Hall Hlen vReal vImag. subst vReal vImag.
  unfold integerToFloat. cbn [fst snd].
  split; [rewrite length_map, length_take; lia|].
  split; [reflexivity|].
  intros i x Hi Hx.
  set (v := float_of_double (double_of_Z (x / 65536) / 10)%float).
  assert (Hr : - 2 ^ 31 <= x < 2 ^ 31).
  { apply (proj1 (Forall_forall _ _) Hall).
    eapply list_elem_of_lookup_2. exact Hx. }
  destruct (shiftr_half_word x Hr) as [Es Ht].
  pose proof (half_word_range (x / 65536) Ht) as Hok.
  unfold half_word_ok, half_word_value in Hok. cbv zeta in Hok.
  fold v in Hok.
  apply andb_true_iff in Hok. destruct Hok as [Hok H4].
  apply andb_true_iff in Hok. destruct Hok as [Hok H3].
  apply andb_true_iff in Hok. destruct Hok as [H1 H2].
  split.
  { rewrite list_lookup_fmap, lookup_take_lt, Hx by exact Hi.
    cbn [fmap option_fmap option_map]. rewrite Es. reflexivity. }
  split; [exact H1|]. split; [exact H2|]. split; [exact H3|].
  split.
  - apply eqb_prop in H4. rewrite H4. rewrite Z.eqb_eq.
    split.
    + intros E. split.
      * destruct (Z.lt_ge_cases x 0) as [Hn|Hn]; [|exact Hn].
        assert (x / 65536 < 0) by (apply Z.div_lt_upper_bound; lia). lia.
      * destruct (Z.lt_ge_cases x 65536) as [Hn|Hn]; [exact Hn|].
        assert (1 <= x / 65536) by (apply Z.div_le_lower_bound; lia). lia.
    + intros Hx0. apply Z.div_small. exact Hx0.
  - intros Hneg. subst v.
    assert (E : x / 65536 = -1).
    { assert (x / 65536 < 0) by (apply Z.div_lt_upper_bound; lia).
      assert (-1 <= x / 65536) by (apply Z.div_le_lower_bound; lia). lia. }
    rewrite E. reflexivity.
Qed.

(** X17 on three samples: 65535 is silenced, -1 is not. *)
Lemma integerToFloat_keeps_upper_half_word_witness :
  fst (integerToFloat [65535; -1; 655360] 3) !! 0%nat = Some 0%float
  /\ fst (integerToFloat [65535; -1; 655360] 3) !! 1%nat
     = Some (float_of_double (-0.1)%float).
Proof.
  destruct (integerToFloat_keeps_upper_half_word [65535; -1; 655360] 3)
    as (_ & _ & H).
  - repeat constructor; lia.
  - cbn. lia.
  - split.
    + exact (proj1 (H 0%nat 65535 ltac:(lia) eq_refl)).
    + exact (proj1 (H 1%nat (-1) ltac:(lia) eq_refl)).
Defined.
